(** * tbl-js: an in-memory relational data table

    A shallow embedding of the JavaScript sources (DataColumn, DataRow,
    DataColumnCollection, DataRowCollection, DataTable, DataRelation,
    DataSet, DataView) and the properties of its specification.

    Objects that the program shares and mutates (tables and rows) live in
    a store addressed by locations; every operation is a function from a
    store to a store and an outcome, where an outcome is a result or a
    thrown error.  A thrown error keeps the store as it was at the
    [throw], as in JavaScript. *)

From stdpp Require Import base option list gmap sets strings pretty.
From Stdlib Require Import ZArith QArith Ascii String.
Close Scope Q_scope.
Open Scope string_scope.
Open Scope list_scope.

(** ** JavaScript values *)

(** Numbers.  A finite double is a rational; the engine's rounding to the
    nearest double is not modelled, and [-0] is identified with [0] (the
    program never tells them apart: it uses [===], [isNaN], [-] and [<]). *)
Inductive number := NaN | PosInf | NegInf | Fin (q : Q).

Definition isNaN (n : number) : bool :=
  match n with NaN => true | _ => false end.

Definition isFinite (n : number) : bool :=
  match n with Fin _ => true | _ => false end.

(** [Number::equal] *)
Definition number_eqb (a b : number) : bool :=
  match a, b with
  | PosInf, PosInf | NegInf, NegInf => true
  | Fin p, Fin q => Qeq_bool p q
  | _, _ => false
  end.

(** [Number::lessThan]; [None] is the specification's [undefined]. *)
Definition number_lessThan (a b : number) : option bool :=
  match a, b with
  | NaN, _ | _, NaN => None
  | PosInf, _ => Some false
  | _, PosInf => Some true
  | _, NegInf => Some false
  | NegInf, _ => Some true
  | Fin p, Fin q => Some (negb (Qle_bool q p))
  end.

Definition number_negate (a : number) : number :=
  match a with
  | NaN => NaN | PosInf => NegInf | NegInf => PosInf
  | Fin q => Fin (Qred (Qopp q))
  end.

(** [Number::subtract] *)
Definition number_subtract (a b : number) : number :=
  match a, b with
  | NaN, _ | _, NaN => NaN
  | PosInf, PosInf | NegInf, NegInf => NaN
  | PosInf, _ | _, NegInf => PosInf
  | NegInf, _ | _, PosInf => NegInf
  | Fin p, Fin q => Fin (Qred (Qminus p q))
  end.

Definition number_of_Z (z : Z) : number := Fin (inject_Z z).

(** Values.  A [Date] object is taken by value, as its time value
    ([NaN] for an invalid date): dates are compared by [===] as distinct
    objects (see [strict_equal]).  Arrays, functions and other objects as
    cell values are outside the model. *)
Inductive val :=
| VUndefined
| VNull
| VBool (b : bool)
| VNum (n : number)
| VStr (s : string)
| VDate (t : number).

(** [value === null] *)
Definition is_null (v : val) : bool :=
  match v with VNull => true | _ => false end.

(** [value == null]: null or undefined *)
Definition is_nullish (v : val) : bool :=
  match v with VNull | VUndefined => true | _ => false end.

Definition instanceof_Date (v : val) : bool :=
  match v with VDate _ => true | _ => false end.

Definition typeof (v : val) : string :=
  match v with
  | VUndefined => "undefined"
  | VNull => "object"
  | VBool _ => "boolean"
  | VNum _ => "number"
  | VStr _ => "string"
  | VDate _ => "object"
  end.

(** [a === b].  Two dates are two objects, so never strictly equal: a
    date of the model is a [Date] object of its own, and one [Date]
    object that two places hold is outside the model. *)
Definition strict_equal (a b : val) : bool :=
  match a, b with
  | VUndefined, VUndefined => true
  | VNull, VNull => true
  | VBool x, VBool y => Bool.eqb x y
  | VNum x, VNum y => number_eqb x y
  | VStr x, VStr y => String.eqb x y
  | _, _ => false
  end.

(** [SameValueZero], the comparison of [Array.prototype.includes]. *)
Definition same_value_zero (a b : val) : bool :=
  match a, b with
  | VNum NaN, VNum NaN => true
  | _, _ => strict_equal a b
  end.

(** [Boolean(value)] *)
Definition ToBoolean (v : val) : bool :=
  match v with
  | VUndefined | VNull => false
  | VBool b => b
  | VNum NaN => false
  | VNum (Fin q) => negb (Qeq_bool q 0)
  | VNum _ => true
  | VStr s => negb (String.eqb s "")
  | VDate _ => true
  end.

(** ** Strings *)

Definition ascii_toLowerCase (c : ascii) : ascii :=
  let n := nat_of_ascii c in
  if (65 <=? n)%nat && (n <=? 90)%nat then ascii_of_nat (n + 32) else c.

(** [String.prototype.toLowerCase] on the ASCII letters, which is all the
    comparison with the four type names depends on. *)
Fixpoint toLowerCase (s : string) : string :=
  match s with
  | EmptyString => EmptyString
  | String c s' => String (ascii_toLowerCase c) (toLowerCase s')
  end.

(** [haystack.includes(needle)] *)
Definition string_includes (haystack needle : string) : bool :=
  match String.index 0 needle haystack with Some _ => true | None => false end.

(** *** [StringToNumber]: the StringNumericLiteral grammar *)

Definition is_white_space (c : ascii) : bool :=
  let n := nat_of_ascii c in
  (n =? 9)%nat || (n =? 10)%nat || (n =? 11)%nat || (n =? 12)%nat
  || (n =? 13)%nat || (n =? 32)%nat.

Fixpoint trim_start (l : list ascii) : list ascii :=
  match l with
  | c :: l' => if is_white_space c then trim_start l' else l
  | [] => []
  end.

Definition trim (l : list ascii) : list ascii :=
  rev (trim_start (rev (trim_start l))).

Definition digit_value (radix : nat) (c : ascii) : option Z :=
  let n := nat_of_ascii c in
  let d :=
    if (48 <=? n)%nat && (n <=? 57)%nat then Some (n - 48)%nat
    else if (97 <=? n)%nat && (n <=? 102)%nat then Some (n - 87)%nat
    else if (65 <=? n)%nat && (n <=? 70)%nat then Some (n - 55)%nat
    else None in
  match d with
  | Some k => if (k <? radix)%nat then Some (Z.of_nat k) else None
  | None => None
  end.

(** The longest prefix of digits, with its value, and the rest. *)
Fixpoint span_digits (radix : nat) (acc : Z) (count : nat) (l : list ascii)
  : Z * nat * list ascii :=
  match l with
  | c :: l' =>
      match digit_value radix c with
      | Some d => span_digits radix (acc * Z.of_nat radix + d)%Z (S count) l'
      | None => (acc, count, l)
      end
  | [] => (acc, count, [])
  end.

(** An integer literal in the given radix: digits only, at least one. *)
Definition parse_digits (radix : nat) (l : list ascii) : option Q :=
  match span_digits radix 0 0 l with
  | (v, S _, []) => Some (inject_Z v)
  | _ => None
  end.

(** [m * 10^e] *)
Definition scale10 (m e : Z) : Q :=
  if (0 <=? e)%Z then inject_Z (m * 10 ^ e)
  else Qred (Qmake m (Z.to_pos (10 ^ (- e)))).

(** StrUnsignedDecimalLiteral without [Infinity]:
    digits [. digits] [e [+-] digits], with a digit before or after the
    point. *)
Definition parse_decimal (l : list ascii) : option Q :=
  let '(ip, ni, r1) := span_digits 10 0 0 l in
  let '(m, nf, r2) :=
    match r1 with
    | "."%char :: r => span_digits 10 ip 0 r
    | _ => (ip, 0%nat, r1)
    end in
  if (ni + nf =? 0)%nat then None
  else
    match r2 with
    | [] => Some (scale10 m (- Z.of_nat nf))
    | c :: r3 =>
        if Ascii.eqb c "e" || Ascii.eqb c "E" then
          let '(sgn, r4) :=
            match r3 with
            | "+"%char :: r => (1%Z, r)
            | "-"%char :: r => ((-1)%Z, r)
            | _ => (1%Z, r3)
            end in
          match span_digits 10 0 0 r4 with
          | (ex, S _, []) => Some (scale10 m (sgn * ex - Z.of_nat nf))
          | _ => None
          end
        else None
    end.

Definition Infinity_literal : list ascii := list_ascii_of_string "Infinity".

Definition parse_unsigned (l : list ascii) : option number :=
  if decide (l = Infinity_literal) then Some PosInf
  else Fin <$> parse_decimal l.

(** [StringToNumber]: white space is trimmed (the ASCII white space; the
    Unicode space separators are not recognised), the empty string is 0,
    what does not match the grammar is [NaN].  The value is the exact
    rational that the literal denotes: it is the double of the engine
    for the literals that a double holds exactly, such as the integers
    below 2^53, and it is neither rounded nor taken to [Infinity]
    beyond the range of the doubles. *)
Definition StringToNumber (s : string) : number :=
  match trim (list_ascii_of_string s) with
  | [] => Fin 0
  | "0"%char :: x :: r =>
      let l := "0"%char :: x :: r in
      if Ascii.eqb x "x" || Ascii.eqb x "X" then default NaN (Fin <$> parse_digits 16 r)
      else if Ascii.eqb x "o" || Ascii.eqb x "O" then default NaN (Fin <$> parse_digits 8 r)
      else if Ascii.eqb x "b" || Ascii.eqb x "B" then default NaN (Fin <$> parse_digits 2 r)
      else default NaN (parse_unsigned l)
  | "+"%char :: r => default NaN (parse_unsigned r)
  | "-"%char :: r => default NaN (number_negate <$> parse_unsigned r)
  | l => default NaN (parse_unsigned l)
  end.

(** ** The engine

    What ECMAScript leaves to the implementation, or what depends on the
    binary representation of doubles, is a parameter of the development:
    every theorem holds for every engine. *)
Class Engine := {
  (** [Number::toString] *)
  NumberToString : number -> string;
  (** [Date.parse] on a string: a time value, or [NaN] *)
  Date_parse : string -> number;
  (** [Date.prototype.toString] from the time value *)
  DateToString : number -> string;
  (** [String.prototype.localeCompare] *)
  localeCompare : string -> string -> number;
}.

(** [String(value)] *)
Definition ToString `{Engine} (v : val) : string :=
  match v with
  | VUndefined => "undefined"
  | VNull => "null"
  | VBool true => "true"
  | VBool false => "false"
  | VNum n => NumberToString n
  | VStr s => s
  | VDate t => DateToString t
  end.

(** [Number(value)] *)
Definition ToNumber (v : val) : number :=
  match v with
  | VUndefined => NaN
  | VNull => Fin 0
  | VBool true => Fin 1
  | VBool false => Fin 0
  | VNum n => n
  | VStr s => StringToNumber s
  | VDate t => t
  end.

(** [TimeClip]: a time value is an integer of at most 8.64e15 in
    magnitude. *)
Definition TimeClip (n : number) : number :=
  match n with
  | Fin q =>
      let z := Z.quot (Qnum q) (Z.pos (Qden q)) in
      if Qle_bool (inject_Z (-8640000000000000)) q
         && Qle_bool q (inject_Z 8640000000000000)
      then Fin (inject_Z z) else NaN
  | _ => NaN
  end.

(** The time value of [new Date(value)]. *)
Definition Date_of `{Engine} (v : val) : number :=
  match v with
  | VDate t => t
  | VStr s => TimeClip (Date_parse s)
  | _ => TimeClip (ToNumber v)
  end.

(** [a < b], the abstract relational comparison: two strings are compared
    by code units, anything else as numbers; [None] when a side is [NaN]. *)
Definition less_than (a b : val) : option bool :=
  match a, b with
  | VStr x, VStr y => Some (String.ltb x y)
  | _, _ => number_lessThan (ToNumber a) (ToNumber b)
  end.

Definition js_lt (a b : val) : bool := default false (less_than a b).
Definition js_gt (a b : val) : bool := default false (less_than b a).
Definition js_le (a b : val) : bool := default false (negb <$> less_than b a).
Definition js_ge (a b : val) : bool := default false (negb <$> less_than a b).

(** ** Errors *)

(** One constructor per [throw new Error(...)] of the sources, named by
    the message; [TypeError] is what the engine throws on a call or a
    property read on a value that does not support it. *)
Inductive error :=
| ColumnDoesNotExist (columnName : string)
| ColumnAtIndexDoesNotExist (index : number)
| ColumnAlreadyExists (columnName : string)
| DoesNotAllowNull (columnName : string)
| CannotBeConvertedToNumber (columnName : string) (v : val)
| CannotBeConvertedToDate (columnName : string) (v : val)
| TableAlreadyExists (tableName : string)
| TableDoesNotExist (tableName : string)
| RelationDoesNotExist (relationName : string)
| IndexOutOfRange (index : number)
| TypeError.

(** The error kinds of the specification. *)
Inductive error_kind :=
| DuplicateName | NotFound | NullNotAllowed | TypeCoercionError
| IndexOutOfRangeError | EngineTypeError.

Definition kind_of (e : error) : error_kind :=
  match e with
  | ColumnDoesNotExist _ | ColumnAtIndexDoesNotExist _
  | TableDoesNotExist _ | RelationDoesNotExist _ => NotFound
  | ColumnAlreadyExists _ | TableAlreadyExists _ => DuplicateName
  | DoesNotAllowNull _ => NullNotAllowed
  | CannotBeConvertedToNumber _ _ | CannotBeConvertedToDate _ _ => TypeCoercionError
  | IndexOutOfRange _ => IndexOutOfRangeError
  | TypeError => EngineTypeError
  end.

Inductive outcome (A : Type) :=
| Ok (a : A)
| Throw (e : error).
Arguments Ok {A} a.
Arguments Throw {A} e.

Definition outcome_bind {A B} (o : outcome A) (k : A -> outcome B) : outcome B :=
  match o with Ok a => k a | Throw e => Throw e end.

Notation "'let?' x ':=' o 'in' k" := (outcome_bind o (fun x => k))
  (at level 10, x pattern, o at level 100, k at level 200).

Definition is_Ok {A} (o : outcome A) : bool :=
  match o with Ok _ => true | Throw _ => false end.

(** ** The data model *)

Definition loc := positive.

Module DataRowState.
Inductive t := ADDED | MODIFIED | DELETED | UNCHANGED.

Definition isChanged (state : t) : bool :=
  match state with ADDED | MODIFIED | DELETED => true | UNCHANGED => false end.

Definition isUnchanged (state : t) : bool :=
  match state with UNCHANGED => true | _ => false end.
End DataRowState.

(** [table] is the back reference [_table] that the getter [table]
    reads: [None] until the column is added to a collection. *)
Record DataColumn := {
  columnName : string;
  dataType : option string;
  ordinal : Z;
  allowNull : bool;
  defaultValue : val;
  caption : string;
  expression : option string;
  readOnly : bool;
  unique : bool;
  table : option loc;
}.

(** A row.  [_values] and [_originalValues] are the two objects that the
    constructor allocates and that are never reassigned, only written to:
    each is held in the row's cell, and the [_values] object is addressed
    through its row (see [ValuesOf]). *)
Record DataRow := {
  _table : loc;
  _values : gmap string val;
  _rowState : DataRowState.t;
  _originalValues : gmap string val;
}.

(** The array [_rows], in order. *)
Record DataRowCollection := { _rows : list loc }.

(** The [Map] [_columns] from name to column, in insertion order; the key
    of a column is its [columnName]. *)
Record DataColumnCollection := { _columns : list DataColumn }.

Record DataTable := {
  tableName : string;
  rows : DataRowCollection;
  columns : DataColumnCollection;
  caseSensitive : bool;
}.

Inductive cell :=
| CTable (t : DataTable)
| CRow (r : DataRow).

Abbreviation heap := (gmap loc cell).

(** ** Operations on the store *)

Definition M (A : Type) : Type := heap -> heap * outcome A.

Definition ret {A} (a : A) : M A := fun h => (h, Ok a).
Definition throw {A} (e : error) : M A := fun h => (h, Throw e).
Definition bind {A B} (m : M A) (k : A -> M B) : M B :=
  fun h => match m h with
           | (h', Ok a) => k a h'
           | (h', Throw e) => (h', Throw e)
           end.

Notation "'let!' x ':=' m 'in' k" := (bind m (fun x => k))
  (at level 10, x pattern, m at level 100, k at level 200).

(** A read that does not change the store. *)
Definition read {A} (f : heap -> outcome A) : M A := fun h => (h, f h).

Definition read_table (h : heap) (l : loc) : outcome DataTable :=
  match h !! l with Some (CTable t) => Ok t | _ => Throw TypeError end.

Definition read_row (h : heap) (l : loc) : outcome DataRow :=
  match h !! l with Some (CRow r) => Ok r | _ => Throw TypeError end.

Definition get_table (l : loc) : M DataTable := read (fun h => read_table h l).
Definition get_row (l : loc) : M DataRow := read (fun h => read_row h l).

Definition put (l : loc) (c : cell) : M unit := fun h => (<[l := c]> h, Ok tt).

(** [new]: a location that the store does not use yet. *)
Definition alloc (c : cell) : M loc :=
  fun h => let l := fresh (dom h) in (<[l := c]> h, Ok l).

(** A write to a field of the row at [l]. *)
Definition modify_row (l : loc) (f : DataRow -> DataRow) : M unit :=
  let! r := get_row l in put l (CRow (f r)).

Definition modify_table (l : loc) (f : DataTable -> DataTable) : M unit :=
  let! t := get_table l in put l (CTable (f t)).

(** [array.forEach(f)] and [for (const x of array)] *)
Fixpoint forEach {A} (l : list A) (f : A -> M unit) : M unit :=
  match l with
  | [] => ret tt
  | x :: l' => let! _ := f x in forEach l' f
  end.

(** [array.map(f)], with the results in order *)
Fixpoint mapM {A B} (f : A -> M B) (l : list A) : M (list B) :=
  match l with
  | [] => ret []
  | x :: l' => let! y := f x in let! ys := mapM f l' in ret (y :: ys)
  end.


(** Field updates. *)
Definition with_ordinal (c : DataColumn) (o : Z) : DataColumn :=
  {| columnName := columnName c; dataType := dataType c; ordinal := o;
     allowNull := allowNull c; defaultValue := defaultValue c;
     caption := caption c; expression := expression c;
     readOnly := readOnly c; unique := unique c; table := table c |}.

Definition with_table (c : DataColumn) (t : option loc) : DataColumn :=
  {| columnName := columnName c; dataType := dataType c; ordinal := ordinal c;
     allowNull := allowNull c; defaultValue := defaultValue c;
     caption := caption c; expression := expression c;
     readOnly := readOnly c; unique := unique c; table := t |}.

Definition with_values (r : DataRow) (vals : gmap string val) : DataRow :=
  {| _table := _table r; _values := vals; _rowState := _rowState r;
     _originalValues := _originalValues r |}.

Definition with_rows (t : DataTable) (rs : list loc) : DataTable :=
  {| tableName := tableName t; rows := {| _rows := rs |};
     columns := columns t; caseSensitive := caseSensitive t |}.

Definition with_columns (t : DataTable) (cols : list DataColumn) : DataTable :=
  {| tableName := tableName t; rows := rows t;
     columns := {| _columns := cols |}; caseSensitive := caseSensitive t |}.

(** ** DataColumn *)

Module DataColumn.
(** [new DataColumn(columnName, dataType, allowNull, defaultValue)]; a
    default value that is [undefined] takes the parameter's default,
    [null]. *)
Definition new (columnName : string) (dataType : option string)
    (allowNull : bool) (defaultValue : val) : DataColumn :=
  {| columnName := columnName; dataType := dataType; ordinal := -1;
     allowNull := allowNull;
     defaultValue := match defaultValue with VUndefined => VNull | v => v end;
     caption := columnName; expression := None;
     readOnly := false; unique := false; table := None |}.
End DataColumn.

(** ** DataColumnCollection *)

(** What [add] is given: a [DataColumn] instance, or a name.  A table
    holds its columns by value here: the writes of [add], [remove] and
    [updateSchema] to a column are writes to the column of this table.
    That is the code as long as no other table holds the same
    [DataColumn] object; the module [ColumnObjects] below has [add] with
    the columns as objects that two tables can hold. *)
Inductive column_arg :=
| ColumnInstance (c : DataColumn)
| ColumnName (name : string).

Module DataColumnCollection.

(** The [Map] operations on [_columns]. *)
Definition Map_keys (cols : list DataColumn) : list string :=
  map columnName cols.

Definition has_key (keys : list string) (name : string) : bool :=
  existsb (String.eqb name) keys.

Definition Map_has (cols : list DataColumn) (name : string) : bool :=
  has_key (Map_keys cols) name.

Definition Map_get (cols : list DataColumn) (name : string) : option DataColumn :=
  List.find (fun c => String.eqb (columnName c) name) cols.

(** [set] keeps the place of a key that is there, and appends a new one. *)
Fixpoint Map_set (cols : list DataColumn) (c : DataColumn) : list DataColumn :=
  match cols with
  | [] => [c]
  | x :: cols' =>
      if String.eqb (columnName x) (columnName c) then c :: cols'
      else x :: Map_set cols' c
  end.

Definition Map_delete (cols : list DataColumn) (name : string) : list DataColumn :=
  List.filter (fun c => negb (String.eqb (columnName c) name)) cols.

(** [let ordinal = 0; for (const col of values()) col.ordinal = ordinal++] *)
Fixpoint renumber (ordinal : Z) (cols : list DataColumn) : list DataColumn :=
  match cols with
  | [] => []
  | col :: cols' => with_ordinal col ordinal :: renumber (ordinal + 1) cols'
  end.

Definition add (this_table : loc) (columnOrName : column_arg)
    (dataType : option string) : M DataColumn :=
  let column :=
    match columnOrName with
    | ColumnInstance c => c
    | ColumnName name => DataColumn.new name dataType true VNull
    end in
  let! t := get_table this_table in
  if Map_has (_columns (columns t)) (columnName column) then
    throw (ColumnAlreadyExists (columnName column))
  else
    let column := with_table column (Some this_table) in
    let column := with_ordinal column (Z.of_nat (List.length (_columns (columns t)))) in
    let! _ := put this_table
                (CTable (with_columns t (Map_set (_columns (columns t)) column))) in
    (* Adds the column to all existing rows *)
    let! _ := forEach (_rows (rows t)) (fun row =>
                modify_row row (fun r =>
                  with_values r (<[columnName column := defaultValue column]> (_values r)))) in
    ret column.

Definition remove (this_table : loc) (columnName : string) : M unit :=
  let! t := get_table this_table in
  if negb (Map_has (_columns (columns t)) columnName) then
    throw (ColumnDoesNotExist columnName)
  else
    let! _ := put this_table
                (CTable (with_columns t (Map_delete (_columns (columns t)) columnName))) in
    (* Removes column values from all rows *)
    let! _ := forEach (_rows (rows t)) (fun row =>
                modify_row row (fun r =>
                  with_values r (delete columnName (_values r)))) in
    (* Update the ordinals *)
    modify_table this_table (fun t' =>
      with_columns t' (renumber 0 (_columns (columns t')))).

Definition contains (h : heap) (this_table : loc) (columnName : string) : outcome bool :=
  let? t := read_table h this_table in
  Ok (Map_has (_columns (columns t)) columnName).

Definition count (h : heap) (this_table : loc) : outcome nat :=
  let? t := read_table h this_table in
  Ok (List.length (_columns (columns t))).

End DataColumnCollection.

(** ** DataRow *)

(** What [get] is given: a number (a position) or a column name. *)
Inductive key :=
| KNumber (n : number)
| KString (s : string).

(** [array[n]] for a number [n]: the element at [n] when [n] is a
    non-negative integer, [undefined] (here [None]) otherwise. *)
Definition array_index (n : number) : option nat :=
  match n with
  | Fin q =>
      if (Z.pos (Qden (Qred q)) =? 1)%Z && (0 <=? Qnum (Qred q))%Z
      then Some (Z.to_nat (Qnum (Qred q))) else None
  | _ => None
  end.

(** ** Plain objects used as maps

    [_values] and [_originalValues] are plain objects, used as maps from
    column names to values.  A [gmap string val] holds the own
    properties of such an object, and the prototype of the object is
    [Object.prototype].  The lookup and the insert of the map are the
    read [o[k]] and the write [o[k] = v] of the program for the names
    below, not for every name: for a name that [Object.prototype] has, the
    read of a key that is not an own property gives the inherited member
    and not [undefined], and the write to [__proto__] runs the setter of
    the prototype and creates no own property.  The statements on the
    code say which names they cover. *)
Definition Object_prototype_names : list string :=
  ["__proto__"; "constructor"; "hasOwnProperty"; "isPrototypeOf";
   "propertyIsEnumerable"; "toLocaleString"; "toString"; "valueOf";
   "__defineGetter__"; "__defineSetter__"; "__lookupGetter__"; "__lookupSetter__"].

(** [o[k]] is the own property [k] of [o], or [undefined] when [o] has
    none: [k] is not a name of [Object.prototype]. *)
Definition own_name (k : string) : Prop := ~ k ∈ Object_prototype_names.

(** [o[k] = v] creates or updates the own property [k] of [o]: every name
    but [__proto__]. *)
Definition assignable (k : string) : Prop := k <> "__proto__".

(** [o.hasOwnProperty(k)].  The method is the one of [Object.prototype]
    unless [o] has an own property named [hasOwnProperty]: the call then
    calls the value of that property, and since no value of the model is
    a function, it throws a TypeError. *)
Definition hasOwnProperty (o : gmap string val) (k : string) : outcome bool :=
  match o !! "hasOwnProperty" with
  | Some _ => Throw TypeError
  | None => Ok (bool_decide (is_Some (o !! k)))
  end.

(** A reference to a plain object.  The only plain objects that the
    program hands out are the [_values] objects of rows. *)
Inductive objref :=
| ValuesOf (row : loc).

Definition read_object (h : heap) (o : objref) : outcome (gmap string val) :=
  match o with
  | ValuesOf row => let? r := read_row h row in Ok (_values r)
  end.

(** [object[k] = v], by whoever holds the reference, for an [assignable]
    name [k] *)
Definition write_property (o : objref) (k : string) (v : val) : M unit :=
  match o with
  | ValuesOf row => modify_row row (fun r => with_values r (<[k := v]> (_values r)))
  end.

Module DataRow.
Import DataColumnCollection.

(** [for (const column of table.columns)
      this._values[column.columnName] = column.defaultValue], for
    [assignable] column names *)
Definition initial_values (cols : list DataColumn) : gmap string val :=
  foldl (fun vals column => <[columnName column := defaultValue column]> vals) ∅ cols.

(** [new DataRow(table)] *)
Definition new (table : loc) : M loc :=
  let! t := get_table table in
  alloc (CRow {| _table := table;
                 _values := initial_values (_columns (columns t));
                 _rowState := DataRowState.ADDED;
                 _originalValues := ∅ |}).

(** [get] on a row with the values [values], in a table whose column
    names are [columnNames] (the keys of [_columns], in order).  The
    read [_values[columnName]] is the lookup for a key that the row has
    and for an [own_name]. *)
Definition get_in (columnNames : list string) (values : gmap string val)
    (index : key) : outcome val :=
  match index with
  | KNumber n =>
      match array_index n ≫= (columnNames !!.) with
      | Some columnName =>
          if negb (has_key columnNames columnName) then
            Throw (ColumnAtIndexDoesNotExist n)
          else Ok (default VUndefined (values !! columnName))
      | None => Throw (ColumnAtIndexDoesNotExist n)
      end
  | KString s =>
      if negb (has_key columnNames s) then Throw (ColumnDoesNotExist s)
      else Ok (default VUndefined (values !! s))
  end.

Definition get (h : heap) (this : loc) (index : key) : outcome val :=
  let? r := read_row h this in
  let? t := read_table h (_table r) in
  get_in (Map_keys (_columns (columns t))) (_values r) index.

(** Alias for get() *)
Definition item (h : heap) (this : loc) (columnName : string) : outcome val :=
  get h this (KString columnName).

(** The last three statements of [set], once the call of
    [hasOwnProperty] has returned: the first write to a column records
    the value it had, then the value is stored and the row is marked as
    modified.  The own-property test is the lookup of the map; the read
    and the two writes are those of the map for an [own_name]. *)
Definition assign (r : DataRow) (columnName : string) (value : val) : DataRow :=
  {| _table := _table r;
     _values := <[columnName := value]> (_values r);
     _rowState := DataRowState.MODIFIED;
     _originalValues :=
       match _originalValues r !! columnName with
       | Some _ => _originalValues r
       | None =>
           <[columnName := default VUndefined (_values r !! columnName)]>
             (_originalValues r)
       end |}.

Section WithEngine.
Context `{Engine}.

(** The type validation of [set]: the value to store, or the error. *)
Definition coerce (column : DataColumn) (columnName : string) (value : val)
  : outcome val :=
  match dataType column with
  | Some dt =>
      if negb (is_null value) && negb (String.eqb dt "") then
        let dt := toLowerCase dt in
        if String.eqb dt "number" then
          if isNaN (ToNumber value) then Throw (CannotBeConvertedToNumber columnName value)
          else Ok (VNum (ToNumber value))
        else if String.eqb dt "date" then
          if negb (instanceof_Date value) && isNaN (Date_parse (ToString value))
          then Throw (CannotBeConvertedToDate columnName value)
          else Ok (VDate (Date_of value))
        else if String.eqb dt "string" then Ok (VStr (ToString value))
        else if String.eqb dt "boolean" then
          if negb (String.eqb (typeof value) "boolean") then Ok (VBool (ToBoolean value))
          else Ok value
        else Ok value
      else Ok value
  | None => Ok value
  end.

Definition set (this : loc) (columnName : string) (value : val) : M unit :=
  let! r := get_row this in
  let! t := get_table (_table r) in
  if negb (Map_has (_columns (columns t)) columnName) then
    throw (ColumnDoesNotExist columnName)
  else
    match Map_get (_columns (columns t)) columnName with
    | None => throw TypeError
    | Some column =>
        (* Null validation *)
        if is_null value && negb (allowNull column) then
          throw (DoesNotAllowNull columnName)
        else
          (* Type validation *)
          match coerce column columnName value with
          | Throw e => throw e
          | Ok value =>
              match hasOwnProperty (_originalValues r) columnName with
              | Throw e => throw e
              | Ok _ => put this (CRow (assign r columnName value))
              end
          end
    end.
End WithEngine.

Definition toJSON (this : loc) : objref := ValuesOf this.

End DataRow.

(** ** DataRowCollection *)

(** What [add] is given: a [DataRow] instance, an array of values, an
    object of column-value pairs, [null], or a value that is none of
    these ([undefined], a number, a string, a boolean). *)
Inductive row_arg :=
| RowInstance (row : loc)
| RowArray (vals : list val)
| RowObject (entries : gmap string val)
| RowNull
| RowOther.

Module DataRowCollection.
Import DataColumnCollection.

(** The writes [newRow._values[name] = value] are the inserts of the
    map, for [assignable] names. *)
Definition add (this_table : loc) (row : row_arg) : M loc :=
  let! row :=
    match row with
    | RowInstance row => ret row
    | RowArray vals =>
        let! newRow := DataRow.new this_table in
        let! t := get_table this_table in
        let! _ := forEach (imap pair (_columns (columns t))) (fun '(index, col) =>
                    modify_row newRow (fun r =>
                      with_values r
                        (<[columnName col := default VUndefined (vals !! index)]>
                           (_values r)))) in
        ret newRow
    | RowObject entries =>
        let! newRow := DataRow.new this_table in
        let! _ := forEach (map_to_list entries) (fun '(key, value) =>
                    let! t := get_table this_table in
                    if Map_has (_columns (columns t)) key then
                      modify_row newRow (fun r =>
                        with_values r (<[key := value]> (_values r)))
                    else ret tt) in
        ret newRow
    | RowNull =>
        (* typeof null is 'object', and Object.entries(null) throws *)
        let! newRow := DataRow.new this_table in
        throw TypeError
    | RowOther => DataRow.new this_table
    end in
  let! _ := modify_table this_table (fun t => with_rows t (_rows (rows t) ++ [row])) in
  ret row.

(** [array.indexOf(row)], [None] for -1 *)
Fixpoint indexOf (l : list loc) (row : loc) : option nat :=
  match l with
  | [] => None
  | x :: l' => if decide (x = row) then Some 0%nat else S <$> indexOf l' row
  end.

(** [array.splice(index, 1)] *)
Definition splice1 {A} (l : list A) (index : nat) : list A :=
  take index l ++ drop (S index) l.

Definition remove (this_table : loc) (row : loc) : M unit :=
  modify_table this_table (fun t =>
    match indexOf (_rows (rows t)) row with
    | Some index => with_rows t (splice1 (_rows (rows t)) index)
    | None => t
    end).

(** [splice] takes the integer part of its start index. *)
Definition ToIntegerOrInfinity_nat (n : number) : nat :=
  match n with
  | Fin q => Z.to_nat (Z.quot (Qnum q) (Z.pos (Qden q)))
  | _ => 0%nat
  end.

Definition removeAt (this_table : loc) (index : number) : M unit :=
  modify_table this_table (fun t =>
    if js_ge (VNum index) (VNum (Fin 0))
       && js_lt (VNum index) (VNum (number_of_Z (Z.of_nat (List.length (_rows (rows t))))))
    then with_rows t (splice1 (_rows (rows t)) (ToIntegerOrInfinity_nat index))
    else t).

Definition clear (this_table : loc) : M unit :=
  modify_table this_table (fun t => with_rows t []).

Definition count (h : heap) (this_table : loc) : outcome nat :=
  let? t := read_table h this_table in
  Ok (List.length (_rows (rows t))).

End DataRowCollection.

(** ** Callbacks and criteria *)

(** What a callback of the caller is handed: a [DataRow] (seen as the
    column names of its table, which is what [get] reads, its values, its
    original values and its state) or a plain object.  A callback
    observes its argument and returns a value or throws; it writes
    nothing. *)
Inductive jsarg :=
| ArgRow (columnNames : list string) (values originalValues : gmap string val)
    (rowState : DataRowState.t)
| ArgObject (props : gmap string val).

Definition callback := jsarg -> outcome val.

Definition arg_of_row (h : heap) (row : loc) : outcome jsarg :=
  let? r := read_row h row in
  let? t := read_table h (_table r) in
  Ok (ArgRow (DataColumnCollection.Map_keys (_columns (columns t)))
             (_values r) (_originalValues r) (_rowState r)).

Definition arg_of_values (h : heap) (row : loc) : outcome jsarg :=
  let? r := read_row h row in
  Ok (ArgObject (_values r)).

(** [arg.get(index)] in a callback: a method of [DataRow]; on a plain
    object [get] is not a function. *)
Definition call_get (arg : jsarg) (index : key) : outcome val :=
  match arg with
  | ArgRow columnNames values _ _ => DataRow.get_in columnNames values index
  | ArgObject _ => Throw TypeError
  end.

(** The operator object of a criterion: each field is [Some] when the
    object has the property; the operand of [$in] is an array (for
    another value the call of [includes] is not the one of arrays). *)
Record operators := {
  op_gt : option val;
  op_gte : option val;
  op_lt : option val;
  op_lte : option val;
  op_ne : option val;
  op_in : option (list val);
  op_contains : option val;
}.

(** The value of a property of a criteria object: a regular expression,
    an operator object, or another value.  The regular expression has
    neither the flag [g] nor the flag [y]: [test] then starts at the
    first character whatever came before, and is a function of the
    string.  (With one of the flags the RegExp object carries
    [lastIndex] from one call of [test] to the next.) *)
Inductive criterion :=
| MatchRegExp (test : string -> bool)
| MatchOperators (ops : operators)
| MatchValue (v : val).

Inductive criteria :=
| CriteriaFunction (f : callback)
| CriteriaObject (entries : list (string * criterion)).

(** [array.filter(f)] *)
Fixpoint Array_filter {A} (f : A -> outcome bool) (l : list A) : outcome (list A) :=
  match l with
  | [] => Ok []
  | x :: l' =>
      let? b := f x in
      let? r := Array_filter f l' in
      Ok (if b then x :: r else r)
  end.

(** [array.sort(comparefn)]: a stable sort, here by insertion; a result
    of the comparator that is [NaN] counts as 0.  If the comparator
    throws, the array is left as it was.  With a comparator that is
    consistent the order is the one of every stable sort; with one
    that is not, or that throws on some pairs only, the order and the
    pairs compared are those of the engine, and the statements on the
    code are on what holds for every order. *)
Definition is_positive (n : number) : bool :=
  match n with
  | PosInf => true
  | Fin q => negb (Qle_bool q 0)
  | _ => false
  end.

Fixpoint insert_sorted {A} (comparefn : A -> A -> outcome val) (x : A) (l : list A)
  : outcome (list A) :=
  match l with
  | [] => Ok [x]
  | y :: l' =>
      let? v := comparefn x y in
      if is_positive (ToNumber v) then
        let? r := insert_sorted comparefn x l' in Ok (y :: r)
      else Ok (x :: l)
  end.

Fixpoint Array_sort {A} (comparefn : A -> A -> outcome val) (l : list A)
  : outcome (list A) :=
  match l with
  | [] => Ok []
  | x :: l' => let? s := Array_sort comparefn l' in insert_sorted comparefn x s
  end.

(** ** DataTable (src/DataTable.js) *)

Inductive sort_arg :=
| SortComparer (comparer : jsarg -> jsarg -> outcome val)
| SortColumnName (columnName : string).

Module DataTable.
Import DataColumnCollection.

(** [new DataTable(tableName)] *)
Definition new (tableName : string) : M loc :=
  alloc (CTable {| tableName := tableName; rows := {| _rows := [] |};
                   columns := {| _columns := [] |}; caseSensitive := false |}).

Definition addColumn (this : loc) (columnName : column_arg) (dataType : option string)
  : M DataColumn :=
  DataColumnCollection.add this columnName dataType.

Definition removeColumn (this : loc) (columnName : string) : M unit :=
  DataColumnCollection.remove this columnName.

Definition columnExists (h : heap) (this : loc) (columnName : string) : outcome bool :=
  DataColumnCollection.contains h this columnName.

Definition newRow (this : loc) : M loc := DataRow.new this.

Definition addRow (this : loc) (values : row_arg) : M loc :=
  DataRowCollection.add this values.

Definition removeRow (this : loc) (index : number) : M unit :=
  DataRowCollection.removeAt this index.

(** [rows.filter(row => filterExpression(row._values)).map(row => row._values)] *)
Definition select (h : heap) (this : loc) (filterExpression : callback)
  : outcome (list objref) :=
  let? t := read_table h this in
  let? matching :=
    Array_filter (fun row =>
                    let? a := arg_of_values h row in
                    let? b := filterExpression a in
                    Ok (ToBoolean b))
                 (_rows (rows t)) in
  Ok (map ValuesOf matching).

Definition clear (this : loc) : M unit := DataRowCollection.clear this.

Section WithEngine.
Context `{Engine}.

(** One entry of a criteria object against the value of the row. *)
Definition match_criterion (rowValue : val) (value : criterion) : bool :=
  match value with
  | MatchRegExp test => test (ToString rowValue)
  | MatchOperators ops =>
      match op_gt ops, op_gte ops, op_lt ops, op_lte ops,
            op_ne ops, op_in ops, op_contains ops with
      | Some x, _, _, _, _, _, _ => js_gt rowValue x
      | None, Some x, _, _, _, _, _ => js_ge rowValue x
      | None, None, Some x, _, _, _, _ => js_lt rowValue x
      | None, None, None, Some x, _, _, _ => js_le rowValue x
      | None, None, None, None, Some x, _, _ => negb (strict_equal rowValue x)
      | None, None, None, None, None, Some l, _ => existsb (same_value_zero rowValue) l
      | None, None, None, None, None, None, Some x =>
          string_includes (ToString rowValue) (ToString x)
      | None, None, None, None, None, None, None =>
          (* rowValue === value, for an object that no cell holds *)
          false
      end
  | MatchValue v => strict_equal rowValue v
  end.

Definition matches (entries : list (string * criterion)) (r : DataRow) : bool :=
  forallb (fun '(key, value) =>
             match_criterion (default VUndefined (_values r !! key)) value)
          entries.

(** [findRows]: a function is called with [row._values]. *)
Definition findRows (h : heap) (this : loc) (criteria : criteria)
  : outcome (list loc) :=
  let? t := read_table h this in
  match criteria with
  | CriteriaFunction f =>
      Array_filter (fun row =>
                      let? a := arg_of_values h row in
                      let? b := f a in
                      Ok (ToBoolean b))
                   (_rows (rows t))
  | CriteriaObject entries =>
      Array_filter (fun row => let? r := read_row h row in Ok (matches entries r))
                   (_rows (rows t))
  end.

(** The first match, or [null] (here [None]). *)
Definition findOne (h : heap) (this : loc) (criteria : criteria)
  : outcome (option loc) :=
  let? results := findRows h this criteria in
  Ok (head results).

(** The comparator of [sort] by column name. *)
Definition compare_column (h : heap) (this : loc) (columnName order : string)
    (a b : loc) : outcome val :=
  let? valueA := DataRow.item h a columnName in
  let? valueB := DataRow.item h b columnName in
  if strict_equal valueA valueB then Ok (VNum (Fin 0))
  else if is_nullish valueA then Ok (VNum (Fin 1))
  else if is_nullish valueB then Ok (VNum (Fin (-1)))
  else
    let? t := read_table h this in
    match Map_get (_columns (columns t)) columnName with
    | None => Throw TypeError
    | Some column =>
        let comparison :=
          match toLowerCase <$> dataType column with
          | Some dt =>
              if String.eqb dt "number" then
                number_subtract (ToNumber valueA) (ToNumber valueB)
              else if String.eqb dt "date" then
                number_subtract (Date_of valueA) (Date_of valueB)
              else localeCompare (ToString valueA) (ToString valueB)
          | None => localeCompare (ToString valueA) (ToString valueB)
          end in
        Ok (VNum (if String.eqb order "asc" then comparison
                  else number_negate comparison))
    end.

Definition sort (this : loc) (columnNameOrComparer : sort_arg) (order : string)
  : M unit :=
  fun h =>
    match read_table h this with
    | Throw e => (h, Throw e)
    | Ok t =>
        let comparefn :=
          match columnNameOrComparer with
          | SortComparer comparer => fun a b =>
              let? x := arg_of_row h a in
              let? y := arg_of_row h b in
              comparer x y
          | SortColumnName columnName => compare_column h this columnName order
          end in
        match Array_sort comparefn (_rows (rows t)) with
        | Ok sorted => (<[this := CTable (with_rows t sorted)]> h, Ok tt)
        | Throw e => (h, Throw e)
        end
    end.

(** The comparator of [sortBy]. *)
Definition compare_expression (h : heap) (expression : callback) (a b : loc)
  : outcome val :=
  let? x := arg_of_row h a in
  let? valueA := expression x in
  let? y := arg_of_row h b in
  let? valueB := expression y in
  if strict_equal valueA valueB then Ok (VNum (Fin 0))
  else if is_null valueA then Ok (VNum (Fin 1))
  else if is_null valueB then Ok (VNum (Fin (-1)))
  else Ok (VNum (if js_lt valueA valueB then Fin (-1) else Fin 1)).

Definition sortBy (this : loc) (expression : callback) : M unit :=
  fun h =>
    match read_table h this with
    | Throw e => (h, Throw e)
    | Ok t =>
        match Array_sort (compare_expression h expression) (_rows (rows t)) with
        | Ok sorted => (<[this := CTable (with_rows t sorted)]> h, Ok tt)
        | Throw e => (h, Throw e)
        end
    end.
End WithEngine.

(** The copy of a column that [clone] adds to the new table. *)
Definition clone_column (col : DataColumn) : DataColumn :=
  let newColumn :=
    DataColumn.new (columnName col) (dataType col) (allowNull col) (defaultValue col) in
  {| columnName := columnName newColumn; dataType := dataType newColumn;
     ordinal := ordinal newColumn; allowNull := allowNull newColumn;
     defaultValue := defaultValue newColumn;
     caption := caption col; expression := expression col;
     readOnly := readOnly col; unique := unique col;
     table := table newColumn |}.

Definition clone (this : loc) : M loc :=
  let! t := get_table this in
  let! newTable := new (tableName t) in
  (* Clone columns *)
  let! _ := forEach (_columns (columns t)) (fun col =>
              let! _ := DataColumnCollection.add newTable
                          (ColumnInstance (clone_column col)) None in
              ret tt) in
  (* Clone rows state *)
  let! _ := forEach (_rows (rows t)) (fun row =>
              let! newRow := newRow newTable in
              let! r := get_row row in
              let! _ := modify_row newRow (fun n =>
                          {| _table := _table n;
                             _values := _values r ∪ _values n;
                             _rowState := _rowState r;
                             _originalValues := _originalValues r ∪ _originalValues n |}) in
              let! _ := DataRowCollection.add newTable (RowInstance newRow) in
              ret tt) in
  (* Clone other properties *)
  let! _ := modify_table newTable (fun n =>
              {| tableName := tableName n; rows := rows n; columns := columns n;
                 caseSensitive := caseSensitive t |}) in
  ret newTable.

(** The comparator of [sortMultiple]: the criteria in turn, until one
    tells the two rows apart.  A criterion is [{column, order}]; [order]
    is [None] when the object has no such property, which stands for
    ['asc']. *)
Fixpoint compare_multiple (h : heap) (sortCriteria : list (key * option string))
    (a b : loc) : outcome val :=
  match sortCriteria with
  | [] => Ok (VNum (Fin 0))
  | (column, order) :: sortCriteria' =>
      let? valueA := DataRow.get h a column in
      let? valueB := DataRow.get h b column in
      if strict_equal valueA valueB then compare_multiple h sortCriteria' a b
      else if is_null valueA then Ok (VNum (Fin 1))
      else if is_null valueB then Ok (VNum (Fin (-1)))
      else
        let comparison := if js_lt valueA valueB then Fin (-1) else Fin 1 in
        Ok (VNum (if String.eqb (default "asc" order) "asc" then comparison
                  else number_negate comparison))
  end.

Definition sortMultiple (this : loc) (sortCriteria : list (key * option string))
  : M unit :=
  fun h =>
    match read_table h this with
    | Throw e => (h, Throw e)
    | Ok t =>
        match Array_sort (compare_multiple h sortCriteria) (_rows (rows t)) with
        | Ok sorted => (<[this := CTable (with_rows t sorted)]> h, Ok tt)
        | Throw e => (h, Throw e)
        end
    end.

(** The type that [loadFromQuery] gives the column of a value of the
    first row: [typeof value], ['date'] for a [Date] and ['string'] for
    [null]. *)
Definition query_type (value : val) : string :=
  let dataType := typeof value in
  let dataType := if instanceof_Date value then "date" else dataType in
  if is_null value then "string" else dataType.

(** [loadFromQuery] for an array of plain objects; an object is the list
    of its properties in the order of [for ... in], with distinct
    keys. *)
Definition loadFromQuery (this : loc) (queryResults : list (list (string * val)))
  : M unit :=
  match queryResults with
  | [] => ret tt
  | firstRow :: _ =>
      (* Clear existing data *)
      let! _ := clear this in
      (* Create columns from the first row *)
      let! _ := forEach firstRow (fun '(columnName, value) =>
                  let! _ := addColumn this (ColumnName columnName)
                              (Some (query_type value)) in
                  ret tt) in
      (* Add all rows *)
      forEach queryResults (fun row =>
        let! _ := addRow this (RowObject (list_to_map row)) in ret tt)
  end.

End DataTable.

(** ** DataTable, the version with the schema operations
    (src/unnamed/part_002)

    It differs from src/DataTable.js in [findRows], which calls a
    function with the row itself, and in the schema operations that it
    adds. *)
(** One entry of [schema.columns]. *)
Module ColumnDef.
Record t := {
  name : string;
  dataType : option string;
  allowNull : bool;
  defaultValue : val;
  expression : option string;
  readOnly : bool;
  unique : bool;
  ordinal : Z;
  caption : string;
}.
End ColumnDef.

(** The schema object of [exportSchema].  No column of this model has
    the property [isPrimaryKey] (only [importSchema] with a primary key
    sets it), so [primaryKey] is [null] and is left out; a unique
    constraint is its column names and its name. *)
Module Schema.
Record t := {
  tableName : string;
  caseSensitive : bool;
  columns : list ColumnDef.t;
  uniqueConstraints : list (list string * string);
}.
End Schema.

(** The result of [compareSchema]. *)
Record differences := {
  missingColumns : list string;
  extraColumns : list string;
  typeMismatches : list (string * option string * option string);
  nullabilityDifferences : list (string * bool * bool);
}.

(** An entry of [modifiedColumns] in the result of [updateSchema]:
    [{column, change: 'dataType', from, to}] or
    [{column, change: 'allowNull', from, to}]. *)
Inductive modification :=
| ChangeDataType (column : string) (from to : option string)
| ChangeAllowNull (column : string) (from to : bool).

Record update_result := {
  addedColumns : list string;
  removedColumns : list string;
  modifiedColumns : list modification;
}.

Module DataTable2.
Import DataColumnCollection.

Definition column_def (column : DataColumn) : ColumnDef.t :=
  {| ColumnDef.name := columnName column;
     ColumnDef.dataType := dataType column;
     ColumnDef.allowNull := allowNull column;
     ColumnDef.defaultValue := defaultValue column;
     ColumnDef.expression := expression column;
     ColumnDef.readOnly := readOnly column;
     ColumnDef.unique := unique column;
     ColumnDef.ordinal := ordinal column;
     ColumnDef.caption := caption column |}.

(** One turn of the loop of [exportSchema]. *)
Definition export_column (tableName : string) (schema : Schema.t) (column : DataColumn)
  : Schema.t :=
  {| Schema.tableName := Schema.tableName schema;
     Schema.caseSensitive := Schema.caseSensitive schema;
     Schema.columns := Schema.columns schema ++ [column_def column];
     Schema.uniqueConstraints :=
       if unique column then
         Schema.uniqueConstraints schema
         ++ [([columnName column],
              String.append "UQ_"
                (String.append tableName (String.append "_" (columnName column))))]
       else Schema.uniqueConstraints schema |}.

Definition exportSchema (h : heap) (this : loc) : outcome Schema.t :=
  let? t := read_table h this in
  Ok (foldl (export_column (tableName t))
            {| Schema.tableName := tableName t;
               Schema.caseSensitive := caseSensitive t;
               Schema.columns := [];
               Schema.uniqueConstraints := [] |}
            (_columns (columns t))).

(** A write to the properties of the column [name] of the table:
    [_columns.get(name)] is the column object, and a property write on
    [undefined] is a TypeError.  [f] keeps the name of the column.  The
    column is held by value, as everywhere here: the write is to the
    column of this table, which is the code when no other table holds
    the column object. *)
Definition update_column (this : loc) (name : string) (f : DataColumn -> DataColumn)
  : M unit :=
  let! t := get_table this in
  match Map_get (_columns (columns t)) name with
  | None => throw TypeError
  | Some column =>
      put this (CTable (with_columns t (Map_set (_columns (columns t)) (f column))))
  end.

(** The six property writes of [importSchema] on a column. *)
Definition import_column (columnDef : ColumnDef.t) (column : DataColumn) : DataColumn :=
  {| columnName := columnName column; dataType := dataType column;
     ordinal := ordinal column;
     allowNull := ColumnDef.allowNull columnDef;
     defaultValue := ColumnDef.defaultValue columnDef;
     caption := if String.eqb (ColumnDef.caption columnDef) ""
                then ColumnDef.name columnDef else ColumnDef.caption columnDef;
     expression := ColumnDef.expression columnDef;
     readOnly := ColumnDef.readOnly columnDef;
     unique := ColumnDef.unique columnDef;
     table := table column |}.

(** [importSchema] of a schema without a primary key. *)
Definition importSchema (schema : Schema.t) : M loc :=
  let! table := DataTable.new (Schema.tableName schema) in
  let! _ := modify_table table (fun t =>
              {| tableName := tableName t; rows := rows t; columns := columns t;
                 caseSensitive := Schema.caseSensitive schema |}) in
  (* Import columns *)
  let! _ := forEach (Schema.columns schema) (fun columnDef =>
              let! column := DataTable.addColumn table
                               (ColumnName (ColumnDef.name columnDef))
                               (ColumnDef.dataType columnDef) in
              update_column table (columnName column) (import_column columnDef)) in
  ret table.

(** One turn of the first loop of [compareSchema], for a column of this
    table: [columnExists] is [_columns.has], and [_columns.get] finds a
    column exactly when [has] holds. *)
Definition compare_column_with (other : list DataColumn) (d : differences)
    (column : DataColumn) : differences :=
  match Map_get other (columnName column) with
  | None =>
      {| missingColumns := missingColumns d ++ [columnName column];
         extraColumns := extraColumns d;
         typeMismatches := typeMismatches d;
         nullabilityDifferences := nullabilityDifferences d |}
  | Some otherColumn =>
      {| missingColumns := missingColumns d;
         extraColumns := extraColumns d;
         typeMismatches :=
           if bool_decide (dataType column = dataType otherColumn)
           then typeMismatches d
           else typeMismatches d
                ++ [(columnName column, dataType column, dataType otherColumn)];
         nullabilityDifferences :=
           if Bool.eqb (allowNull column) (allowNull otherColumn)
           then nullabilityDifferences d
           else nullabilityDifferences d
                ++ [(columnName column, allowNull column, allowNull otherColumn)] |}
  end.

(** One turn of the second loop, for a column of the other table. *)
Definition extra_column (cols : list DataColumn) (d : differences) (column : DataColumn)
  : differences :=
  if Map_has cols (columnName column) then d
  else {| missingColumns := missingColumns d;
          extraColumns := extraColumns d ++ [columnName column];
          typeMismatches := typeMismatches d;
          nullabilityDifferences := nullabilityDifferences d |}.

Definition compare_columns (cols other : list DataColumn) : differences :=
  foldl (extra_column cols)
        (foldl (compare_column_with other)
               {| missingColumns := []; extraColumns := [];
                  typeMismatches := []; nullabilityDifferences := [] |}
               cols)
        other.

Definition compareSchema (h : heap) (this otherTable : loc) : outcome differences :=
  let? t := read_table h this in
  let? o := read_table h otherTable in
  Ok (compare_columns (_columns (columns t)) (_columns (columns o))).

(** The property writes of [updateSchema] on a column that it added. *)
Definition copy_definition (sourceColumn column : DataColumn) : DataColumn :=
  {| columnName := columnName column; dataType := dataType column;
     ordinal := ordinal column;
     allowNull := allowNull sourceColumn;
     defaultValue := defaultValue sourceColumn;
     caption := caption sourceColumn;
     expression := expression sourceColumn;
     readOnly := readOnly sourceColumn;
     unique := unique sourceColumn;
     table := table column |}.

Definition with_dataType (c : DataColumn) (dt : option string) : DataColumn :=
  {| columnName := columnName c; dataType := dt; ordinal := ordinal c;
     allowNull := allowNull c; defaultValue := defaultValue c;
     caption := caption c; expression := expression c;
     readOnly := readOnly c; unique := unique c; table := table c |}.

Definition set_allowNull (c : DataColumn) (b : bool) : DataColumn :=
  {| columnName := columnName c; dataType := dataType c; ordinal := ordinal c;
     allowNull := b; defaultValue := defaultValue c;
     caption := caption c; expression := expression c;
     readOnly := readOnly c; unique := unique c; table := table c |}.

(** [sourceTable.columns._columns.get(name)], for a property read on the
    result: a TypeError when there is no such column. *)
Definition source_column (sourceTable : loc) (name : string) : M DataColumn :=
  let! s := get_table sourceTable in
  match Map_get (_columns (columns s)) name with
  | None => throw TypeError
  | Some sourceColumn => ret sourceColumn
  end.

Definition updateSchema (this sourceTable : loc)
    (addMissingColumns removeExtraColumns : bool) : M update_result :=
  let! differences := read (fun h => compareSchema h this sourceTable) in
  (* Add missing columns *)
  let! added :=
    if addMissingColumns then
      mapM (fun columnName =>
              let! sourceColumn := source_column sourceTable columnName in
              let! newColumn := DataTable.addColumn this (ColumnName columnName)
                                  (dataType sourceColumn) in
              let! _ := update_column this columnName (copy_definition sourceColumn) in
              ret columnName)
           (missingColumns differences)
    else ret [] in
  (* Remove extra columns *)
  let! removed :=
    if removeExtraColumns then
      mapM (fun columnName =>
              let! _ := DataTable.removeColumn this columnName in
              ret columnName)
           (extraColumns differences)
    else ret [] in
  (* Update column definitions *)
  let! types :=
    mapM (fun '(column, thisType, otherType) =>
            let! sourceColumn := source_column sourceTable column in
            let! _ := update_column this column
                        (fun c => with_dataType c (dataType sourceColumn)) in
            ret (ChangeDataType column thisType otherType))
         (typeMismatches differences) in
  let! nulls :=
    mapM (fun '(column, thisAllowNull, otherAllowNull) =>
            let! sourceColumn := source_column sourceTable column in
            let! _ := update_column this column
                        (fun c => set_allowNull c (allowNull sourceColumn)) in
            ret (ChangeAllowNull column thisAllowNull otherAllowNull))
         (nullabilityDifferences differences) in
  ret {| addedColumns := added; removedColumns := removed;
         modifiedColumns := types ++ nulls |}.

Section WithEngine.
Context `{Engine}.

Definition findRows (h : heap) (this : loc) (criteria : criteria)
  : outcome (list loc) :=
  let? t := read_table h this in
  match criteria with
  | CriteriaFunction f =>
      Array_filter (fun row =>
                      let? a := arg_of_row h row in
                      let? b := f a in
                      Ok (ToBoolean b))
                   (_rows (rows t))
  | CriteriaObject entries =>
      Array_filter (fun row =>
                      let? r := read_row h row in Ok (DataTable.matches entries r))
                   (_rows (rows t))
  end.

Definition findOne (h : heap) (this : loc) (criteria : criteria)
  : outcome (option loc) :=
  let? results := findRows h this criteria in
  Ok (head results).
End WithEngine.
End DataTable2.

(** ** DataRelation *)

Record DataRelation := {
  relationName : string;
  parentColumn : DataColumn;
  childColumn : DataColumn;
  parentTable : option loc;
  childTable : option loc;
}.

Module DataRelation.
(** [new DataRelation(relationName, parentColumn, childColumn)] *)
Definition new (relationName : string) (parentColumn childColumn : DataColumn)
  : DataRelation :=
  {| relationName := relationName;
     parentColumn := parentColumn;
     childColumn := childColumn;
     parentTable := table parentColumn;
     childTable := table childColumn |}.

Definition isValid (h : heap) (this : DataRelation) (parentRow childRow : loc)
  : outcome bool :=
  let? parentValue := DataRow.get h parentRow (KString (columnName (parentColumn this))) in
  let? childValue := DataRow.get h childRow (KString (columnName (childColumn this))) in
  Ok (strict_equal parentValue childValue).
End DataRelation.

(** ** DataSet *)

(** [tables] is the [Map] from table name to table, [relations] the
    array of relations. *)
Record DataSet := {
  dataSetName : string;
  tables : list (string * loc);
  relations : list DataRelation;
}.

Module DataSet.

(** [relations.findIndex(rel => rel.relationName === relationName)],
    [None] for -1 *)
Fixpoint findIndex (rels : list DataRelation) (name : string) : option nat :=
  match rels with
  | [] => None
  | rel :: rels' =>
      if String.eqb (relationName rel) name then Some 0%nat
      else S <$> findIndex rels' name
  end.

Definition removeRelation (this : DataSet) (relationName : string) : DataSet :=
  match findIndex (relations this) relationName with
  | Some index =>
      {| dataSetName := dataSetName this; tables := tables this;
         relations := DataRowCollection.splice1 (relations this) index |}
  | None => this
  end.

(** [relations.find(rel => rel.relationName === relationName)] *)
Definition find_relation (this : DataSet) (name : string) : option DataRelation :=
  List.find (fun rel => String.eqb (relationName rel) name) (relations this).

Section Lookups.
(** The [findRows] and [findOne] of the [DataTable] that is loaded. *)
Variable findRows : heap -> loc -> criteria -> outcome (list loc).
Variable findOne : heap -> loc -> criteria -> outcome (option loc).

Definition getChildRows_with (h : heap) (this : DataSet) (parentRow : loc)
    (relationName : string) : outcome (list loc) :=
  match find_relation this relationName with
  | None => Throw (RelationDoesNotExist relationName)
  | Some relation =>
      let? parentValue :=
        DataRow.get h parentRow (KString (columnName (parentColumn relation))) in
      match childTable relation with
      | None => Throw TypeError
      | Some childTable =>
          findRows h childTable (CriteriaFunction (fun row =>
            let? v := call_get row (KString (columnName (childColumn relation))) in
            Ok (VBool (strict_equal v parentValue))))
      end
  end.

Definition getParentRow_with (h : heap) (this : DataSet) (childRow : loc)
    (relationName : string) : outcome (option loc) :=
  match find_relation this relationName with
  | None => Throw (RelationDoesNotExist relationName)
  | Some relation =>
      let? childValue :=
        DataRow.get h childRow (KString (columnName (childColumn relation))) in
      match parentTable relation with
      | None => Throw TypeError
      | Some parentTable =>
          findOne h parentTable (CriteriaFunction (fun row =>
            let? v := call_get row (KString (columnName (parentColumn relation))) in
            Ok (VBool (strict_equal v childValue))))
      end
  end.
End Lookups.

(** With the [DataTable] of src/DataTable.js. *)
Definition getChildRows `{Engine} := getChildRows_with DataTable.findRows.
Definition getParentRow `{Engine} := getParentRow_with DataTable.findOne.

(** With the [DataTable] of src/unnamed/part_002. *)
Definition getChildRows2 `{Engine} := getChildRows_with DataTable2.findRows.
Definition getParentRow2 `{Engine} := getParentRow_with DataTable2.findOne.

(** The [Map] of the tables: [has], [get], [set] and [delete]. *)
Definition tables_has (tables : list (string * loc)) (name : string) : bool :=
  existsb (fun entry => String.eqb entry.1 name) tables.

Definition tables_get (tables : list (string * loc)) (name : string) : option loc :=
  snd <$> List.find (fun entry => String.eqb entry.1 name) tables.

Fixpoint tables_set (tables : list (string * loc)) (name : string) (table : loc)
  : list (string * loc) :=
  match tables with
  | [] => [(name, table)]
  | entry :: tables' =>
      if String.eqb entry.1 name then (name, table) :: tables'
      else entry :: tables_set tables' name table
  end.

Definition tables_delete (tables : list (string * loc)) (name : string)
  : list (string * loc) :=
  List.filter (fun entry => negb (String.eqb entry.1 name)) tables.

(** What [addTable] is given: a [DataTable] instance or the name of the
    table to create. *)
Inductive table_arg :=
| TableInstance (table : loc)
| TableName (tableName : string).

Definition addTable (this : DataSet) (tableNameOrTable : table_arg)
  : M (DataSet * loc) :=
  let! table :=
    match tableNameOrTable with
    | TableInstance table => ret table
    | TableName tableName => DataTable.new tableName
    end in
  let! t := get_table table in
  if tables_has (tables this) (tableName t) then
    throw (TableAlreadyExists (tableName t))
  else
    ret ({| dataSetName := dataSetName this;
            tables := tables_set (tables this) (tableName t) table;
            relations := relations this |},
         table).

(** [rel.parentTable.tableName]: a TypeError on [null]. *)
Definition table_name_of (h : heap) (table : option loc) : outcome string :=
  match table with
  | Some table => let? t := read_table h table in Ok (tableName t)
  | None => Throw TypeError
  end.

Definition removeTable (h : heap) (this : DataSet) (tableName : string)
  : outcome DataSet :=
  if negb (tables_has (tables this) tableName) then
    Throw (TableDoesNotExist tableName)
  else
    (* Remove any relations involving this table *)
    let? relations :=
      Array_filter (fun rel =>
                      let? parent := table_name_of h (parentTable rel) in
                      if negb (String.eqb parent tableName) then
                        let? child := table_name_of h (childTable rel) in
                        Ok (negb (String.eqb child tableName))
                      else Ok false)
                   (relations this) in
    Ok {| dataSetName := dataSetName this;
          tables := tables_delete (tables this) tableName;
          relations := relations |}.

Definition table (this : DataSet) (tableName : string) : outcome loc :=
  if negb (tables_has (tables this) tableName) then
    Throw (TableDoesNotExist tableName)
  else
    match tables_get (tables this) tableName with
    | Some table => Ok table
    | None => Throw TypeError
    end.

Definition hasTable (this : DataSet) (tableName : string) : bool :=
  tables_has (tables this) tableName.

Definition getRelations (h : heap) (this : DataSet) (tableName : string)
  : outcome (list DataRelation) :=
  Array_filter (fun rel =>
                  let? parent := table_name_of h (parentTable rel) in
                  if String.eqb parent tableName then Ok true
                  else
                    let? child := table_name_of h (childTable rel) in
                    Ok (String.eqb child tableName))
               (relations this).

(** Clears all data from all tables while maintaining structure *)
Definition clear (this : DataSet) : M unit :=
  forEach (tables this) (fun entry => DataTable.clear entry.2).

End DataSet.

(** ** DataView *)

(** [table.rows._rows] *)
Definition rows_of (t : DataTable) : list loc := _rows (rows t).

(** The sort of a view: a function of a row, or a column name. *)
Inductive view_sort :=
| SortExpression (expression : callback)
| SortColumn (columnName : string).

Module DataView.

(** [null] is [None]. *)
Record t := {
  _table : loc;
  _rowFilter : option criteria;
  _sort : option view_sort;
  _sortOrder : string;
}.

(** [new DataView(table, rowFilter, sort, sortOrder)] *)
Definition new (table : loc) (rowFilter : option criteria)
    (sort : option view_sort) (sortOrder : string) : t :=
  {| _table := table; _rowFilter := rowFilter; _sort := sort;
     _sortOrder := sortOrder |}.

Definition setFilter (this : t) (filter : option criteria) : t :=
  {| _table := _table this; _rowFilter := filter; _sort := _sort this;
     _sortOrder := _sortOrder this |}.

Definition setSort (this : t) (sort : option view_sort) (order : string) : t :=
  {| _table := _table this; _rowFilter := _rowFilter this; _sort := sort;
     _sortOrder := order |}.

(** [if (this._sort)]: a function, or a string that is not empty. *)
Definition sort_is_set (s : option view_sort) : option view_sort :=
  match s with
  | Some (SortColumn "") => None
  | s => s
  end.

Section WithEngine.
Context `{Engine}.

(** Creates a temporary table for sorting operations *)
Definition _cloneTableWithRows (this : t) (rows : list loc) : M loc :=
  let! tempTable := DataTable.clone (_table this) in
  let! _ := DataTable.clear tempTable in
  let! _ := forEach rows (fun row =>
              let! newRow := DataTable.newRow tempTable in
              let! t := get_table (_table this) in
              let! _ := forEach (_columns (columns t)) (fun column =>
                          let! v := read (fun h =>
                                      DataRow.get h row (KString (columnName column))) in
                          DataRow.set newRow (columnName column) v) in
              let! _ := DataRowCollection.add tempTable (RowInstance newRow) in
              ret tt) in
  ret tempTable.

(** The filter of [getRows], on the rows [rows] of the table: a
    function is called with each row, a criteria object goes to
    [findRows]. *)
Definition apply_filter (this : t) (h : heap) (rows : list loc)
  : outcome (list loc) :=
  match _rowFilter this with
  | Some (CriteriaFunction f) =>
      Array_filter (fun row =>
                      let? a := arg_of_row h row in
                      let? b := f a in
                      Ok (ToBoolean b))
                   rows
  | Some (CriteriaObject entries) =>
      DataTable.findRows h (_table this) (CriteriaObject entries)
  | None => Ok rows
  end.

Definition getRows (this : t) : M (list loc) :=
  let! t := get_table (_table this) in
  let rows := rows_of t in
  (* Apply filter if exists *)
  let! rows := read (fun h => apply_filter this h rows) in
  (* Apply sort if exists *)
  match sort_is_set (_sort this) with
  | Some sort =>
      let! sortedTable := _cloneTableWithRows this rows in
      let! _ :=
        match sort with
        | SortExpression expression => DataTable.sortBy sortedTable expression
        | SortColumn columnName =>
            DataTable.sort sortedTable (SortColumnName columnName) (_sortOrder this)
        end in
      let! sortedTable := get_table sortedTable in
      ret (rows_of sortedTable)
  | None => ret rows
  end.



(** Returns the number of rows in the view *)
Definition count (this : t) : M nat :=
  let! rows := getRows this in
  ret (List.length rows).

(** Gets the first row in the view, or [null] (here [None]) *)
Definition firstRow (this : t) : M (option loc) :=
  let! rows := getRows this in
  ret (head rows).

(** Returns the ith row in the view; [rows[index]] is [undefined] (here
    [None]) for an index that passes the test and is not a position. *)
Definition row (this : t) (index : number) : M (option loc) :=
  let! rows := getRows this in
  if js_lt (VNum index) (VNum (Fin 0))
     || js_ge (VNum index) (VNum (number_of_Z (Z.of_nat (List.length rows))))
  then throw (IndexOutOfRange index)
  else ret (array_index index ≫= (rows !!.)).
End WithEngine.

End DataView.

(** ** Definitions for the statements *)


(** A column with its [allowNull] replaced. *)
Definition with_allowNull (c : DataColumn) (b : bool) : DataColumn :=
  {| columnName := columnName c; dataType := dataType c; ordinal := ordinal c;
     allowNull := b; defaultValue := defaultValue c;
     caption := caption c; expression := expression c;
     readOnly := readOnly c; unique := unique c; table := table c |}.

(** A table built through the interface: [new DataTable("T")], the
    columns added in order, then the rows; the result is the table and
    the rows. *)
Definition build_table (cols : list DataColumn) (rows : list row_arg)
  : M (loc * list loc) :=
  let! t := DataTable.new "T" in
  let! _ := forEach cols (fun c =>
              let! _ := DataTable.addColumn t (ColumnInstance c) None in ret tt) in
  let! rs := mapM (DataTable.addRow t) rows in
  ret (t, rs).

(** *** A table with one row

    [new DataTable("T")] with a column [n] typed number that does not
    allow null, and one row added with no values. *)
Definition number_column : DataColumn :=
  DataColumn.new "n" (Some "number") false VNull.

Definition ex1_column : DataColumn :=
  with_ordinal (with_table number_column (Some 1%positive)) 0.

Definition ex1_table : DataTable :=
  {| tableName := "T"; rows := {| _rows := [2%positive] |};
     columns := {| _columns := [ex1_column] |}; caseSensitive := false |}.

Definition ex1_row : DataRow :=
  {| _table := 1%positive; _values := {["n" := VNull]};
     _rowState := DataRowState.ADDED; _originalValues := ∅ |}.

Definition ex1_heap : heap :=
  <[2%positive := CRow ex1_row]> (<[1%positive := CTable ex1_table]> ∅).

(** *** A table with a column named hasOwnProperty

    [new DataTable("T")] with a column [hasOwnProperty] typed number
    that does not allow null, one row added with no values, and the
    column of the row set to "42": the row has recorded the value that
    the column had, null, under the name [hasOwnProperty]. *)
Definition shadow_column_new : DataColumn :=
  DataColumn.new "hasOwnProperty" (Some "number") false VNull.

Definition shadow_column : DataColumn :=
  with_ordinal (with_table shadow_column_new (Some 1%positive)) 0.

Definition shadow_table : DataTable :=
  {| tableName := "T"; rows := {| _rows := [2%positive] |};
     columns := {| _columns := [shadow_column] |}; caseSensitive := false |}.

Definition shadow_row : DataRow :=
  {| _table := 1%positive; _values := {["hasOwnProperty" := VNum (Fin 42)]};
     _rowState := DataRowState.MODIFIED;
     _originalValues := {["hasOwnProperty" := VNull]} |}.

Definition shadow_heap : heap :=
  <[2%positive := CRow shadow_row]> (<[1%positive := CTable shadow_table]> ∅).

Definition shadow_program `{Engine} : M (loc * list loc) :=
  let! built := build_table [shadow_column_new] [RowOther] in
  let! _ := DataRow.set 2%positive "hasOwnProperty" (VStr "42") in
  ret built.

(** An index that is not a position of an array of [n] elements: not a
    number, infinite, negative, or [n] or more. *)
Definition out_of_range (index : number) (n : nat) : Prop :=
  match index with
  | Fin q => Qlt q 0 \/ Qle (inject_Z (Z.of_nat n)) q
  | _ => True
  end.

(** The value of the column [name] in the row at [row]: what
    [row._values[name]] reads. *)
Definition value_of (h : heap) (row : loc) (name : string) : val :=
  match h !! row with
  | Some (CRow r) => default VUndefined (_values r !! name)
  | _ => VUndefined
  end.

(** *** A parent table and a child table

    Table [P] with the column [id] and the rows [id = 7], [id = 8]; table
    [C] with the column [pid] and the rows [pid = 7], [pid = 8],
    [pid = 7]; the relation [P_C] from [P.id] to [C.pid]. *)
Definition build_family : M (DataSet * list loc * list loc) :=
  let! p := DataTable.new "P" in
  let! id := DataTable.addColumn p (ColumnName "id") (Some "number") in
  let! c := DataTable.new "C" in
  let! pid := DataTable.addColumn c (ColumnName "pid") (Some "number") in
  let! p1 := DataTable.addRow p (RowObject {["id" := VNum (Fin 7)]}) in
  let! p2 := DataTable.addRow p (RowObject {["id" := VNum (Fin 8)]}) in
  let! c1 := DataTable.addRow c (RowObject {["pid" := VNum (Fin 7)]}) in
  let! c2 := DataTable.addRow c (RowObject {["pid" := VNum (Fin 8)]}) in
  let! c3 := DataTable.addRow c (RowObject {["pid" := VNum (Fin 7)]}) in
  ret ({| dataSetName := "family"; tables := [("P", p); ("C", c)];
          relations := [DataRelation.new "P_C" id pid] |},
       [p1; p2], [c1; c2; c3]).

(** The rows of the table at [table] are rows constructed against it,
    and [name] is one of its columns: what [row.get(name)] needs to
    succeed on each of them. *)
Definition rows_have_column (h : heap) (table : loc) (t : DataTable) (name : string)
  : Prop :=
  h !! table = Some (CTable t)
  /\ DataColumnCollection.Map_has (_columns (columns t)) name = true
  /\ forall row, row ∈ _rows (rows t) ->
       exists r, h !! row = Some (CRow r) /\ _table r = table.

(** One step of the loop of [add] over the entries of an object. *)
Definition add_entry (cols : list DataColumn) (vals : gmap string val)
    (entry : string * val) : gmap string val :=
  if DataColumnCollection.Map_has cols entry.1 then <[entry.1 := entry.2]> vals
  else vals.

(** Whether [select] keeps the row: the filter on its values is truthy. *)
Definition select_keeps (h : heap) (filterExpression : callback) (row : loc) : bool :=
  match h !! row with
  | Some (CRow r) =>
      match filterExpression (ArgObject (_values r)) with
      | Ok b => ToBoolean b
      | Throw _ => false
      end
  | _ => false
  end.

(** A filter that keeps every row. *)
Definition keep_all : callback := fun _ => Ok (VBool true).

(** An untyped column [a]. *)
Definition untyped_column : DataColumn := DataColumn.new "a" None true VNull.

(** A dataset with one relation, named [P_C]. *)
Definition ex_dataset : DataSet :=
  {| dataSetName := "family"; tables := [("P", 1%positive); ("C", 2%positive)];
     relations := [DataRelation.new "P_C"
                     (with_table (DataColumn.new "id" (Some "number") true VNull)
                                 (Some 1%positive))
                     (with_table (DataColumn.new "pid" (Some "number") true VNull)
                                 (Some 2%positive))] |}.

(** *** Sequences of column operations *)

(** The ordinals of the columns are 0, 1, ..., N-1 in iteration order,
    and no two columns have the same name. *)
Definition columns_ok (cols : list DataColumn) : Prop :=
  map ordinal cols = map Z.of_nat (seq 0 (List.length cols))
  /\ NoDup (DataColumnCollection.Map_keys cols).

(** Every element of the row array of the table is a row of the store. *)
Definition rows_are_rows (h : heap) (t : DataTable) : Prop :=
  forall row, row ∈ _rows (rows t) -> exists r, h !! row = Some (CRow r).

Inductive column_op :=
| OpAdd (columnOrName : column_arg) (dataType : option string)
| OpRemove (columnName : string).

(** The name of the column that [add] is given. *)
Definition column_arg_name (a : column_arg) : string :=
  match a with
  | ColumnInstance c => columnName c
  | ColumnName name => name
  end.

(** An operation on the columns of the table at [table]; an error that it
    throws is caught, and the sequence goes on from the store as the
    [throw] left it. *)
Definition run_column_op (table : loc) (h : heap) (op : column_op) : heap :=
  match op with
  | OpAdd columnOrName dataType =>
      (DataColumnCollection.add table columnOrName dataType h).1
  | OpRemove columnName => (DataColumnCollection.remove table columnName h).1
  end.

Definition run_column_ops (table : loc) (ops : list column_op) (h : heap) : heap :=
  foldl (run_column_op table) h ops.

(** The names of the columns after the operation, in insertion order: a
    name that is new is appended, a name that is removed leaves the
    others in their order. *)
Definition keys_step (keys : list string) (op : column_op) : list string :=
  match op with
  | OpAdd columnOrName _ =>
      if DataColumnCollection.has_key keys (column_arg_name columnOrName) then keys
      else keys ++ [column_arg_name columnOrName]
  | OpRemove columnName =>
      List.filter (fun k => negb (String.eqb k columnName)) keys
  end.

(** *** Column objects that two tables hold

    [DataColumnCollection.add] of the source with the column as the
    object that it is: [add] writes [_table] and [ordinal] into the
    object that it is given and stores a reference to it under its
    name, whether or not another table holds the object already. *)
Module ColumnObjects.

(** A table: the [Map] [_columns] from name to column object, in
    insertion order, and the array [_rows]. *)
Record table_object := {
  _columns : list (string * loc);
  _rows : list loc;
}.

Inductive object :=
| OColumn (c : DataColumn)
| OTable (t : table_object)
| ORow (values : gmap string val).

Definition store := gmap loc object.

(** [new DataTable()] *)
Definition new_DataTable (s : store) : store * loc :=
  (<[fresh (dom s) := OTable {| _columns := []; _rows := [] |}]> s, fresh (dom s)).

(** [new DataColumn(columnName, dataType)] *)
Definition new_DataColumn (columnName : string) (dataType : option string)
    (s : store) : store * loc :=
  (<[fresh (dom s) := OColumn (DataColumn.new columnName dataType true VNull)]> s,
   fresh (dom s)).

(** [rows.forEach(row => row._values[name] = v)] *)
Definition write_rows (name : string) (v : val) (rows : list loc) (s : store) : store :=
  foldl (fun s row =>
           match s !! row with
           | Some (ORow values) => <[row := ORow (<[name := v]> values)]> s
           | _ => s
           end) s rows.

(** [add(column)] for a [DataColumn] object. *)
Definition add (this_table column : loc) (s : store) : store * outcome loc :=
  match s !! this_table, s !! column with
  | Some (OTable t), Some (OColumn c) =>
      if DataColumnCollection.has_key (map fst (_columns t)) (columnName c) then
        (s, Throw (ColumnAlreadyExists (columnName c)))
      else
        let c := with_table c (Some this_table) in
        let c := with_ordinal c (Z.of_nat (List.length (_columns t))) in
        let s := <[column := OColumn c]> s in
        let s := <[this_table :=
                     OTable {| _columns := _columns t ++ [(columnName c, column)];
                               _rows := _rows t |}]> s in
        (write_rows (columnName c) (defaultValue c) (_rows t) s, Ok column)
  | _, _ => (s, Throw TypeError)
  end.

(** [add(name, dataType)]: the column object is new. *)
Definition add_name (this_table : loc) (name : string) (dataType : option string)
    (s : store) : store * outcome loc :=
  let '(s, column) := new_DataColumn name dataType s in
  add this_table column s.

(** The columns of a table, in iteration order. *)
Definition columns_of (s : store) (table : loc) : list DataColumn :=
  match s !! table with
  | Some (OTable t) =>
      omap (fun entry => match s !! entry.2 with
                         | Some (OColumn c) => Some c
                         | _ => None
                         end) (_columns t)
  | _ => []
  end.

(** [t1.addColumn('x'); c = new DataColumn('c'); t1.addColumn(c);
    t2.addColumn(c)] on two new tables. *)
Definition shared_column_program : store * loc * loc :=
  let '(s, t1) := new_DataTable ∅ in
  let '(s, t2) := new_DataTable s in
  let '(s, _) := add_name t1 "x" None s in
  let '(s, c) := new_DataColumn "c" None s in
  let '(s, _) := add t1 c s in
  let '(s, _) := add t2 c s in
  (s, t1, t2).

End ColumnObjects.

(** A write to the rows at [rows], one after the other. *)
Definition on_row (f : DataRow -> DataRow) (c : cell) : cell :=
  match c with
  | CRow r => CRow (f r)
  | c => c
  end.

Definition update_rows (f : DataRow -> DataRow) (rows : list loc) (h : heap) : heap :=
  foldl (fun h row => alter (on_row f) row h) h rows.

(** The column that [add] stores in a table with the columns [cols]. *)
Definition added_column (table : loc) (cols : list DataColumn)
    (columnOrName : column_arg) (dataType : option string) : DataColumn :=
  with_ordinal
    (with_table
       match columnOrName with
       | ColumnInstance c => c
       | ColumnName name => DataColumn.new name dataType true VNull
       end (Some table))
    (Z.of_nat (List.length cols)).

(** *** The keys of the rows *)

(** Every row in the row array of the table has the column names of the
    table, and nothing else, as the keys of its values. *)
Definition keys_ok (h : heap) (t : DataTable) : Prop :=
  forall row, row ∈ _rows (rows t) ->
    exists r, h !! row = Some (CRow r)
              /\ dom (_values r)
                 = list_to_set (DataColumnCollection.Map_keys (_columns (columns t))).

(** One step of the loop of [add] over the columns, for an array. *)
Definition add_element (vals : list val) (values : gmap string val)
    (entry : nat * DataColumn) : gmap string val :=
  <[columnName entry.2 := default VUndefined (vals !! entry.1)]> values.

(** A row built by [newRow] is kept while a column is added, and is added
    to the table afterwards. *)
Definition stale_row_program : M (loc * loc) :=
  let! t := DataTable.new "T" in
  let! _ := DataTable.addColumn t (ColumnName "a") None in
  let! r := DataTable.newRow t in
  let! _ := DataTable.addColumn t (ColumnName "b") None in
  let! _ := DataTable.addRow t (RowInstance r) in
  ret (t, r).

(** *** The temporary table of a sorted view *)

(** [set] on the record of a row, for the columns [cols] of its table:
    the row after the write, or the error. *)
Definition set_in `{Engine} (cols : list DataColumn) (r : DataRow) (name : string)
    (v : val) : outcome DataRow :=
  match DataColumnCollection.Map_get cols name with
  | None => Throw (ColumnDoesNotExist name)
  | Some column =>
      if is_null v && negb (allowNull column) then Throw (DoesNotAllowNull name)
      else
        let? v' := DataRow.coerce column name v in
        let? _ := hasOwnProperty (_originalValues r) name in
        Ok (DataRow.assign r name v')
  end.

(** The columns that [clone] adds to the new table at [tt], the first of
    them with the ordinal [n]. *)
Fixpoint clone_columns_from (tt : loc) (n : nat) (cols : list DataColumn)
  : list DataColumn :=
  match cols with
  | [] => []
  | c :: cols' =>
      with_ordinal (with_table (DataTable.clone_column c) (Some tt)) (Z.of_nat n)
      :: clone_columns_from tt (S n) cols'
  end.

Definition cloned_columns (tt : loc) (cols : list DataColumn) : list DataColumn :=
  clone_columns_from tt 0 cols.

(** The record of a new row of the table at [table] with columns [cols]. *)
Definition new_row (table : loc) (cols : list DataColumn) : DataRow :=
  {| _table := table; _values := DataRow.initial_values cols;
     _rowState := DataRowState.ADDED; _originalValues := ∅ |}.

(** The inner loop of [_cloneTableWithRows]: each column [c] of [cs] is
    [set] in the row [r], of a table with the columns [cols'], to the
    value that the source row has under the name. *)
Fixpoint copy_cells `{Engine} (cols' : list DataColumn) (vals : gmap string val)
    (r : DataRow) (cs : list DataColumn) : outcome DataRow :=
  match cs with
  | [] => Ok r
  | c :: cs' =>
      let? r' := set_in cols' r (columnName c)
                   (default VUndefined (vals !! columnName c)) in
      copy_cells cols' vals r' cs'
  end.

(** [array.map(f)] for an [f] that may throw. *)
Fixpoint outcome_mapM {A B} (f : A -> outcome B) (l : list A) : outcome (list B) :=
  match l with
  | [] => Ok []
  | x :: l' =>
      let? y := f x in
      let? ys := outcome_mapM f l' in
      Ok (y :: ys)
  end.

Definition outcome_map {A B} (f : A -> B) (o : outcome A) : outcome B :=
  match o with Ok a => Ok (f a) | Throw e => Throw e end.

(** The table at [table] is well formed in the store: the keys of its
    column [Map] are distinct, and its rows are rows of the store that
    were constructed against it. *)
Definition table_ok (h : heap) (table : loc) (t : DataTable) : Prop :=
  h !! table = Some (CTable t)
  /\ NoDup (DataColumnCollection.Map_keys (_columns (columns t)))
  /\ forall row, row ∈ _rows (rows t) ->
       exists r, h !! row = Some (CRow r) /\ _table r = table.

(** The record of the row at [l], for a location that holds a row. *)
Definition row_at (h : heap) (l : loc) : DataRow :=
  match h !! l with
  | Some (CRow r) => r
  | _ => new_row l []
  end.

(** The copies of the source rows [srcs] in the temporary table at [tt]
    with the columns [cols'], for a view on a table with the columns
    [cols]: the records of the new rows in order, or the first error. *)
Definition copy_rows `{Engine} (tt : loc) (cols' cols : list DataColumn)
    (srcs : list DataRow) : outcome (list DataRow) :=
  outcome_mapM (fun s => copy_cells cols' (_values s) (new_row tt cols') cols) srcs.





(** The comparator that a sorted view sorts the rows of its temporary
    table at [tmp] with. *)
Definition view_compare `{Engine} (sort : view_sort) (order : string) (h : heap)
    (tmp : loc) : loc -> loc -> outcome val :=
  match sort with
  | SortExpression expression => DataTable.compare_expression h expression
  | SortColumn columnName => DataTable.compare_column h tmp columnName order
  end.

(** The temporary table of a view on the table [t], at [tmp], with the
    rows [news]. *)
Definition temporary_table (tmp : loc) (t : DataTable) (news : list loc) : DataTable :=
  {| tableName := tableName t;
     rows := {| _rows := news |};
     columns := {| _columns := cloned_columns tmp (_columns (columns t)) |};
     caseSensitive := caseSensitive t |}.

(** The state of the rows that [_cloneTableWithRows] makes for a table
    with the columns [cols]: a new row is [ADDED], and each [set], one
    for each column, marks it [MODIFIED]. *)
Definition copied_state (cols : list DataColumn) : DataRowState.t :=
  match cols with
  | [] => DataRowState.ADDED
  | _ :: _ => DataRowState.MODIFIED
  end.

(** The sort of a view does not throw on the rows of a table with the
    columns [cols]: the function returns for every row, or the column
    is a column of the table. *)
Definition sort_total (s : view_sort) (cols : list DataColumn) : Prop :=
  match s with
  | SortExpression expression => forall x, is_Ok (expression x) = true
  | SortColumn columnName => DataColumnCollection.Map_has cols columnName = true
  end.

(** *** A table with two rows

    [new DataTable("T")] with an untyped column [a] and the rows
    [{a: "b"}] and [{a: "a"}]; a view of it sorted by [a]. *)
Definition ex2_column : DataColumn :=
  with_ordinal (with_table untyped_column (Some 1%positive)) 0.

Definition ex2_table : DataTable :=
  {| tableName := "T"; rows := {| _rows := [2%positive; 3%positive] |};
     columns := {| _columns := [ex2_column] |}; caseSensitive := false |}.

Definition ex2_row (v : string) : DataRow :=
  {| _table := 1%positive; _values := {["a" := VStr v]};
     _rowState := DataRowState.ADDED; _originalValues := ∅ |}.

Definition ex2_heap : heap :=
  <[3%positive := CRow (ex2_row "a")]>
    (<[2%positive := CRow (ex2_row "b")]> (<[1%positive := CTable ex2_table]> ∅)).

Definition ex2_view : DataView.t :=
  DataView.new 1%positive None (Some (SortColumn "a")) "asc".

(** *** A sorted view of a table without columns

    [new DataTable("T")], a row added with no values, and a view sorted
    by a function; the result is the rows of the view. *)
Definition columnless_view_program `{Engine} : M (list loc) :=
  let! t := DataTable.new "T" in
  let! _ := DataTable.addRow t RowOther in
  DataView.getRows
    (DataView.new t None (Some (SortExpression (fun _ => Ok (VNum (Fin 0))))) "asc").

(** The store that [build_family] leaves, and what it holds. *)
Definition family_heap : heap := (build_family ∅).1.

Definition family_id : DataColumn :=
  with_ordinal (with_table (DataColumn.new "id" (Some "number") true VNull)
                           (Some 1%positive)) 0.

Definition family_pid : DataColumn :=
  with_ordinal (with_table (DataColumn.new "pid" (Some "number") true VNull)
                           (Some 2%positive)) 0.

Definition family_P : DataTable :=
  {| tableName := "P"; rows := {| _rows := [3%positive; 4%positive] |};
     columns := {| _columns := [family_id] |}; caseSensitive := false |}.

Definition family_C : DataTable :=
  {| tableName := "C"; rows := {| _rows := [5%positive; 6%positive; 7%positive] |};
     columns := {| _columns := [family_pid] |}; caseSensitive := false |}.

Definition family_relation : DataRelation := DataRelation.new "P_C" family_id family_pid.

Definition family_dataset : DataSet :=
  {| dataSetName := "family"; tables := [("P", 1%positive); ("C", 2%positive)];
     relations := [family_relation] |}.

Definition family_row (table : loc) (name : string) (id : Z) : DataRow :=
  {| _table := table; _values := {[name := VNum (Fin (inject_Z id))]};
     _rowState := DataRowState.ADDED; _originalValues := ∅ |}.

(** [set] accepts, for each column of [cols], the value that the row
    [r] holds under the name of the column: it is not a null in a column
    that does not allow null, and it converts to the type of the
    column. *)
Definition accepted `{Engine} (cols : list DataColumn) (r : DataRow) : Prop :=
  forall c, c ∈ cols ->
    is_null (default VUndefined (_values r !! columnName c)) && negb (allowNull c) = false
    /\ is_Ok (DataRow.coerce c (columnName c)
                (default VUndefined (_values r !! columnName c))) = true.

(** The values of the column [name] in the rows of a view, in order. *)
Definition values_of_view `{Engine} (view : DataView.t) (name : string) : M (list val) :=
  let! rows := DataView.getRows view in
  read (fun h => Ok (map (fun row => value_of h row name) rows)).

(** The rows of the sorted view of the example, read four times: at
    first, after a row is added to the table, after a value of a row is
    changed, and after a row is removed. *)
Definition mutation_program `{Engine} : M (list val * list val * list val * list val) :=
  let! before := values_of_view ex2_view "a" in
  let! _ := DataTable.addRow 1%positive (RowObject {["a" := VStr "0"]}) in
  let! added := values_of_view ex2_view "a" in
  let! _ := DataRow.set 2%positive "a" (VStr "z") in
  let! changed := values_of_view ex2_view "a" in
  let! _ := DataTable.removeRow 1%positive (Fin 1) in
  let! removed := values_of_view ex2_view "a" in
  ret (before, added, changed, removed).

(** The column that [addColumn("b", "string")] adds to the table with
    one row. *)
Definition ex1_b : DataColumn :=
  added_column 1%positive [ex1_column] (ColumnName "b") (Some "string").

(** The row that [addRow] builds from an object of column-value pairs,
    in a table with the columns [cols]. *)
Definition object_row (table : loc) (cols : list DataColumn) (values : gmap string val)
  : DataRow :=
  {| _table := table;
     _values := foldl (add_entry cols) (DataRow.initial_values cols) (map_to_list values);
     _rowState := DataRowState.ADDED;
     _originalValues := ∅ |}.

(** ** Definitions for further properties of the code *)



(** The row that [addRow] builds from an array of values, in a table
    with the columns [cols]. *)
Definition array_row (table : loc) (cols : list DataColumn) (vals : list val) : DataRow :=
  {| _table := table;
     _values := foldl (add_element vals) (DataRow.initial_values cols) (imap pair cols);
     _rowState := DataRowState.ADDED;
     _originalValues := ∅ |}.

(** The operator that [findRows] reads in an operator object: the first
    that the object has, in the order [$gt], [$gte], [$lt], [$lte],
    [$ne], [$in], [$contains]. *)
Definition first_operator (ops : operators) : operators :=
  match op_gt ops, op_gte ops, op_lt ops, op_lte ops, op_ne ops, op_in ops,
        op_contains ops with
  | Some x, _, _, _, _, _, _ =>
      {| op_gt := Some x; op_gte := None; op_lt := None; op_lte := None;
         op_ne := None; op_in := None; op_contains := None |}
  | None, Some x, _, _, _, _, _ =>
      {| op_gt := None; op_gte := Some x; op_lt := None; op_lte := None;
         op_ne := None; op_in := None; op_contains := None |}
  | None, None, Some x, _, _, _, _ =>
      {| op_gt := None; op_gte := None; op_lt := Some x; op_lte := None;
         op_ne := None; op_in := None; op_contains := None |}
  | None, None, None, Some x, _, _, _ =>
      {| op_gt := None; op_gte := None; op_lt := None; op_lte := Some x;
         op_ne := None; op_in := None; op_contains := None |}
  | None, None, None, None, Some x, _, _ =>
      {| op_gt := None; op_gte := None; op_lt := None; op_lte := None;
         op_ne := Some x; op_in := None; op_contains := None |}
  | None, None, None, None, None, Some l, _ =>
      {| op_gt := None; op_gte := None; op_lt := None; op_lte := None;
         op_ne := None; op_in := Some l; op_contains := None |}
  | None, None, None, None, None, None, x =>
      {| op_gt := None; op_gte := None; op_lt := None; op_lte := None;
         op_ne := None; op_in := None; op_contains := x |}
  end.

Definition first_only (entry : string * criterion) : string * criterion :=
  match entry.2 with
  | MatchOperators ops => (entry.1, MatchOperators (first_operator ops))
  | _ => entry
  end.

(** A list in which every element is related to the elements after it. *)
Fixpoint ordered {A} (le : A -> A -> Prop) (l : list A) : Prop :=
  match l with
  | [] => True
  | x :: l' => Forall (le x) l' /\ ordered le l'
  end.

(** The finite number that the row at [row] holds in the column [name]. *)
Definition number_at (h : heap) (row : loc) (name : string) : option Q :=
  match value_of h row name with
  | VNum (Fin q) => Some q
  | _ => None
  end.

(** The rows [a] and [b] hold finite numbers in the column [name], the
    number of [a] at most the number of [b]. *)
Definition number_le (h : heap) (name : string) (a b : loc) : Prop :=
  exists p q, number_at h a name = Some p /\ number_at h b name = Some q /\ Qle p q.

(** The columns of a table with the columns [cols] after
    [loadFromQuery] added a column for each property of the first row. *)
Definition query_columns (table : loc) (cols : list DataColumn)
    (firstRow : list (string * val)) : list DataColumn :=
  foldl (fun cols entry =>
           cols ++ [added_column table cols (ColumnName entry.1)
                      (Some (DataTable.query_type entry.2))])
        cols firstRow.

(** The column that [loadFromQuery] adds at position [n] for the
    property [entry] of the first row. *)
Definition query_column (table : loc) (n : nat) (entry : string * val) : DataColumn :=
  with_ordinal
    (with_table (DataColumn.new entry.1 (Some (DataTable.query_type entry.2)) true VNull)
                (Some table))
    (Z.of_nat n).

(** The relation has the table named [name] as its parent or as its
    child. *)
Definition involves (h : heap) (name : string) (rel : DataRelation) : bool :=
  match DataSet.table_name_of h (parentTable rel),
        DataSet.table_name_of h (childTable rel) with
  | Ok parent, Ok child => String.eqb parent name || String.eqb child name
  | _, _ => false
  end.

(** The parent and the child table of every relation are tables of the
    store. *)
Definition relations_ok (h : heap) (rels : list DataRelation) : Prop :=
  forall rel, rel ∈ rels ->
    is_Ok (DataSet.table_name_of h (parentTable rel)) = true
    /\ is_Ok (DataSet.table_name_of h (childTable rel)) = true.


(** The entries of the result of [compareSchema] for a column of this
    table, against the columns [other] of the other table. *)
Definition type_mismatch (other : list DataColumn) (c : DataColumn)
  : option (string * option string * option string) :=
  match DataColumnCollection.Map_get other (columnName c) with
  | Some o =>
      if bool_decide (dataType c = dataType o) then None
      else Some (columnName c, dataType c, dataType o)
  | None => None
  end.

Definition nullability_difference (other : list DataColumn) (c : DataColumn)
  : option (string * bool * bool) :=
  match DataColumnCollection.Map_get other (columnName c) with
  | Some o =>
      if Bool.eqb (allowNull c) (allowNull o) then None
      else Some (columnName c, allowNull c, allowNull o)
  | None => None
  end.

(** The names of the columns of [cols] that [other] does not have. *)
Definition names_not_in (other cols : list DataColumn) : list string :=
  map columnName
    (List.filter (fun c => negb (DataColumnCollection.Map_has other (columnName c))) cols).

Definition no_differences : differences :=
  {| missingColumns := []; extraColumns := [];
     typeMismatches := []; nullabilityDifferences := [] |}.

(** A column of this table after [updateSchema] without columns to add
    or to remove: the type and the nullability of the column of that
    name in the source, when there is one. *)
Definition updated_column (source : list DataColumn) (c : DataColumn) : DataColumn :=
  match DataColumnCollection.Map_get source (columnName c) with
  | Some s => DataTable2.set_allowNull (DataTable2.with_dataType c (dataType s)) (allowNull s)
  | None => c
  end.

(** A column with the type, and with the nullability, of the column of
    its name in [source]. *)
Definition with_source_type (source : list DataColumn) (c : DataColumn) : DataColumn :=
  match DataColumnCollection.Map_get source (columnName c) with
  | Some s => DataTable2.with_dataType c (dataType s)
  | None => c
  end.

Definition with_source_allowNull (source : list DataColumn) (c : DataColumn) : DataColumn :=
  match DataColumnCollection.Map_get source (columnName c) with
  | Some s => DataTable2.set_allowNull c (allowNull s)
  | None => c
  end.

(** The columns after [f] was applied to the columns named in [names]. *)
Definition update_named (f : DataColumn -> DataColumn) (names : list string)
    (cols : list DataColumn) : list DataColumn :=
  map (fun c => if DataColumnCollection.has_key names (columnName c) then f c else c) cols.

Definition type_change (m : string * option string * option string) : modification :=
  let '(column, thisType, otherType) := m in ChangeDataType column thisType otherType.

Definition nullability_change (m : string * bool * bool) : modification :=
  let '(column, thisAllowNull, otherAllowNull) := m in
  ChangeAllowNull column thisAllowNull otherAllowNull.

(** *** Further examples

    A view of the table with two rows without filter and sort; a table
    [S] with a column [n] typed string that allows null, beside the
    table with one row. *)
Definition ex2_plain_view : DataView.t := DataView.new 1%positive None None "asc".

Definition ex1_source_column : DataColumn :=
  with_ordinal (with_table (DataColumn.new "n" (Some "string") true VNull)
                           (Some 3%positive)) 0.

Definition ex1_source : DataTable :=
  {| tableName := "S"; rows := {| _rows := [] |};
     columns := {| _columns := [ex1_source_column] |}; caseSensitive := false |}.

Definition ex1_source_heap : heap := <[3%positive := CTable ex1_source]> ex1_heap.

(** The differences of the table with one row against [S], and of the
    tables [P] and [C] of the family. *)
Definition ex1_differences : differences :=
  {| missingColumns := []; extraColumns := [];
     typeMismatches := [("n", Some "number", Some "string")];
     nullabilityDifferences := [("n", false, true)] |}.

Definition family_differences : differences :=
  {| missingColumns := ["id"]; extraColumns := ["pid"];
     typeMismatches := []; nullabilityDifferences := [] |}.

(** The record of the row that [clone] makes, in the table at [tt] with
    the columns [cols'], for a row with the record [r]: the values of
    [r] over the initial values of a new row, the state and the original
    values of [r]. *)
Definition cloned_row (tt : loc) (cols' : list DataColumn) (r : DataRow) : DataRow :=
  {| _table := tt;
     _values := _values r ∪ DataRow.initial_values cols';
     _rowState := _rowState r;
     _originalValues := _originalValues r |}.

(** No column of [cols] has a name of [Object.prototype]: the reads and
    writes of the values of rows under the names of the columns are the
    lookups and inserts of the maps. *)
Definition own_columns (cols : list DataColumn) : Prop :=
  Forall own_name (DataColumnCollection.Map_keys cols).

(** No column of [cols] is named [__proto__]: the writes under the names
    of the columns are the inserts of the maps. *)
Definition assignable_columns (cols : list DataColumn) : Prop :=
  Forall assignable (DataColumnCollection.Map_keys cols).

(** *** Criteria that read the same at every call

    A criteria object with no RegExp (a RegExp with the flag [g] or [y]
    carries [lastIndex] from one call of [test] to the next), whose
    keys are no names of members of [Object.prototype] (a row without
    the key reads the inherited member), and with no [Date] where the
    value is compared by identity, that is by [===], by [!==] or by
    [includes] (a [Date] object is equal to itself). *)
Definition plain_criterion (c : criterion) : Prop :=
  match c with
  | MatchRegExp _ => False
  | MatchOperators ops =>
      (forall x, op_ne ops = Some x -> instanceof_Date x = false)
      /\ (forall l, op_in ops = Some l -> Forall (fun x => instanceof_Date x = false) l)
  | MatchValue v => instanceof_Date v = false
  end.

Definition plain_criteria (entries : list (string * criterion)) : Prop :=
  Forall (fun entry => own_name entry.1 /\ plain_criterion entry.2) entries.

(** The filter of a view: a function, or a criteria object as above. *)
Definition plain_filter (filter : option criteria) : Prop :=
  match filter with
  | Some (CriteriaObject entries) => plain_criteria entries
  | _ => True
  end.

(** A view of the table with two rows with a criteria object as its
    filter, sorted by [a]. *)
Definition ex2_filtered_view : DataView.t :=
  DataView.new 1%positive (Some (CriteriaObject [("a", MatchValue (VStr "a"))]))
    (Some (SortColumn "a")) "asc".

(** ** An engine to evaluate with

    Integers print in decimal; no string parses as a date; strings
    compare by code units. *)
Definition decimal_digits (z : Z) : string :=
  if (z <? 0)%Z then String.append "-" (pretty (Z.to_N (- z))) else pretty (Z.to_N z).

Definition simple_engine : Engine := {|
  NumberToString n :=
    match n with
    | NaN => "NaN"
    | PosInf => "Infinity"
    | NegInf => "-Infinity"
    | Fin q => decimal_digits (Z.quot (Qnum q) (Z.pos (Qden q)))
    end;
  Date_parse _ := NaN;
  DateToString _ := "Invalid Date";
  localeCompare a b :=
    match String.compare a b with
    | Eq => Fin 0
    | Lt => Fin (-1)
    | Gt => Fin 1
    end;
|}.

(** * Properties *)

(** ** The store monad *)

Lemma bind_eq {A B} (m : M A) (k : A -> M B) (h : heap) :
  bind m k h = match m h with
               | (h', Ok a) => k a h'
               | (h', Throw e) => (h', Throw e)
               end.
Proof. reflexivity. Qed.

Lemma read_table_Some (h : heap) (l : loc) (t : DataTable) :
  h !! l = Some (CTable t) -> read_table h l = Ok t.
Proof. intros Hl. unfold read_table. by rewrite Hl. Qed.

Lemma read_row_Some (h : heap) (l : loc) (r : DataRow) :
  h !! l = Some (CRow r) -> read_row h l = Ok r.
Proof. intros Hl. unfold read_row. by rewrite Hl. Qed.

Lemma read_table_Ok (h : heap) (l : loc) (t : DataTable) :
  read_table h l = Ok t -> h !! l = Some (CTable t).
Proof.
  unfold read_table. destruct (h !! l) as [[]|]; intros; simplify_eq; done.
Qed.

Lemma read_row_Ok (h : heap) (l : loc) (r : DataRow) :
  read_row h l = Ok r -> h !! l = Some (CRow r).
Proof.
  unfold read_row. destruct (h !! l) as [[]|]; intros; simplify_eq; done.
Qed.

(** ** The [Map] of columns *)

Section ColumnMap.
Import DataColumnCollection.

Lemma has_key_true (keys : list string) (name : string) :
  has_key keys name = true <-> name ∈ keys.
Proof.
  unfold has_key. rewrite existsb_exists. split.
  - intros (x & Hx & Heq). apply String.eqb_eq in Heq. subst.
    by apply list_elem_of_In.
  - intros Hin. exists name. split; [by apply list_elem_of_In|apply String.eqb_refl].
Qed.

Lemma Map_has_true (cols : list DataColumn) (name : string) :
  Map_has cols name = true <-> name ∈ Map_keys cols.
Proof. apply has_key_true. Qed.

Lemma Map_has_cons (c : DataColumn) (cols : list DataColumn) (name : string) :
  Map_has (c :: cols) name = String.eqb name (columnName c) || Map_has cols name.
Proof. reflexivity. Qed.

Lemma Map_get_has (cols : list DataColumn) (name : string) :
  Map_has cols name = true <-> is_Some (Map_get cols name).
Proof.
  induction cols as [|c cols IH]; simpl.
  - split; [done|]. by intros [? ?].
  - rewrite Map_has_cons. rewrite (String.eqb_sym name).
    destruct (String.eqb (columnName c) name); simpl; [|done].
    split; eauto.
Qed.

Lemma Map_get_None (cols : list DataColumn) (name : string) :
  Map_has cols name = false <-> Map_get cols name = None.
Proof.
  rewrite <- not_true_iff_false, Map_get_has, eq_None_not_Some. done.
Qed.

Lemma Map_get_name (cols : list DataColumn) (name : string) (c : DataColumn) :
  Map_get cols name = Some c -> columnName c = name.
Proof.
  intros Hf. apply find_some in Hf as [_ Heq]. by apply String.eqb_eq.
Qed.

Lemma Map_get_elem (cols : list DataColumn) (name : string) (c : DataColumn) :
  Map_get cols name = Some c -> c ∈ cols.
Proof.
  intros Hf. apply find_some in Hf as [Hin _]. by apply list_elem_of_In.
Qed.

End ColumnMap.

(** ** [DataRow.set] and [DataRow.get] *)

Section RowSet.
Context `{Engine}.
Import DataColumnCollection.

(** [set] on a row of the store, case by case. *)
Lemma row_set_eq (h : heap) (row : loc) (r : DataRow) (t : DataTable)
    (name : string) (v : val) :
  h !! row = Some (CRow r) ->
  h !! _table r = Some (CTable t) ->
  DataRow.set row name v h =
    match Map_get (_columns (columns t)) name with
    | None => (h, Throw (ColumnDoesNotExist name))
    | Some column =>
        if is_null v && negb (allowNull column) then
          (h, Throw (DoesNotAllowNull name))
        else
          match DataRow.coerce column name v with
          | Throw e => (h, Throw e)
          | Ok v' =>
              match hasOwnProperty (_originalValues r) name with
              | Throw e => (h, Throw e)
              | Ok _ => (<[row := CRow (DataRow.assign r name v')]> h, Ok tt)
              end
          end
    end.
Proof.
  intros Hrow Htable.
  unfold DataRow.set, get_row, get_table, read.
  rewrite !bind_eq, (read_row_Some _ _ _ Hrow), bind_eq.
  rewrite (read_table_Some _ _ _ Htable).
  destruct (Map_has (_columns (columns t)) name) eqn:Hhas; simpl.
  - apply Map_get_has in Hhas as [column Hget]. rewrite Hget.
    destruct (is_null v && negb (allowNull column)); [done|].
    destruct (DataRow.coerce column name v); [|done].
    by destruct (hasOwnProperty (_originalValues r) name).
  - apply Map_get_None in Hhas. by rewrite Hhas.
Qed.

(** The call of [hasOwnProperty] on an object that has no own property
    of that name, and on one that has. *)
Lemma hasOwnProperty_method (o : gmap string val) (k : string) :
  o !! "hasOwnProperty" = None ->
  hasOwnProperty o k = Ok (bool_decide (is_Some (o !! k))).
Proof. intros Ho. unfold hasOwnProperty. by rewrite Ho. Qed.


Lemma own_name_assignable (k : string) : own_name k -> assignable k.
Proof. intros Hk ->. apply Hk. unfold Object_prototype_names. set_solver. Qed.

Lemma own_name_hasOwnProperty (k : string) : own_name k -> k <> "hasOwnProperty".
Proof. intros Hk ->. apply Hk. unfold Object_prototype_names. set_solver. Qed.

Lemma own_columns_assignable (cols : list DataColumn) :
  own_columns cols -> assignable_columns cols.
Proof.
  intros Hown. eapply Forall_impl; [exact Hown|]. apply own_name_assignable.
Qed.

Lemma own_columns_hasOwnProperty (cols : list DataColumn) :
  own_columns cols -> ~ "hasOwnProperty" ∈ Map_keys cols.
Proof.
  intros Hown Hin. unfold own_columns in Hown. rewrite Forall_forall in Hown.
  by apply (own_name_hasOwnProperty _ (Hown _ Hin)).
Qed.

Lemma assignable_columns_proto (cols : list DataColumn) :
  assignable_columns cols -> ~ "__proto__" ∈ Map_keys cols.
Proof.
  intros Hcols Hin. unfold assignable_columns in Hcols. rewrite Forall_forall in Hcols.
  by apply (Hcols _ Hin).
Qed.



Lemma coerce_with_allowNull (column : DataColumn) (b : bool) (name : string) (v : val) :
  DataRow.coerce (with_allowNull column b) name v = DataRow.coerce column name v.
Proof. reflexivity. Qed.

End RowSet.

Section RowSetClaims.
Context `{Engine}.
Import DataColumnCollection.





End RowSetClaims.

Section RowSetErrors.
Context `{Engine}.
Import DataColumnCollection.

End RowSetErrors.

(** *** On the table with one row *)

Example ex1_heap_built :
  build_table [number_column] [RowOther] ∅ = (ex1_heap, Ok (1%positive, [2%positive])).
Proof. vm_compute. reflexivity. Qed.

(** *** On the table with a column named hasOwnProperty

    The first [set] of the column succeeds and leaves the row of the
    example; the second throws a TypeError. *)
Example shadow_heap_built :
  shadow_program (H := simple_engine) ∅ = (shadow_heap, Ok (1%positive, [2%positive]))
  /\ DataRow.set (H := simple_engine) 2%positive "hasOwnProperty" (VStr "42") shadow_heap
     = (shadow_heap, Throw TypeError).
Proof. split; vm_compute; reflexivity. Qed.



(** ** Removal by an index or a name that is not there *)

Lemma put_same (h : heap) (l : loc) (c : cell) :
  h !! l = Some c -> put l c h = (h, Ok tt).
Proof. intros Hl. unfold put. by rewrite insert_id. Qed.

Lemma modify_table_eq (h : heap) (l : loc) (t : DataTable) (f : DataTable -> DataTable) :
  h !! l = Some (CTable t) ->
  modify_table l f h = (<[l := CTable (f t)]> h, Ok tt).
Proof.
  intros Hl. unfold modify_table, get_table, read.
  by rewrite bind_eq, (read_table_Some _ _ _ Hl).
Qed.

Lemma modify_row_eq (h : heap) (l : loc) (r : DataRow) (f : DataRow -> DataRow) :
  h !! l = Some (CRow r) ->
  modify_row l f h = (<[l := CRow (f r)]> h, Ok tt).
Proof.
  intros Hl. unfold modify_row, get_row, read.
  by rewrite bind_eq, (read_row_Some _ _ _ Hl).
Qed.

Lemma removeAt_out_of_range (h : heap) (this : loc) (t : DataTable) (index : number) :
  h !! this = Some (CTable t) ->
  out_of_range index (List.length (_rows (rows t))) ->
  DataRowCollection.removeAt this index h = (h, Ok tt).
Proof.
  intros Ht Hout. unfold DataRowCollection.removeAt.
  rewrite (modify_table_eq _ _ _ _ Ht).
  assert (js_ge (VNum index) (VNum (Fin 0))
          && js_lt (VNum index)
               (VNum (number_of_Z (Z.of_nat (List.length (_rows (rows t)))))) = false)
    as ->; [|by rewrite insert_id].
  destruct index as [| | |q]; try done.
  unfold js_ge, js_lt, less_than, number_of_Z. simpl.
  rewrite negb_involutive.
  destruct Hout as [Hneg|Hbig].
  - apply andb_false_intro1. apply not_true_iff_false.
    rewrite Qle_bool_iff. by apply Qlt_not_le.
  - apply andb_false_intro2. apply negb_false_iff.
    by apply Qle_bool_iff.
Qed.

Lemma findIndex_None (rels : list DataRelation) (name : string) :
  (forall rel, rel ∈ rels -> relationName rel <> name) ->
  DataSet.findIndex rels name = None.
Proof.
  induction rels as [|rel rels IH]; intros Hall; simpl; [done|].
  destruct (String.eqb_spec (relationName rel) name) as [Heq|_].
  - exfalso. apply (Hall rel); [left|done].
  - rewrite IH; [done|]. intros rel' Hin. apply Hall. by right.
Qed.

(** C8: for every table and every index out of range, [removeRow] leaves
    the store (so the row collection) unchanged and raises nothing; for
    every dataset and every name that no relation of it has,
    [removeRelation] leaves the dataset (so the relation list) unchanged. *)
Theorem C8_removal_no_op (h : heap) (table : loc) (t : DataTable) (index : number)
    (ds : DataSet) (name : string) :
  h !! table = Some (CTable t) ->
  out_of_range index (List.length (_rows (rows t))) ->
  (forall rel, rel ∈ relations ds -> relationName rel <> name) ->
  DataTable.removeRow table index h = (h, Ok tt)
  /\ DataSet.removeRelation ds name = ds.
Proof.
  intros Ht Hout Hname. split.
  - by apply (removeAt_out_of_range h table t).
  - unfold DataSet.removeRelation. by rewrite findIndex_None.
Qed.

(** ** Relations: [getChildRows] and [getParentRow] *)

Lemma Array_filter_Ok {A} (f : A -> outcome bool) (g : A -> bool) (l : list A) :
  (forall x, x ∈ l -> f x = Ok (g x)) ->
  Array_filter f l = Ok (List.filter g l).
Proof.
  induction l as [|x l IH]; intros Hf; simpl; [done|].
  rewrite (Hf x) by left. simpl.
  rewrite IH by (intros y Hy; apply Hf; by right). simpl.
  by destruct (g x).
Qed.


Lemma filter_elem {A} (g : A -> bool) (l : list A) (x : A) :
  x ∈ List.filter g l <-> x ∈ l /\ g x = true.
Proof. rewrite !list_elem_of_In. apply filter_In. Qed.

Lemma filter_NoDup {A} (g : A -> bool) (l : list A) :
  NoDup l -> NoDup (List.filter g l).
Proof.
  induction 1 as [|x l Hx Hnd IH]; simpl; [constructor|].
  destruct (g x); [|done]. constructor; [|done].
  rewrite filter_elem. by intros [? _].
Qed.

Section Relations.
Context `{Engine}.
Import DataColumnCollection.

Lemma get_value_of (h : heap) (row : loc) (r : DataRow) (t : DataTable) (name : string) :
  h !! row = Some (CRow r) ->
  h !! _table r = Some (CTable t) ->
  Map_has (_columns (columns t)) name = true ->
  DataRow.get h row (KString name) = Ok (value_of h row name).
Proof.
  intros Hrow Htable Hhas. unfold DataRow.get, value_of.
  rewrite (read_row_Some _ _ _ Hrow). simpl.
  rewrite (read_table_Some _ _ _ Htable). simpl.
  unfold Map_has in Hhas. by rewrite Hhas, Hrow.
Qed.

(** The callback of the lookups, on a row. *)
Lemma lookup_callback_row (h : heap) (table : loc) (t : DataTable) (name : string)
    (v : val) (row : loc) :
  rows_have_column h table t name ->
  row ∈ _rows (rows t) ->
  (let? a := arg_of_row h row in
   let? b := (let? x := call_get a (KString name) in Ok (VBool (strict_equal x v))) in
   Ok (ToBoolean b))
  = Ok (strict_equal (value_of h row name) v).
Proof.
  intros (Ht & Hhas & Hrows) Hin.
  destruct (Hrows row Hin) as (r & Hrow & Htab).
  unfold arg_of_row, value_of.
  rewrite (read_row_Some _ _ _ Hrow). simpl.
  rewrite Htab, (read_table_Some _ _ _ Ht). simpl.
  unfold Map_has in Hhas. by rewrite Hhas, Hrow.
Qed.

(** With the [findRows] that hands the row to the function, the child
    rows are the rows of the child table whose value of the child column
    is strictly equal to the value of the parent column in the parent
    row, in table order. *)
Lemma getChildRows2_spec (h : heap) (ds : DataSet) (name : string)
    (relation : DataRelation) (parentRow : loc) (pr : DataRow) (pt : DataTable)
    (child : loc) (ct : DataTable) :
  DataSet.find_relation ds name = Some relation ->
  childTable relation = Some child ->
  h !! parentRow = Some (CRow pr) ->
  h !! _table pr = Some (CTable pt) ->
  Map_has (_columns (columns pt)) (columnName (parentColumn relation)) = true ->
  rows_have_column h child ct (columnName (childColumn relation)) ->
  DataSet.getChildRows2 h ds parentRow name
  = Ok (List.filter
          (fun row =>
             strict_equal (value_of h row (columnName (childColumn relation)))
                          (value_of h parentRow (columnName (parentColumn relation))))
          (_rows (rows ct))).
Proof.
  intros Hrel Hchild Hrow Htable Hhas Hrows.
  unfold DataSet.getChildRows2, DataSet.getChildRows_with.
  rewrite Hrel, (get_value_of _ _ _ _ _ Hrow Htable Hhas). simpl.
  rewrite Hchild. unfold DataTable2.findRows.
  destruct Hrows as (Ht & Hrows). rewrite (read_table_Some _ _ _ Ht). simpl.
  apply Array_filter_Ok. intros row Hin.
  by apply (lookup_callback_row h child ct).
Qed.



End Relations.

Section RelationClaims.
Context `{Engine}.
Import DataColumnCollection.


End RelationClaims.

(** On the family of tables: with the [DataTable] of src/DataTable.js
    [getChildRows] on the parent row with [id = 7] throws a TypeError,
    and so does [getParentRow] on a child; with the [DataTable] of
    src/unnamed/part_002 they return the two child rows with [pid = 7],
    and the parent row with [id = 7]; a relation name that is not there
    raises NotFound with both. *)
Example family_relation_lookup :
  exists h ds p1 p2 c1 c2 c3,
    build_family ∅ = (h, Ok (ds, [p1; p2], [c1; c2; c3]))
    /\ value_of h p1 "id" = VNum (Fin 7)
    /\ DataSet.getChildRows (H := simple_engine) h ds p1 "P_C" = Throw TypeError
    /\ DataSet.getParentRow (H := simple_engine) h ds c1 "P_C" = Throw TypeError
    /\ DataSet.getChildRows2 (H := simple_engine) h ds p1 "P_C" = Ok [c1; c3]
    /\ DataSet.getParentRow2 (H := simple_engine) h ds c3 "P_C" = Ok (Some p1)
    /\ DataSet.getChildRows (H := simple_engine) h ds p1 "C_P"
         = Throw (RelationDoesNotExist "C_P")
    /\ DataSet.getParentRow (H := simple_engine) h ds c1 "C_P"
         = Throw (RelationDoesNotExist "C_P").
Proof.
  do 7 eexists. split; [vm_compute; reflexivity|].
  repeat split; vm_compute; reflexivity.
Qed.

(** The store of the family holds the two tables and their rows. *)
Example family_heap_built :
  build_family ∅
  = (family_heap,
     Ok (family_dataset, [3%positive; 4%positive], [5%positive; 6%positive; 7%positive]))
  /\ family_heap !! 1%positive = Some (CTable family_P)
  /\ family_heap !! 2%positive = Some (CTable family_C)
  /\ family_heap !! 3%positive = Some (CRow (family_row 1%positive "id" 7))
  /\ family_heap !! 4%positive = Some (CRow (family_row 1%positive "id" 8))
  /\ family_heap !! 5%positive = Some (CRow (family_row 2%positive "pid" 7))
  /\ family_heap !! 6%positive = Some (CRow (family_row 2%positive "pid" 8))
  /\ family_heap !! 7%positive = Some (CRow (family_row 2%positive "pid" 7)).
Proof. repeat split; vm_compute; reflexivity. Qed.

Lemma family_P_rows : rows_have_column family_heap 1%positive family_P "id".
Proof.
  split; [vm_compute; reflexivity|]. split; [reflexivity|].
  intros row Hin.
  apply elem_of_cons in Hin as [->|Hin]; [eexists; split; [vm_compute|]; reflexivity|].
  apply list_elem_of_singleton in Hin as ->.
  eexists; split; [vm_compute|]; reflexivity.
Qed.

Lemma family_C_rows : rows_have_column family_heap 2%positive family_C "pid".
Proof.
  split; [vm_compute; reflexivity|]. split; [reflexivity|].
  intros row Hin.
  apply elem_of_cons in Hin as [->|Hin]; [eexists; split; [vm_compute|]; reflexivity|].
  apply elem_of_cons in Hin as [->|Hin]; [eexists; split; [vm_compute|]; reflexivity|].
  apply list_elem_of_singleton in Hin as ->.
  eexists; split; [vm_compute|]; reflexivity.
Qed.


(** ** Rows: construction and [addRow] *)

Section RowConstruction.
Import DataColumnCollection.

Lemma initial_values_snoc (cols : list DataColumn) (c : DataColumn) :
  DataRow.initial_values (cols ++ [c])
  = <[columnName c := defaultValue c]> (DataRow.initial_values cols).
Proof. unfold DataRow.initial_values. by rewrite foldl_app. Qed.

Lemma Map_keys_app (cols1 cols2 : list DataColumn) :
  Map_keys (cols1 ++ cols2) = (Map_keys cols1 ++ Map_keys cols2)%list.
Proof. apply map_app. Qed.

Lemma Map_has_app (cols1 cols2 : list DataColumn) (name : string) :
  Map_has (cols1 ++ cols2) name = Map_has cols1 name || Map_has cols2 name.
Proof. unfold Map_has, has_key. rewrite Map_keys_app. apply existsb_app. Qed.

Lemma Map_get_app (cols1 cols2 : list DataColumn) (name : string) :
  Map_get (cols1 ++ cols2) name
  = match Map_get cols1 name with
    | Some c => Some c
    | None => Map_get cols2 name
    end.
Proof.
  induction cols1 as [|c cols1 IH]; simpl; [done|].
  by destruct (String.eqb (columnName c) name).
Qed.

(** The keys of the values of a new row are the column names. *)
Lemma initial_values_dom (cols : list DataColumn) :
  dom (DataRow.initial_values cols) = list_to_set (Map_keys cols).
Proof.
  induction cols as [|c cols IH] using rev_ind; [done|].
  rewrite initial_values_snoc, dom_insert_L, IH, Map_keys_app, list_to_set_app_L.
  simpl. rewrite (right_id_L ∅ (∪)). apply (comm_L (∪)).
Qed.

Lemma initial_values_None (cols : list DataColumn) (name : string) :
  Map_has cols name = false -> DataRow.initial_values cols !! name = None.
Proof.
  intros Hhas. apply not_elem_of_dom. rewrite initial_values_dom.
  rewrite elem_of_list_to_set. intros Hin.
  apply Map_has_true in Hin. congruence.
Qed.

(** Each column of a new row holds the default value of the column. *)
Lemma initial_values_Some (cols : list DataColumn) (name : string) (c : DataColumn) :
  NoDup (Map_keys cols) ->
  Map_get cols name = Some c ->
  DataRow.initial_values cols !! name = Some (defaultValue c).
Proof.
  induction cols as [|c' cols IH] using rev_ind; [done|].
  rewrite Map_keys_app. intros Hnd Hget.
  apply NoDup_app in Hnd as (Hnd & Hdisj & _).
  rewrite initial_values_snoc. rewrite Map_get_app in Hget.
  destruct (Map_get cols name) as [c0|] eqn:Hget0.
  - simplify_eq. rewrite lookup_insert_ne; [by apply IH|].
    intros Heq. apply (Hdisj name).
    + apply Map_has_true, Map_get_has. eauto.
    + rewrite <- Heq. simpl. left.
  - simpl in Hget. destruct (String.eqb_spec (columnName c') name) as [<-|]; [|done].
    simplify_eq. by rewrite lookup_insert_eq.
Qed.

Lemma alloc_eq (h : heap) (c : cell) :
  alloc c h = (<[fresh (dom h) := c]> h, Ok (fresh (dom h))).
Proof. reflexivity. Qed.

Lemma fresh_lookup (h : heap) : h !! fresh (dom h) = None.
Proof. apply not_elem_of_dom, is_fresh. Qed.

Lemma fresh_ne (h : heap) (l : loc) (c : cell) :
  h !! l = Some c -> l <> fresh (dom h).
Proof. intros Hl ->. by rewrite fresh_lookup in Hl. Qed.

Lemma new_row_eq (h : heap) (table : loc) (t : DataTable) :
  h !! table = Some (CTable t) ->
  DataRow.new table h
  = (<[fresh (dom h) :=
         CRow {| _table := table;
                 _values := DataRow.initial_values (_columns (columns t));
                 _rowState := DataRowState.ADDED;
                 _originalValues := ∅ |}]> h,
     Ok (fresh (dom h))).
Proof.
  intros Ht. unfold DataRow.new, get_table, read.
  by rewrite bind_eq, (read_table_Some _ _ _ Ht).
Qed.

Lemma with_values_values (r : DataRow) : with_values r (_values r) = r.
Proof. by destruct r. Qed.

Lemma with_values_twice (r : DataRow) (a b : gmap string val) :
  with_values (with_values r a) b = with_values r b.
Proof. done. Qed.

(** The loop of [add] over the entries of an object. *)
Lemma add_entries_eq (h : heap) (table newRow : loc) (t : DataTable) (r : DataRow)
    (entries : list (string * val)) :
  h !! table = Some (CTable t) ->
  h !! newRow = Some (CRow r) ->
  forEach entries (fun '(key, value) =>
    let! t := get_table table in
    if Map_has (_columns (columns t)) key then
      modify_row newRow (fun r => with_values r (<[key := value]> (_values r)))
    else ret tt) h
  = (<[newRow := CRow (with_values r
                         (foldl (add_entry (_columns (columns t))) (_values r) entries))]> h,
     Ok tt).
Proof.
  revert h r. induction entries as [|[key value] entries IH]; intros h r Ht Hr; simpl.
  - unfold ret. by rewrite with_values_values, insert_id.
  - assert (newRow <> table) as Hne by (intros ->; congruence).
    rewrite bind_eq. unfold get_table at 1, read at 1.
    rewrite bind_eq, (read_table_Some _ _ _ Ht).
    unfold add_entry at 2. simpl.
    destruct (Map_has (_columns (columns t)) key).
    + rewrite (modify_row_eq _ _ _ _ Hr).
      rewrite (IH _ (with_values r (<[key := value]> (_values r)))).
      * by rewrite insert_insert_eq.
      * by rewrite lookup_insert_ne.
      * by rewrite lookup_insert_eq.
    + unfold ret. by apply IH.
Qed.

Lemma add_entries_unknown (cols : list DataColumn) (entries : list (string * val))
    (init : gmap string val) (k : string) :
  Map_has cols k = false ->
  foldl (add_entry cols) init entries !! k = init !! k.
Proof.
  intros Hk. revert init. induction entries as [|[k' v'] entries IH]; intros init; [done|].
  simpl. rewrite IH. unfold add_entry. simpl.
  destruct (Map_has cols k') eqn:Hk'; [|done].
  rewrite lookup_insert_ne; [done|]. intros ->. congruence.
Qed.

Lemma add_entries_absent (cols : list DataColumn) (entries : list (string * val))
    (init : gmap string val) (k : string) :
  k ∉ entries.*1 ->
  foldl (add_entry cols) init entries !! k = init !! k.
Proof.
  revert init. induction entries as [|[k' v'] entries IH]; intros init Hk; [done|].
  simpl in *. apply not_elem_of_cons in Hk as [Hne Hk].
  rewrite IH by done. unfold add_entry. simpl.
  destruct (Map_has cols k'); [|done]. by rewrite lookup_insert_ne.
Qed.

Lemma add_entries_known (cols : list DataColumn) (entries : list (string * val))
    (init : gmap string val) (k : string) (v : val) :
  NoDup entries.*1 ->
  Map_has cols k = true ->
  (k, v) ∈ entries ->
  foldl (add_entry cols) init entries !! k = Some v.
Proof.
  revert init. induction entries as [|[k' v'] entries IH]; intros init Hnd Hk Hin.
  - by apply elem_of_nil in Hin.
  - simpl in *. apply NoDup_cons in Hnd as [Hnotin Hnd].
    apply elem_of_cons in Hin as [Heq|Hin].
    + simplify_eq. rewrite add_entries_absent by done.
      unfold add_entry. simpl. by rewrite Hk, lookup_insert_eq.
    + by apply IH.
Qed.

(** [addRow] with an object: the store afterwards. *)
Lemma addRow_object_store (h : heap) (table : loc) (t : DataTable)
    (values : gmap string val) :
  h !! table = Some (CTable t) ->
  DataTable.addRow table (RowObject values) h
  = (<[table := CTable (with_rows t (_rows (rows t) ++ [fresh (dom h)]))]>
       (<[fresh (dom h) := CRow (object_row table (_columns (columns t)) values)]> h),
     Ok (fresh (dom h))).
Proof.
  intros Ht.
  set (row := fresh (dom h)).
  set (r0 := {| _table := table;
                _values := DataRow.initial_values (_columns (columns t));
                _rowState := DataRowState.ADDED; _originalValues := ∅ |}).
  assert (table <> row) as Hne by (by apply (fresh_ne h table (CTable t))).
  unfold DataTable.addRow, DataRowCollection.add.
  rewrite !bind_eq, (new_row_eq _ _ _ Ht). fold row r0.
  rewrite bind_eq, (add_entries_eq _ table row t r0);
    [|by rewrite lookup_insert_ne|by rewrite lookup_insert_eq].
  unfold ret at 1. rewrite insert_insert_eq.
  rewrite bind_eq.
  erewrite modify_table_eq; [done|]. by rewrite lookup_insert_ne.
Qed.

(** The values of the row, key by key: a key that is not a column is
    not there; a column that the object names holds the value of the
    object; a column that it does not name holds its default value. *)
Lemma object_row_unknown (table : loc) (cols : list DataColumn)
    (values : gmap string val) (k : string) :
  Map_has cols k = false -> _values (object_row table cols values) !! k = None.
Proof.
  intros Hk. simpl. rewrite add_entries_unknown by done.
  by apply initial_values_None.
Qed.

Lemma object_row_known (table : loc) (cols : list DataColumn)
    (values : gmap string val) (k : string) (v : val) :
  Map_has cols k = true -> values !! k = Some v ->
  _values (object_row table cols values) !! k = Some v.
Proof.
  intros Hk Hv. simpl. apply add_entries_known; [|done|].
  - apply NoDup_fst_map_to_list.
  - by apply elem_of_map_to_list.
Qed.

Lemma object_row_default (table : loc) (cols : list DataColumn)
    (values : gmap string val) (k : string) (c : DataColumn) :
  NoDup (Map_keys cols) ->
  Map_get cols k = Some c -> values !! k = None ->
  _values (object_row table cols values) !! k = Some (defaultValue c).
Proof.
  intros Hnd Hget Hv. simpl. rewrite add_entries_absent.
  - by apply initial_values_Some.
  - intros Hin. apply list_elem_of_fmap in Hin as ([k' v'] & -> & Hin).
    apply elem_of_map_to_list in Hin. simpl in Hv. congruence.
Qed.

(** C2, as amended: for a table with no column named [__proto__] and a
    mapping of column name to value,
    [addRow] never fails; the keys that are not column names are
    ignored, the value of every known key is stored as it is given
    (it is not converted to the type of the column and a null is not
    rejected), the columns that the mapping does not name hold their
    default value, the row is in the state Added with no original
    values, and it is appended to the rows of the table and returned. *)
Theorem C2_addRow_mapping (h : heap) (table : loc) (t : DataTable)
    (values : gmap string val) :
  h !! table = Some (CTable t) ->
  NoDup (Map_keys (_columns (columns t))) ->
  assignable_columns (_columns (columns t)) ->
  exists r,
    DataTable.addRow table (RowObject values) h
    = (<[table := CTable (with_rows t (_rows (rows t) ++ [fresh (dom h)]))]>
         (<[fresh (dom h) := CRow r]> h),
       Ok (fresh (dom h)))
    /\ _table r = table
    /\ _rowState r = DataRowState.ADDED
    /\ _originalValues r = ∅
    /\ (forall k, Map_has (_columns (columns t)) k = false -> _values r !! k = None)
    /\ (forall k v, Map_has (_columns (columns t)) k = true ->
                    values !! k = Some v -> _values r !! k = Some v)
    /\ (forall k c, Map_get (_columns (columns t)) k = Some c ->
                    values !! k = None -> _values r !! k = Some (defaultValue c)).
Proof.
  intros Ht Hnd _. exists (object_row table (_columns (columns t)) values).
  split; [by apply addRow_object_store|].
  split; [done|]. split; [done|]. split; [done|]. split; [|split].
  - intros k Hk. by apply object_row_unknown.
  - intros k v Hk Hv. by apply object_row_known.
  - intros k c Hget Hv. by apply object_row_default.
Qed.
End RowConstruction.

(** C2, the claim as stated fails: on the table with the column [n] typed
    number that does not allow null, [addRow] with [{n: "42"}] stores the
    string "42" and [addRow] with [{n: null}] succeeds and stores null,
    where [set] on the same rows with the same values stores the number
    42 and raises NullNotAllowed. *)
Lemma C2_addRow_is_not_set :
  exists h row1 row2,
    build_table [number_column]
      [RowObject {["n" := VStr "42"]}; RowObject {["n" := VNull]}] ∅
    = (h, Ok (1%positive, [row1; row2]))
    /\ value_of h row1 "n" = VStr "42"
    /\ value_of h row2 "n" = VNull
    /\ (DataRow.set (H := simple_engine) row1 "n" (VStr "42") h).2 = Ok tt
    /\ value_of (DataRow.set (H := simple_engine) row1 "n" (VStr "42") h).1 row1 "n"
       = VNum (Fin 42)
    /\ (DataRow.set (H := simple_engine) row2 "n" VNull h).2
       = Throw (DoesNotAllowNull "n").
Proof.
  do 3 eexists. split; [vm_compute; reflexivity|].
  repeat split; vm_compute; reflexivity.
Qed.

Lemma C2_witness :
  (ex1_heap !! 1%positive = Some (CTable ex1_table))
  /\ (NoDup (DataColumnCollection.Map_keys (_columns (columns ex1_table))))
  /\ (assignable_columns (_columns (columns ex1_table)))
  /\ (exists r,
         DataTable.addRow 1%positive (RowObject ({["n" := VStr "42"; "x" := VNull]} : gmap string val)) ex1_heap
         = (<[1%positive := CTable (with_rows ex1_table (_rows (rows ex1_table) ++ [fresh (dom ex1_heap)]))]>
              (<[fresh (dom ex1_heap) := CRow r]> ex1_heap),
            Ok (fresh (dom ex1_heap)))
         /\ _table r = 1%positive
         /\ _rowState r = DataRowState.ADDED
         /\ _originalValues r = ∅
         /\ (forall k, DataColumnCollection.Map_has (_columns (columns ex1_table)) k = false -> _values r !! k = None)
         /\ (forall k v, DataColumnCollection.Map_has (_columns (columns ex1_table)) k = true ->
                         ({["n" := VStr "42"; "x" := VNull]} : gmap string val) !! k = Some v -> _values r !! k = Some v)
         /\ (forall k c, DataColumnCollection.Map_get (_columns (columns ex1_table)) k = Some c ->
                         ({["n" := VStr "42"; "x" := VNull]} : gmap string val) !! k = None -> _values r !! k = Some (defaultValue c))).
Proof.
  assert (ex1_heap !! 1%positive = Some (CTable ex1_table)) as Hyp1.
  { vm_compute; reflexivity. }
  assert (NoDup (DataColumnCollection.Map_keys (_columns (columns ex1_table)))) as Hyp2.
  { simpl; apply NoDup_singleton. }
  assert (assignable_columns (_columns (columns ex1_table))) as Hyp3.
  { unfold assignable_columns, assignable; compute_done. }
  exact (conj Hyp1 (conj Hyp2 (conj Hyp3 (C2_addRow_mapping ex1_heap 1%positive ex1_table (({["n" := VStr "42"; "x" := VNull]} : gmap string val)) Hyp1 Hyp2 Hyp3)))).
Defined.

Lemma C8_witness :
  (ex1_heap !! 1%positive = Some (CTable ex1_table)
   /\ out_of_range (Fin 1) (List.length (_rows (rows ex1_table)))
   /\ (forall rel, rel ∈ relations ex_dataset -> relationName rel <> "C_P"))
  /\ (DataTable.removeRow 1%positive (Fin 1) ex1_heap = (ex1_heap, Ok tt)
      /\ DataSet.removeRelation ex_dataset "C_P" = ex_dataset).
Proof.
  assert (forall rel, rel ∈ relations ex_dataset -> relationName rel <> "C_P") as Hrel.
  { intros rel Hin. apply list_elem_of_singleton in Hin. by subst. }
  assert (out_of_range (Fin 1) (List.length (_rows (rows ex1_table)))) as Hout.
  { right. simpl. apply Qle_refl. }
  split; [split; [reflexivity|split; [exact Hout|exact Hrel]]|].
  apply (C8_removal_no_op ex1_heap 1%positive ex1_table (Fin 1) ex_dataset "C_P");
    [reflexivity|exact Hout|exact Hrel].
Defined.

(** ** [select] *)

Section Select.
Context `{Engine}.
Import DataColumnCollection.

Lemma select_eq (h : heap) (table : loc) (t : DataTable) (f : callback) :
  h !! table = Some (CTable t) ->
  (forall row, row ∈ _rows (rows t) ->
     exists r b, h !! row = Some (CRow r) /\ f (ArgObject (_values r)) = Ok b) ->
  DataTable.select h table f
  = Ok (map ValuesOf (List.filter (select_keeps h f) (_rows (rows t)))).
Proof.
  intros Ht Hrows. unfold DataTable.select.
  rewrite (read_table_Some _ _ _ Ht). simpl.
  erewrite Array_filter_Ok; [done|].
  intros row Hin. destruct (Hrows row Hin) as (r & b & Hr & Hf).
  unfold arg_of_values, select_keeps.
  rewrite (read_row_Some _ _ _ Hr), Hr. simpl. by rewrite Hf.
Qed.

(** C6, as amended: [select] returns, for the rows whose values satisfy
    the predicate and in table order, plain objects, not Row handles;
    each of them is the value map of its row itself, not a copy: for a
    name other than [__proto__], a [set] on the row that succeeds is
    seen in the object returned before it (it reads the converted value
    under the name), and a write to the object under the name of a
    column is seen by [get] on the row. *)
Theorem C6_select_returns_the_value_maps (h : heap) (table : loc) (t : DataTable)
    (f : callback) :
  h !! table = Some (CTable t) ->
  (forall row, row ∈ _rows (rows t) ->
     exists r b tr, h !! row = Some (CRow r) /\ f (ArgObject (_values r)) = Ok b
                    /\ h !! _table r = Some (CTable tr)) ->
  DataTable.select h table f
  = Ok (map ValuesOf (List.filter (select_keeps h f) (_rows (rows t))))
  /\ (forall record, record ∈ map ValuesOf (List.filter (select_keeps h f) (_rows (rows t))) ->
      exists row r tr,
        record = ValuesOf row /\ row ∈ _rows (rows t)
        /\ h !! row = Some (CRow r) /\ h !! _table r = Some (CTable tr)
        /\ read_object h record = Ok (_values r)
        /\ (forall name v h',
              assignable name ->
              DataRow.set row name v h = (h', Ok tt) ->
              exists column v',
                Map_get (_columns (columns tr)) name = Some column
                /\ DataRow.coerce column name v = Ok v'
                /\ read_object h' record = Ok (<[name := v']> (_values r)))
        /\ (forall name v,
              assignable name ->
              Map_has (_columns (columns tr)) name = true ->
              exists h', write_property record name v h = (h', Ok tt)
                         /\ read_object h' record = Ok (<[name := v]> (_values r))
                         /\ DataRow.get h' row (KString name) = Ok v)).
Proof.
  intros Ht Hrows. split.
  { apply select_eq; [done|]. intros row Hin.
    destruct (Hrows row Hin) as (r & b & tr & Hr & Hf & _). eauto. }
  intros record Hin.
  apply list_elem_of_fmap in Hin as (row & -> & Hin).
  apply filter_elem in Hin as [Hin _].
  destruct (Hrows row Hin) as (r & b & tr & Hr & _ & Htr).
  assert (read_object h (ValuesOf row) = Ok (_values r)) as Hread
    by (unfold read_object; by rewrite (read_row_Some _ _ _ Hr)).
  exists row, r, tr. do 5 (split; [done|]). split.
  - intros name v h' _ Hset.
    rewrite (row_set_eq _ _ _ _ _ _ Hr Htr) in Hset.
    destruct (Map_get (_columns (columns tr)) name) as [column|] eqn:Hget; [|done].
    destruct (is_null v && negb (allowNull column)); [done|].
    destruct (DataRow.coerce column name v) as [v'|] eqn:Hc; [|done].
    destruct (hasOwnProperty (_originalValues r) name); [|done].
    injection Hset as <-. exists column, v'. do 2 (split; [done|]).
    unfold read_object, read_row. by rewrite lookup_insert_eq.
  - intros name v _ Hhas. eexists. split; [|split].
    + unfold write_property. by apply modify_row_eq.
    + unfold read_object, read_row. by rewrite lookup_insert_eq.
    + assert (_table r <> row) as Hne by (intros Heq; rewrite Heq in Htr; congruence).
      unfold DataRow.get, read_row, read_table.
      rewrite lookup_insert_eq. simpl. rewrite lookup_insert_ne by done.
      rewrite Htr. simpl. unfold Map_has in Hhas. rewrite Hhas. simpl.
      by rewrite lookup_insert_eq.
Qed.
End Select.

(** C6, the claim as stated fails: on a table with one row [{a: 1}], the
    record that [select] returned reads [{a: 2}] after [set] wrote 2 in
    the row, and [get] on the row returns 3 after 3 was written in the
    record. *)
Lemma C6_select_record_is_aliased :
  exists h row record h1 h2,
    build_table [untyped_column] [RowObject {["a" := VNum (Fin 1)]}] ∅
    = (h, Ok (1%positive, [row]))
    /\ DataTable.select h 1%positive keep_all = Ok [record]
    /\ read_object h record = Ok {["a" := VNum (Fin 1)]}
    /\ DataRow.set (H := simple_engine) row "a" (VNum (Fin 2)) h = (h1, Ok tt)
    /\ read_object h1 record = Ok {["a" := VNum (Fin 2)]}
    /\ write_property record "a" (VNum (Fin 3)) h = (h2, Ok tt)
    /\ DataRow.get h2 row (KString "a") = Ok (VNum (Fin 3)).
Proof.
  do 5 eexists. split; [vm_compute; reflexivity|].
  repeat split; vm_compute; reflexivity.
Qed.

(** ** Columns: [add] and [remove] *)

Section Columns.
Import DataColumnCollection.

Lemma update_rows_cons (f : DataRow -> DataRow) (row : loc) (rows : list loc) (h : heap) :
  update_rows f (row :: rows) h = update_rows f rows (alter (on_row f) row h).
Proof. reflexivity. Qed.

Lemma update_rows_notin (f : DataRow -> DataRow) (rows : list loc) (h : heap) (l : loc) :
  l ∉ rows -> update_rows f rows h !! l = h !! l.
Proof.
  revert h. induction rows as [|row rows IH]; intros h Hl; [done|].
  apply not_elem_of_cons in Hl as [Hne Hl].
  rewrite update_rows_cons, IH by done. by rewrite lookup_alter_ne.
Qed.

Lemma update_rows_table (f : DataRow -> DataRow) (rows : list loc) (h : heap)
    (l : loc) (t : DataTable) :
  h !! l = Some (CTable t) -> update_rows f rows h !! l = Some (CTable t).
Proof.
  revert h. induction rows as [|row rows IH]; intros h Hl; [done|].
  rewrite update_rows_cons. apply IH. destruct (decide (row = l)) as [->|Hne].
  - by rewrite lookup_alter_eq, Hl.
  - by rewrite lookup_alter_ne.
Qed.

(** A write that changes nothing the second time writes each row once,
    however often the row is in the array. *)
Lemma update_rows_in (f : DataRow -> DataRow) (rows : list loc) (h : heap)
    (l : loc) (r : DataRow) :
  (forall r, f (f r) = f r) ->
  l ∈ rows ->
  h !! l = Some (CRow r) ->
  update_rows f rows h !! l = Some (CRow (f r)).
Proof.
  intros Hf. revert h r. induction rows as [|row rows IH]; intros h r Hin Hl.
  - by apply elem_of_nil in Hin.
  - rewrite update_rows_cons. destruct (decide (row = l)) as [->|Hne].
    + destruct (decide (l ∈ rows)) as [Hin'|Hnotin].
      * erewrite IH; [|done|by rewrite lookup_alter_eq, Hl]. by rewrite Hf.
      * rewrite update_rows_notin by done. by rewrite lookup_alter_eq, Hl.
    + apply elem_of_cons in Hin as [->|Hin]; [done|].
      apply IH; [done|]. by rewrite lookup_alter_ne.
Qed.

Lemma update_rows_row (f : DataRow -> DataRow) (rows : list loc) (h : heap)
    (l : loc) (r : DataRow) :
  h !! l = Some (CRow r) -> exists r', update_rows f rows h !! l = Some (CRow r').
Proof.
  revert h r. induction rows as [|row rows IH]; intros h r Hl; [by exists r|].
  rewrite update_rows_cons. destruct (decide (row = l)) as [->|Hne].
  - apply (IH _ (f r)). by rewrite lookup_alter_eq, Hl.
  - apply (IH _ r). by rewrite lookup_alter_ne.
Qed.

Lemma update_rows_dom (f : DataRow -> DataRow) (rows : list loc) (h : heap) :
  dom (update_rows f rows h) = dom h.
Proof.
  revert h. induction rows as [|row rows IH]; intros h; [done|].
  rewrite update_rows_cons, IH. apply dom_alter_L.
Qed.

Lemma forEach_modify_rows (f : DataRow -> DataRow) (rows : list loc) (h : heap) :
  (forall row, row ∈ rows -> exists r, h !! row = Some (CRow r)) ->
  forEach rows (fun row => modify_row row f) h = (update_rows f rows h, Ok tt).
Proof.
  revert h. induction rows as [|row rows IH]; intros h Hrows; [done|].
  rewrite update_rows_cons. simpl. rewrite bind_eq.
  destruct (Hrows row) as [r Hr]; [left|].
  rewrite (modify_row_eq _ _ _ _ Hr).
  assert (alter (on_row f) row h = <[row := CRow (f r)]> h) as ->.
  { apply map_eq. intros l. destruct (decide (row = l)) as [->|Hne].
    - by rewrite lookup_alter_eq, lookup_insert_eq, Hr.
    - by rewrite lookup_alter_ne, lookup_insert_ne. }
  apply IH. intros row' Hin. destruct (decide (row = row')) as [->|Hne].
  - exists (f r). by rewrite lookup_insert_eq.
  - rewrite lookup_insert_ne by done. apply Hrows. by right.
Qed.

Lemma delete_values_idem (name : string) (r : DataRow) :
  (fun r => with_values r (delete name (_values r)))
    (with_values r (delete name (_values r)))
  = with_values r (delete name (_values r)).
Proof.
  unfold with_values. simpl. f_equal. apply map_eq. intros k.
  destruct (decide (name = k)) as [->|Hne].
  - by rewrite !lookup_delete_eq.
  - by rewrite !lookup_delete_ne.
Qed.

Lemma insert_values_idem (name : string) (v : val) (r : DataRow) :
  (fun r => with_values r (<[name := v]> (_values r)))
    (with_values r (<[name := v]> (_values r)))
  = with_values r (<[name := v]> (_values r)).
Proof.
  unfold with_values. simpl. f_equal. apply map_eq. intros k.
  destruct (decide (name = k)) as [->|Hne].
  - by rewrite !lookup_insert_eq.
  - by rewrite !lookup_insert_ne.
Qed.

Lemma Map_set_new (cols : list DataColumn) (c : DataColumn) :
  Map_has cols (columnName c) = false -> Map_set cols c = cols ++ [c].
Proof.
  induction cols as [|x cols IH]; [done|].
  rewrite Map_has_cons. intros [Hx Hc]%orb_false_elim. simpl.
  rewrite String.eqb_sym, Hx. by rewrite IH.
Qed.

Lemma added_column_name (table : loc) (cols : list DataColumn)
    (a : column_arg) (dt : option string) :
  columnName (added_column table cols a dt) = column_arg_name a.
Proof. by destruct a. Qed.

(** [add] of a name that is new: the column goes to the end with the
    number of columns as its ordinal, and every row of the table gets
    the default value under the name. *)
Lemma add_eq (h : heap) (table : loc) (t : DataTable) (a : column_arg)
    (dt : option string) :
  h !! table = Some (CTable t) ->
  rows_are_rows h t ->
  Map_has (_columns (columns t)) (column_arg_name a) = false ->
  DataColumnCollection.add table a dt h
  = (update_rows
       (fun r => with_values r
                   (<[columnName (added_column table (_columns (columns t)) a dt) :=
                        defaultValue (added_column table (_columns (columns t)) a dt)]>
                      (_values r)))
       (_rows (rows t))
       (<[table := CTable (with_columns t
                             (_columns (columns t)
                              ++ [added_column table (_columns (columns t)) a dt]))]> h),
     Ok (added_column table (_columns (columns t)) a dt)).
Proof.
  intros Ht Hrows Hhas.
  unfold DataColumnCollection.add, get_table, read.
  rewrite bind_eq, (read_table_Some _ _ _ Ht).
  assert (columnName match a with
                     | ColumnInstance c => c
                     | ColumnName name => DataColumn.new name dt true VNull
                     end = column_arg_name a) as Hname by (by destruct a).
  rewrite Hname, Hhas.
  rewrite bind_eq. unfold put at 1.
  rewrite Map_set_new by (simpl; by rewrite Hname).
  rewrite bind_eq, forEach_modify_rows; [done|].
  intros row Hin. destruct (Hrows row Hin) as [r Hr].
  exists r. rewrite lookup_insert_ne; [done|]. intros ->. congruence.
Qed.

(** [add] of a name that is there throws and changes nothing. *)
Lemma add_duplicate (h : heap) (table : loc) (t : DataTable) (a : column_arg)
    (dt : option string) :
  h !! table = Some (CTable t) ->
  Map_has (_columns (columns t)) (column_arg_name a) = true ->
  DataColumnCollection.add table a dt h
  = (h, Throw (ColumnAlreadyExists (column_arg_name a))).
Proof.
  intros Ht Hhas.
  unfold DataColumnCollection.add, get_table, read.
  rewrite bind_eq, (read_table_Some _ _ _ Ht).
  assert (columnName match a with
                     | ColumnInstance c => c
                     | ColumnName name => DataColumn.new name dt true VNull
                     end = column_arg_name a) as Hname by (by destruct a).
  by rewrite Hname, Hhas.
Qed.

(** [remove] of a column that is there: the others keep their order
    and are numbered again from 0, and every row of the table loses the
    key. *)
Lemma remove_eq (h : heap) (table : loc) (t : DataTable) (name : string) :
  h !! table = Some (CTable t) ->
  rows_are_rows h t ->
  Map_has (_columns (columns t)) name = true ->
  DataColumnCollection.remove table name h
  = (<[table := CTable (with_columns t
                          (renumber 0 (Map_delete (_columns (columns t)) name)))]>
       (update_rows (fun r => with_values r (delete name (_values r)))
          (_rows (rows t)) h),
     Ok tt).
Proof.
  intros Ht Hrows Hhas.
  unfold DataColumnCollection.remove, get_table, read.
  rewrite bind_eq, (read_table_Some _ _ _ Ht), Hhas. simpl.
  rewrite bind_eq. unfold put at 1.
  rewrite bind_eq, forEach_modify_rows.
  2:{ intros row Hin. destruct (Hrows row Hin) as [r Hr].
      exists r. rewrite lookup_insert_ne; [done|]. intros ->. congruence. }
  erewrite modify_table_eq.
  2:{ apply update_rows_table. by rewrite lookup_insert_eq. }
  f_equal. apply map_eq. intros l.
  destruct (decide (table = l)) as [<-|Hne].
  - by rewrite !lookup_insert_eq.
  - rewrite !lookup_insert_ne by done.
    destruct (decide (l ∈ _rows (rows t))) as [Hin|Hnotin].
    + destruct (Hrows l Hin) as [r Hr].
      rewrite !(update_rows_in _ _ _ l r);
        [done|apply delete_values_idem|done..| |apply delete_values_idem|done|].
      all: by rewrite ?lookup_insert_ne.
    + rewrite !update_rows_notin by done. by rewrite lookup_insert_ne.
Qed.

Lemma remove_missing (h : heap) (table : loc) (t : DataTable) (name : string) :
  h !! table = Some (CTable t) ->
  Map_has (_columns (columns t)) name = false ->
  DataColumnCollection.remove table name h = (h, Throw (ColumnDoesNotExist name)).
Proof.
  intros Ht Hhas.
  unfold DataColumnCollection.remove, get_table, read.
  by rewrite bind_eq, (read_table_Some _ _ _ Ht), Hhas.
Qed.
End Columns.

(** ** The ordinals and the names of the columns *)

Section Ordinals.
Import DataColumnCollection.

Lemma renumber_ordinals (k : nat) (cols : list DataColumn) :
  map ordinal (renumber (Z.of_nat k) cols) = map Z.of_nat (seq k (List.length cols)).
Proof.
  revert k. induction cols as [|c cols IH]; intros k; [done|].
  simpl. f_equal. replace (Z.of_nat k + 1)%Z with (Z.of_nat (S k)) by lia.
  apply IH.
Qed.

Lemma renumber_keys (z : Z) (cols : list DataColumn) :
  Map_keys (renumber z cols) = Map_keys cols.
Proof.
  revert z. induction cols as [|c cols IH]; intros z; [done|].
  simpl. f_equal. apply IH.
Qed.

Lemma renumber_length (z : Z) (cols : list DataColumn) :
  List.length (renumber z cols) = List.length cols.
Proof.
  revert z. induction cols as [|c cols IH]; intros z; [done|].
  simpl. f_equal. apply IH.
Qed.

Lemma Map_delete_keys (cols : list DataColumn) (name : string) :
  Map_keys (Map_delete cols name)
  = List.filter (fun k => negb (String.eqb k name)) (Map_keys cols).
Proof.
  induction cols as [|c cols IH]; [done|].
  simpl. destruct (String.eqb (columnName c) name); simpl; by rewrite ?IH.
Qed.

Lemma columns_ok_nil : columns_ok [].
Proof. split; [done|constructor]. Qed.

Lemma columns_ok_add (table : loc) (cols : list DataColumn) (a : column_arg)
    (dt : option string) :
  columns_ok cols ->
  Map_has cols (column_arg_name a) = false ->
  columns_ok (cols ++ [added_column table cols a dt]).
Proof.
  intros [Hord Hnd] Hhas. split.
  - rewrite map_app, length_app, seq_app, map_app, Hord. done.
  - rewrite Map_keys_app.
    change (Map_keys [added_column table cols a dt])
      with [columnName (added_column table cols a dt)].
    rewrite added_column_name.
    apply NoDup_app. split; [done|]. split; [|apply NoDup_singleton].
    intros k Hk Hin. apply list_elem_of_singleton in Hin as ->.
    apply Map_has_true in Hk. congruence.
Qed.

Lemma columns_ok_remove (cols : list DataColumn) (name : string) :
  columns_ok cols -> columns_ok (renumber 0 (Map_delete cols name)).
Proof.
  intros [_ Hnd]. split.
  - rewrite renumber_length. apply (renumber_ordinals 0).
  - rewrite renumber_keys, Map_delete_keys. by apply filter_NoDup.
Qed.

(** One operation keeps the ordinals dense and the names unique, and
    the names after it are the names before it with the new one at the
    end, or without the one removed. *)
Lemma run_column_op_ok (h : heap) (table : loc) (t : DataTable) (op : column_op) :
  h !! table = Some (CTable t) ->
  columns_ok (_columns (columns t)) ->
  rows_are_rows h t ->
  exists t',
    run_column_op table h op !! table = Some (CTable t')
    /\ columns_ok (_columns (columns t'))
    /\ rows_are_rows (run_column_op table h op) t'
    /\ Map_keys (_columns (columns t')) = keys_step (Map_keys (_columns (columns t))) op.
Proof.
  intros Ht Hok Hrows. destruct op as [a dt|name]; simpl.
  - fold (Map_has (_columns (columns t)) (column_arg_name a)).
    destruct (Map_has (_columns (columns t)) (column_arg_name a)) eqn:Hhas.
    + rewrite (add_duplicate _ _ _ _ _ Ht Hhas). by exists t.
    + rewrite (add_eq _ _ _ _ _ Ht Hrows Hhas). simpl.
      eexists. split; [apply update_rows_table; by rewrite lookup_insert_eq|].
      split; [by apply columns_ok_add|]. split.
      * intros row Hin. destruct (Hrows row Hin) as [r Hr].
        apply (update_rows_row _ _ _ _ r).
        rewrite lookup_insert_ne; [done|]. intros ->. congruence.
      * simpl. rewrite Map_keys_app.
        change (Map_keys [added_column table (_columns (columns t)) a dt])
          with [columnName (added_column table (_columns (columns t)) a dt)].
        by rewrite added_column_name.
  - destruct (Map_has (_columns (columns t)) name) eqn:Hhas.
    + rewrite (remove_eq _ _ _ _ Ht Hrows Hhas). simpl.
      eexists. split; [by rewrite lookup_insert_eq|].
      split; [by apply columns_ok_remove|]. split.
      * intros row Hin. destruct (Hrows row Hin) as [r Hr].
        destruct (update_rows_row
                    (fun r => with_values r (delete name (_values r)))
                    (_rows (rows t)) h row r Hr) as [r' Hr'].
        exists r'. rewrite lookup_insert_ne; [done|]. intros ->.
        rewrite (update_rows_table _ _ _ _ _ Ht) in Hr'. done.
      * simpl. by rewrite renumber_keys, Map_delete_keys.
    + rewrite (remove_missing _ _ _ _ Ht Hhas). simpl. exists t.
      do 3 (split; [done|]).
      symmetry. apply forallb_filter_id. apply forallb_forall.
      intros k Hk. apply negb_true_iff, String.eqb_neq. intros ->.
      apply list_elem_of_In, Map_has_true in Hk. congruence.
Qed.

(** C4: for every table that holds its column objects alone, whose
    ordinals are dense and whose column names are unique (as they are
    in a new table, which has no column), after any sequence of column
    add and remove operations, failed ones included, the ordinals of its
    N columns are 0, ..., N-1 in the iteration order of the collection,
    the names are unique, and the names in iteration order are the
    surviving names in insertion order.  With a column object that two
    tables hold the claim fails: [add] writes the ordinal into the
    object without a look at the table that holds it, and after
    [t1.addColumn('x'); t1.addColumn(c); t2.addColumn(c)] the two
    columns of [t1] both have the ordinal 0. *)
Theorem C4_ordinals_dense_names_unique (ops : list column_op) (h : heap)
    (table : loc) (t : DataTable) :
  h !! table = Some (CTable t) ->
  columns_ok (_columns (columns t)) ->
  rows_are_rows h t ->
  (exists t',
     run_column_ops table ops h !! table = Some (CTable t')
     /\ map ordinal (_columns (columns t'))
        = map Z.of_nat (seq 0 (List.length (_columns (columns t'))))
     /\ NoDup (map columnName (_columns (columns t')))
     /\ map columnName (_columns (columns t'))
        = foldl keys_step (map columnName (_columns (columns t))) ops)
  /\ (exists s t1 t2,
        ColumnObjects.shared_column_program = (s, t1, t2)
        /\ t1 <> t2
        /\ map columnName (ColumnObjects.columns_of s t1) = ["x"; "c"]
        /\ map ordinal (ColumnObjects.columns_of s t1) = [0%Z; 0%Z]
        /\ map columnName (ColumnObjects.columns_of s t2) = ["c"]
        /\ map ordinal (ColumnObjects.columns_of s t2) = [0%Z]).
Proof.
  intros Ht Hok Hrows. split.
  - revert h t Ht Hok Hrows. induction ops as [|op ops IH]; intros h t Ht Hok Hrows.
    + exists t. destruct Hok. done.
    + destruct (run_column_op_ok h table t op Ht Hok Hrows)
        as (t1 & Ht1 & Hok1 & Hrows1 & Hkeys1).
      destruct (IH _ t1 Ht1 Hok1 Hrows1) as (t' & Ht' & Hord & Hnd & Hkeys).
      exists t'. split; [done|]. split; [done|]. split; [done|].
      simpl. rewrite Hkeys. f_equal. apply Hkeys1.
  - do 3 eexists. split; [vm_compute; reflexivity|].
    split; [done|]. repeat split; vm_compute; reflexivity.
Qed.

(** A new table has no column, so the invariant holds of it. *)
Lemma new_table_columns_ok (h : heap) (name : string) :
  exists t, (DataTable.new name h).1 !! fresh (dom h) = Some (CTable t)
            /\ (DataTable.new name h).2 = Ok (fresh (dom h))
            /\ columns_ok (_columns (columns t))
            /\ rows_are_rows (DataTable.new name h).1 t.
Proof.
  eexists. unfold DataTable.new. rewrite alloc_eq. simpl.
  rewrite lookup_insert_eq. split; [done|]. split; [done|].
  split; [apply columns_ok_nil|]. intros row Hin. by apply elem_of_nil in Hin.
Qed.
End Ordinals.

(** ** The keys of the rows under column and row operations *)

Section RowKeys.
Import DataColumnCollection.

Lemma list_to_set_filter_ne (keys : list string) (name : string) :
  (list_to_set (List.filter (fun k => negb (String.eqb k name)) keys) : gset string)
  = list_to_set keys ∖ {[name]}.
Proof.
  apply set_eq. intros k.
  rewrite elem_of_difference, !elem_of_list_to_set, filter_elem, elem_of_singleton.
  rewrite negb_true_iff, String.eqb_neq. done.
Qed.

Lemma filter_fresh (keys : list string) (name : string) :
  name ∉ keys -> List.filter (fun k => negb (String.eqb k name)) keys = keys.
Proof.
  intros Hnotin. apply forallb_filter_id, forallb_forall.
  intros k Hk. apply negb_true_iff, String.eqb_neq. intros ->.
  by apply list_elem_of_In in Hk.
Qed.

(** The rows of the table after [add]. *)
Lemma add_rows (h : heap) (table : loc) (t : DataTable) (a : column_arg)
    (dt : option string) (row : loc) (r : DataRow) :
  h !! table = Some (CTable t) ->
  rows_are_rows h t ->
  Map_has (_columns (columns t)) (column_arg_name a) = false ->
  row ∈ _rows (rows t) ->
  h !! row = Some (CRow r) ->
  (DataColumnCollection.add table a dt h).1 !! row
  = Some (CRow (with_values r
                  (<[column_arg_name a :=
                       defaultValue (added_column table (_columns (columns t)) a dt)]>
                     (_values r)))).
Proof.
  intros Ht Hrows Hhas Hin Hr.
  rewrite (add_eq _ _ _ _ _ Ht Hrows Hhas). cbn [fst].
  rewrite added_column_name.
  erewrite update_rows_in; [done|apply insert_values_idem|done|].
  rewrite lookup_insert_ne; [done|]. intros ->. congruence.
Qed.

(** The rows of the table after [remove]. *)
Lemma remove_rows (h : heap) (table : loc) (t : DataTable) (name : string)
    (row : loc) (r : DataRow) :
  h !! table = Some (CTable t) ->
  rows_are_rows h t ->
  Map_has (_columns (columns t)) name = true ->
  row ∈ _rows (rows t) ->
  h !! row = Some (CRow r) ->
  (DataColumnCollection.remove table name h).1 !! row
  = Some (CRow (with_values r (delete name (_values r)))).
Proof.
  intros Ht Hrows Hhas Hin Hr.
  rewrite (remove_eq _ _ _ _ Ht Hrows Hhas). simpl.
  rewrite lookup_insert_ne by (intros ->; congruence).
  by erewrite update_rows_in; [|apply delete_values_idem|..].
Qed.

Lemma keys_ok_rows (h : heap) (t : DataTable) : keys_ok h t -> rows_are_rows h t.
Proof. intros Hk row Hin. destruct (Hk row Hin) as (r & Hr & _). eauto. Qed.

Lemma keys_ok_add (h : heap) (table : loc) (t : DataTable) (a : column_arg)
    (dt : option string) :
  h !! table = Some (CTable t) ->
  Map_has (_columns (columns t)) (column_arg_name a) = false ->
  keys_ok h t ->
  keys_ok (DataColumnCollection.add table a dt h).1
    (with_columns t (_columns (columns t)
                     ++ [added_column table (_columns (columns t)) a dt])).
Proof.
  intros Ht Hhas Hk row Hin. destruct (Hk row Hin) as (r & Hr & Hdom).
  eexists. split;
    [exact (add_rows h table t a dt row r Ht (keys_ok_rows _ _ Hk) Hhas Hin Hr)|].
  simpl. rewrite dom_insert_L, Hdom, Map_keys_app, list_to_set_app_L.
  change (Map_keys [added_column table (_columns (columns t)) a dt])
    with [columnName (added_column table (_columns (columns t)) a dt)].
  rewrite added_column_name. simpl. rewrite (right_id_L ∅ (∪)). apply (comm_L (∪)).
Qed.

Lemma keys_ok_remove (h : heap) (table : loc) (t : DataTable) (name : string) :
  h !! table = Some (CTable t) ->
  Map_has (_columns (columns t)) name = true ->
  keys_ok h t ->
  keys_ok (DataColumnCollection.remove table name h).1
    (with_columns t (renumber 0 (Map_delete (_columns (columns t)) name))).
Proof.
  intros Ht Hhas Hk row Hin. destruct (Hk row Hin) as (r & Hr & Hdom).
  eexists. split;
    [exact (remove_rows h table t name row r Ht (keys_ok_rows _ _ Hk) Hhas Hin Hr)|].
  simpl. by rewrite dom_delete_L, Hdom, renumber_keys, Map_delete_keys,
    list_to_set_filter_ne.
Qed.

(** [addRow] of a value that is not a row, an array or an object: a new
    row with the default values, appended. *)
Lemma addRow_other_eq (h : heap) (table : loc) (t : DataTable) :
  h !! table = Some (CTable t) ->
  DataTable.addRow table RowOther h
  = (<[table := CTable (with_rows t (_rows (rows t) ++ [fresh (dom h)]))]>
       (<[fresh (dom h) :=
            CRow {| _table := table;
                    _values := DataRow.initial_values (_columns (columns t));
                    _rowState := DataRowState.ADDED;
                    _originalValues := ∅ |}]> h),
     Ok (fresh (dom h))).
Proof.
  intros Ht. unfold DataTable.addRow, DataRowCollection.add.
  rewrite bind_eq, (new_row_eq _ _ _ Ht), bind_eq.
  erewrite modify_table_eq; [done|].
  rewrite lookup_insert_ne; [done|]. by apply not_eq_sym, (fresh_ne h table (CTable t)).
Qed.

(** [addRow] of a [DataRow] instance: the instance is appended as it
    is. *)
Lemma addRow_instance_eq (h : heap) (table : loc) (t : DataTable) (row : loc) :
  h !! table = Some (CTable t) ->
  DataTable.addRow table (RowInstance row) h
  = (<[table := CTable (with_rows t (_rows (rows t) ++ [row]))]> h, Ok row).
Proof.
  intros Ht. unfold DataTable.addRow, DataRowCollection.add.
  rewrite bind_eq. unfold ret at 1. rewrite bind_eq.
  by erewrite modify_table_eq.
Qed.

(** The loop of [add] over the columns, for an array. *)
Lemma add_elements_eq (h : heap) (newRow : loc) (r : DataRow) (vals : list val)
    (entries : list (nat * DataColumn)) :
  h !! newRow = Some (CRow r) ->
  forEach entries (fun '(index, col) =>
    modify_row newRow (fun r =>
      with_values r
        (<[columnName col := default VUndefined (vals !! index)]> (_values r)))) h
  = (<[newRow := CRow (with_values r (foldl (add_element vals) (_values r) entries))]> h,
     Ok tt).
Proof.
  revert h r. induction entries as [|[index col] entries IH]; intros h r Hr; simpl.
  - unfold ret. by rewrite with_values_values, insert_id.
  - rewrite bind_eq, (modify_row_eq _ _ _ _ Hr).
    rewrite (IH _ (with_values r (<[columnName col := default VUndefined (vals !! index)]>
                                    (_values r)))).
    + by rewrite insert_insert_eq.
    + by rewrite lookup_insert_eq.
Qed.

Lemma add_elements_dom (vals : list val) (entries : list (nat * DataColumn))
    (init : gmap string val) :
  dom (foldl (add_element vals) init entries)
  = dom init ∪ list_to_set (Map_keys entries.*2).
Proof.
  revert init. induction entries as [|[index col] entries IH]; intros init; simpl.
  - by rewrite (right_id_L ∅ (∪)).
  - rewrite IH. unfold add_element at 1. simpl. rewrite dom_insert_L.
    rewrite (comm_L (∪) {[columnName col]} (dom init)).
    by rewrite (assoc_L (∪)).
Qed.

Lemma imap_pair_snd {A} (l : list A) : (imap pair l).*2 = l.
Proof.
  assert (forall g : nat -> nat, (imap (fun i x => (g i, x)) l).*2 = l) as Hg.
  { induction l as [|x l IH]; intros g; [done|].
    simpl. f_equal. apply (IH (g ∘ S)). }
  apply (Hg id).
Qed.

Lemma addRow_array_eq (h : heap) (table : loc) (t : DataTable) (vals : list val) :
  h !! table = Some (CTable t) ->
  exists r,
    DataTable.addRow table (RowArray vals) h
    = (<[table := CTable (with_rows t (_rows (rows t) ++ [fresh (dom h)]))]>
         (<[fresh (dom h) := CRow r]> h),
       Ok (fresh (dom h)))
    /\ _table r = table
    /\ dom (_values r) = list_to_set (Map_keys (_columns (columns t))).
Proof.
  intros Ht.
  set (row := fresh (dom h)).
  set (r0 := {| _table := table;
                _values := DataRow.initial_values (_columns (columns t));
                _rowState := DataRowState.ADDED; _originalValues := ∅ |}).
  assert (table <> row) as Hne by (by apply (fresh_ne h table (CTable t))).
  exists (with_values r0 (foldl (add_element vals) (_values r0)
                            (imap pair (_columns (columns t))))).
  split; [|split; [done|]].
  - unfold DataTable.addRow, DataRowCollection.add.
    rewrite !bind_eq, (new_row_eq _ _ _ Ht). fold row r0.
    rewrite bind_eq. unfold get_table at 1, read at 1.
    rewrite (read_table_Some _ table t) by (by rewrite lookup_insert_ne).
    rewrite bind_eq, (add_elements_eq _ row r0) by (by rewrite lookup_insert_eq).
    unfold ret at 1. rewrite insert_insert_eq, bind_eq.
    erewrite modify_table_eq; [done|]. by rewrite lookup_insert_ne.
  - simpl. rewrite add_elements_dom, imap_pair_snd, initial_values_dom.
    apply (idemp_L (∪)).
Qed.

(** [addRow] of an array, an object or another value keeps the keys of
    the rows of the table equal to its column names. *)
Lemma keys_ok_addRow (h : heap) (table : loc) (t : DataTable) (values : row_arg) :
  h !! table = Some (CTable t) ->
  NoDup (Map_keys (_columns (columns t))) ->
  (forall row, values <> RowInstance row) ->
  values <> RowNull ->
  keys_ok h t ->
  exists h' row,
    DataTable.addRow table values h = (h', Ok row)
    /\ h' !! table = Some (CTable (with_rows t (_rows (rows t) ++ [row])))
    /\ keys_ok h' (with_rows t (_rows (rows t) ++ [row])).
Proof.
  intros Ht Hnd Hinst Hnull Hk.
  assert (forall r,
    dom (_values r) = list_to_set (Map_keys (_columns (columns t))) ->
    keys_ok (<[table := CTable (with_rows t (_rows (rows t) ++ [fresh (dom h)]))]>
               (<[fresh (dom h) := CRow r]> h))
            (with_rows t (_rows (rows t) ++ [fresh (dom h)]))) as Hkeys.
  { intros r Hdom row Hin. simpl in Hin.
    apply elem_of_app in Hin as [Hin|Hin].
    - destruct (Hk row Hin) as (r' & Hr' & Hdom').
      exists r'. split; [|done].
      rewrite !lookup_insert_ne; [done|..].
      + intros <-. by rewrite fresh_lookup in Hr'.
      + intros ->. congruence.
    - apply list_elem_of_singleton in Hin as ->.
      exists r. split; [|done].
      rewrite lookup_insert_ne by (by apply (fresh_ne h table (CTable t))).
      by rewrite lookup_insert_eq. }
  destruct values as [row|vals|entries| |].
  - by destruct (Hinst row).
  - destruct (addRow_array_eq h table t vals Ht) as (r & Heq & _ & Hdom).
    eexists _, _. split; [exact Heq|]. split; [by rewrite lookup_insert_eq|].
    by apply Hkeys.
  - pose proof (object_row_unknown table (_columns (columns t)) entries) as Hunknown.
    pose proof (object_row_known table (_columns (columns t)) entries) as Hknown.
    pose proof (fun k c => object_row_default table (_columns (columns t)) entries k c Hnd)
      as Hdefault.
    eexists _, _. split; [by apply addRow_object_store|].
    split; [by rewrite lookup_insert_eq|].
    apply Hkeys. apply set_eq. intros k.
    rewrite elem_of_dom, elem_of_list_to_set, <- Map_has_true.
    destruct (Map_has (_columns (columns t)) k) eqn:Hhas.
    + split; [done|]. intros _.
      apply Map_get_has in Hhas as Hget. destruct Hget as [c Hget].
      destruct (entries !! k) as [v|] eqn:Hv.
      * rewrite (Hknown k v Hhas Hv). eauto.
      * rewrite (Hdefault k c Hget Hv). eauto.
    + rewrite (Hunknown k Hhas). split; [by intros [? ?]|done].
  - done.
  - rewrite (addRow_other_eq _ _ _ Ht).
    eexists _, _. split; [done|]. split; [by rewrite lookup_insert_eq|].
    apply Hkeys. simpl. apply initial_values_dom.
Qed.
End RowKeys.

Section ColumnDefaults.
Context `{Engine}.
Import DataColumnCollection.

Lemma Map_delete_last (cols : list DataColumn) (c : DataColumn) :
  Map_has cols (columnName c) = false ->
  Map_delete (cols ++ [c]) (columnName c) = cols.
Proof.
  intros Hhas. unfold Map_delete. rewrite List.filter_app. simpl.
  rewrite String.eqb_refl. simpl. rewrite app_nil_r.
  apply forallb_filter_id, forallb_forall. intros x Hx.
  apply negb_true_iff, String.eqb_neq. intros Heq.
  assert (Map_has cols (columnName c) = true); [|congruence].
  apply Map_has_true. rewrite <- Heq.
  apply list_elem_of_fmap. exists x. split; [done|]. by apply list_elem_of_In.
Qed.

(** A [DataRow] instance is appended as it is: the keys of the rows stay
    the column names exactly when the instance has them as its keys. *)
Lemma keys_ok_addRow_instance (h : heap) (table : loc) (t : DataTable)
    (row : loc) (r : DataRow) :
  h !! table = Some (CTable t) ->
  h !! row = Some (CRow r) ->
  keys_ok h t ->
  keys_ok (DataTable.addRow table (RowInstance row) h).1
          (with_rows t (_rows (rows t) ++ [row]))
  <-> dom (_values r) = list_to_set (Map_keys (_columns (columns t))).
Proof.
  intros Ht Hr Hk. rewrite (addRow_instance_eq _ _ _ _ Ht). cbn [fst].
  assert (table <> row) as Hne by (intros ->; congruence).
  split.
  - intros Hk'. destruct (Hk' row) as (r' & Hr' & Hdom').
    + simpl. apply elem_of_app. right. left.
    + rewrite lookup_insert_ne, Hr in Hr' by done. by simplify_eq.
  - intros Hdom row' Hin. simpl in Hin. apply elem_of_app in Hin as [Hin|Hin].
    + destruct (Hk row' Hin) as (r' & Hr' & Hdom').
      exists r'. split; [|done]. rewrite lookup_insert_ne; [done|].
      intros ->. congruence.
    + apply list_elem_of_singleton in Hin as ->.
      exists r. split; [|done]. by rewrite lookup_insert_ne.
Qed.

(** [set] on a row of the table does not change the keys. *)
Lemma keys_ok_set (h h' : heap) (table : loc) (t : DataTable) (row : loc)
    (r : DataRow) (name : string) (v : val) :
  h !! table = Some (CTable t) ->
  h !! row = Some (CRow r) ->
  _table r = table ->
  row ∈ _rows (rows t) ->
  keys_ok h t ->
  DataRow.set row name v h = (h', Ok tt) ->
  h' !! table = Some (CTable t) /\ keys_ok h' t.
Proof.
  intros Ht Hr Htab Hin Hk Hset. subst table.
  rewrite (row_set_eq _ _ _ _ _ _ Hr Ht) in Hset.
  destruct (Map_get (_columns (columns t)) name) as [column|] eqn:Hget; [|done].
  destruct (is_null v && negb (allowNull column)); [done|].
  destruct (DataRow.coerce column name v) as [v'|]; [|done].
  destruct (hasOwnProperty (_originalValues r) name); [|done].
  injection Hset as <-.
  assert (_table r <> row) as Hne by (intros Heq; rewrite Heq in Ht; congruence).
  split; [by rewrite lookup_insert_ne|].
  intros row' Hin'. destruct (decide (row = row')) as [<-|Hne'].
  - destruct (Hk row Hin) as (r' & Hr' & Hdom). simplify_eq.
    eexists. rewrite lookup_insert_eq. split; [done|].
    simpl. rewrite dom_insert_L, Hdom.
    apply subseteq_union_1_L, singleton_subseteq_l.
    apply elem_of_list_to_set, Map_has_true, Map_get_has. eauto.
  - destruct (Hk row' Hin') as (r' & Hr' & Hdom).
    exists r'. by rewrite lookup_insert_ne.
Qed.

(** C5, as amended: on a table with no column named [__proto__], adding
    a column of another name than [__proto__] writes the default value
    of the column into the value map of every row that the row array of
    the table holds; a row created afterwards has the default value
    under the column; removing the column afterwards deletes the key
    from the value map of every row of the row array and leaves the
    other keys as they were.  Step by step: if the keys of every row of
    the row array are the column names of the table before the step,
    they still are after this add and after this remove, after one
    [addRow] of an array, an object or no value, and after one [set] on
    a row of the table; an [addRow] of a [DataRow] instance appends the
    instance as it is, so the keys stay the column names exactly when
    the instance has them as its keys.  The statement is on one table
    and one step: a row that the row array of another table holds as
    well is written by the column operations of that table too. *)
Theorem C5_column_default_in_rows (h : heap) (table : loc) (t : DataTable)
    (a : column_arg) (dt : option string) :
  h !! table = Some (CTable t) ->
  rows_are_rows h t ->
  Map_has (_columns (columns t)) (column_arg_name a) = false ->
  assignable (column_arg_name a) ->
  assignable_columns (_columns (columns t)) ->
  exists h1 h3,
    DataTable.addColumn table a dt h
      = (h1, Ok (added_column table (_columns (columns t)) a dt))
    /\ h1 !! table
       = Some (CTable (with_columns t
                         (_columns (columns t)
                          ++ [added_column table (_columns (columns t)) a dt])))
    /\ (forall row r, row ∈ _rows (rows t) -> h !! row = Some (CRow r) ->
          h1 !! row
          = Some (CRow (with_values r
                          (<[column_arg_name a :=
                               defaultValue (added_column table (_columns (columns t)) a dt)]>
                             (_values r)))))
    /\ (exists h2 r2,
          DataTable.newRow table h1 = (h2, Ok (fresh (dom h1)))
          /\ h2 !! fresh (dom h1) = Some (CRow r2)
          /\ _values r2 !! column_arg_name a
             = Some (defaultValue (added_column table (_columns (columns t)) a dt))
          /\ dom (_values r2)
             = list_to_set (Map_keys (_columns (columns t)) ++ [column_arg_name a]))
    /\ DataTable.removeColumn table (column_arg_name a) h1 = (h3, Ok tt)
    /\ h3 !! table = Some (CTable (with_columns t (renumber 0 (_columns (columns t)))))
    /\ (forall row r, row ∈ _rows (rows t) -> h !! row = Some (CRow r) ->
          h3 !! row = Some (CRow (with_values r (delete (column_arg_name a) (_values r)))))
    /\ (keys_ok h t ->
        keys_ok h1 (with_columns t
                      (_columns (columns t)
                       ++ [added_column table (_columns (columns t)) a dt]))
        /\ keys_ok h3 (with_columns t (renumber 0 (_columns (columns t))))
        /\ (NoDup (Map_keys (_columns (columns t))) ->
            forall values,
              (forall row, values <> RowInstance row) -> values <> RowNull ->
              exists h' row,
                DataTable.addRow table values h = (h', Ok row)
                /\ keys_ok h' (with_rows t (_rows (rows t) ++ [row])))
        /\ (forall row r, h !! row = Some (CRow r) ->
              keys_ok (DataTable.addRow table (RowInstance row) h).1
                      (with_rows t (_rows (rows t) ++ [row]))
              <-> dom (_values r) = list_to_set (Map_keys (_columns (columns t))))
        /\ (forall row r name v h',
              h !! row = Some (CRow r) -> _table r = table -> row ∈ _rows (rows t) ->
              DataRow.set row name v h = (h', Ok tt) -> keys_ok h' t)).
Proof.
  intros Ht Hrows Hhas _ _.
  set (column := added_column table (_columns (columns t)) a dt).
  set (t1 := with_columns t (_columns (columns t) ++ [column])).
  assert (columnName column = column_arg_name a) as Hname
    by apply added_column_name.
  pose proof (add_eq _ _ _ a dt Ht Hrows Hhas) as Hadd. fold column in Hadd.
  set (h1 := (DataColumnCollection.add table a dt h).1).
  assert (DataColumnCollection.add table a dt h = (h1, Ok column)) as Hadd1
    by (unfold h1; by rewrite Hadd).
  assert (h1 !! table = Some (CTable t1)) as Ht1.
  { unfold h1. rewrite Hadd. cbn [fst].
    apply update_rows_table. by rewrite lookup_insert_eq. }
  assert (forall row r, row ∈ _rows (rows t) -> h !! row = Some (CRow r) ->
            h1 !! row = Some (CRow (with_values r
                          (<[column_arg_name a := defaultValue column]> (_values r)))))
    as Hfill.
  { intros row r Hin Hr. by apply add_rows. }
  assert (rows_are_rows h1 t1) as Hrows1.
  { intros row Hin. destruct (Hrows row Hin) as [r Hr].
    eexists. by apply Hfill. }
  assert (Map_has (_columns (columns t1)) (column_arg_name a) = true) as Hhas1.
  { simpl. rewrite Map_has_app. apply orb_true_intro. right.
    rewrite Map_has_cons, Hname, String.eqb_refl. done. }
  pose proof (remove_eq _ _ _ _ Ht1 Hrows1 Hhas1) as Hrem.
  assert (Map_delete (_columns (columns t1)) (column_arg_name a) = _columns (columns t))
    as Hdel.
  { simpl. rewrite <- Hname. apply Map_delete_last. by rewrite Hname. }
  rewrite Hdel in Hrem.
  set (h3 := (DataColumnCollection.remove table (column_arg_name a) h1).1).
  assert (forall row r, row ∈ _rows (rows t) -> h !! row = Some (CRow r) ->
            h3 !! row = Some (CRow (with_values r (delete (column_arg_name a) (_values r)))))
    as Hstrip.
  { intros row r Hin Hr. unfold h3.
    rewrite (remove_rows h1 table t1 _ row _ Ht1 Hrows1 Hhas1 Hin (Hfill row r Hin Hr)).
    simpl. do 2 f_equal. unfold with_values. simpl. f_equal.
    apply delete_insert_eq. }
  exists h1, h3.
  split; [exact Hadd1|]. split; [exact Ht1|]. split; [exact Hfill|].
  split; [|split; [|split; [|split]]].
  - eexists _, _. unfold DataTable.newRow.
    rewrite (new_row_eq _ _ _ Ht1). split; [done|].
    rewrite lookup_insert_eq. split; [done|]. simpl. split.
    + rewrite initial_values_snoc, Hname. by rewrite lookup_insert_eq.
    + rewrite initial_values_dom, Map_keys_app.
      change (Map_keys [column]) with [columnName column]. by rewrite Hname.
  - unfold DataTable.removeColumn, h3. by rewrite Hrem.
  - unfold h3. rewrite Hrem. cbn [fst]. by rewrite lookup_insert_eq.
  - exact Hstrip.
  - intros Hk. split; [|split; [|split; [|split]]].
    + unfold h1. by apply keys_ok_add.
    + intros row Hin. destruct (Hk row Hin) as (r & Hr & Hdom).
      eexists. split; [by apply Hstrip|]. simpl.
      rewrite dom_delete_L, Hdom, renumber_keys.
      apply difference_disjoint_L, disjoint_singleton_r.
      rewrite elem_of_list_to_set, <- Map_has_true. congruence.
    + intros Hnd values Hinst Hnull.
      destruct (keys_ok_addRow h table t values Ht Hnd Hinst Hnull Hk)
        as (h' & row & Heq & _ & Hk').
      eauto.
    + intros row r Hr. by apply keys_ok_addRow_instance.
    + intros row r name v h' Hr Htab Hin Hset.
      by destruct (keys_ok_set h h' table t row r name v Ht Hr Htab Hin Hk Hset).
Qed.
End ColumnDefaults.

(** C5, the claim as stated fails: a row built by [newRow] before the
    column [b] is added, and added to the table after it, is a row of the
    table without the key [b], while [b] is a column of the table. *)
Lemma C5_stale_row_lacks_the_key :
  exists h table row t r,
    stale_row_program ∅ = (h, Ok (table, row))
    /\ h !! table = Some (CTable t)
    /\ row ∈ _rows (rows t)
    /\ h !! row = Some (CRow r)
    /\ DataColumnCollection.Map_keys (_columns (columns t)) = ["a"; "b"]
    /\ _values r !! "a" = Some VNull
    /\ _values r !! "b" = None
    /\ DataRow.get h row (KString "b") = Ok VUndefined.
Proof.
  do 5 eexists. split; [vm_compute; reflexivity|].
  split; [vm_compute; reflexivity|].
  split; [left|].
  repeat split; vm_compute; reflexivity.
Qed.

(** ** [clone] and the temporary table of a sorted view *)

Section Clone.
Context `{Engine}.
Import DataColumnCollection.

Lemma with_columns_columns (t : DataTable) : with_columns t (_columns (columns t)) = t.
Proof. by destruct t as [? ? [?] ?]. Qed.

Lemma with_rows_rows (t : DataTable) : with_rows t (_rows (rows t)) = t.
Proof. by destruct t as [? [?] ? ?]. Qed.

Lemma clone_columns_keys (tmp : loc) (n : nat) (cols : list DataColumn) :
  Map_keys (clone_columns_from tmp n cols) = Map_keys cols.
Proof.
  revert n. induction cols as [|c cols IH]; intros n; [done|].
  simpl. f_equal. apply IH.
Qed.

(** The loop of [clone] over the columns: the new table, which has no
    row, gets the copies of the columns in order. *)
Lemma clone_columns_loop (cs : list DataColumn) (g : heap) (tmp : loc) (nt : DataTable) :
  g !! tmp = Some (CTable nt) ->
  _rows (rows nt) = [] ->
  NoDup (Map_keys (_columns (columns nt)) ++ Map_keys cs) ->
  forEach cs (fun col =>
    let! _ := DataColumnCollection.add tmp (ColumnInstance (DataTable.clone_column col)) None in
    ret tt) g
  = (<[tmp := CTable (with_columns nt
                      (_columns (columns nt)
                       ++ clone_columns_from tmp (List.length (_columns (columns nt))) cs))]> g,
     Ok tt).
Proof.
  revert g nt. induction cs as [|c cs IH]; intros g nt Htt Hrows Hnd.
  - simpl. unfold ret. by rewrite app_nil_r, with_columns_columns, insert_id.
  - simpl. rewrite !bind_eq.
    assert (Map_has (_columns (columns nt))
              (column_arg_name (ColumnInstance (DataTable.clone_column c))) = false)
      as Hfresh.
    { apply not_true_iff_false. intros Hin%Map_has_true.
      apply NoDup_app in Hnd as (_ & Hdisj & _).
      apply (Hdisj _ Hin). simpl. left. }
    rewrite (add_eq g tmp nt (ColumnInstance (DataTable.clone_column c)) None Htt);
      [| |done].
    2:{ intros row Hin. rewrite Hrows in Hin. by apply elem_of_nil in Hin. }
    rewrite Hrows. unfold update_rows. simpl foldl. unfold ret at 1.
    set (nt1 := with_columns nt
                  (_columns (columns nt)
                   ++ [added_column tmp (_columns (columns nt))
                         (ColumnInstance (DataTable.clone_column c)) None])).
    rewrite (IH _ nt1).
    + rewrite insert_insert_eq. simpl. rewrite length_app. simpl.
      rewrite Nat.add_1_r, <- app_assoc. done.
    + by rewrite lookup_insert_eq.
    + done.
    + simpl. rewrite Map_keys_app, <- app_assoc. exact Hnd.
Qed.

(** The loop of [clone] over the rows: every write is to the new table
    or to a row that the loop allocates. *)
Lemma clone_rows_loop (rs : list loc) (g : heap) (tmp : loc) (nt : DataTable) :
  g !! tmp = Some (CTable nt) ->
  (forall row, row ∈ rs -> exists r, g !! row = Some (CRow r)) ->
  exists g' rows',
    forEach rs (fun row =>
      let! newRow := DataTable.newRow tmp in
      let! r := get_row row in
      let! _ := modify_row newRow (fun n =>
                  {| _table := _table n;
                     _values := _values r ∪ _values n;
                     _rowState := _rowState r;
                     _originalValues := _originalValues r ∪ _originalValues n |}) in
      let! _ := DataRowCollection.add tmp (RowInstance newRow) in
      ret tt) g
    = (g', Ok tt)
    /\ g' !! tmp = Some (CTable (with_rows nt rows'))
    /\ (forall l c, l <> tmp -> g !! l = Some c -> g' !! l = Some c).
Proof.
  revert g nt. induction rs as [|row rs IH]; intros g nt Htt Hrs.
  - exists g, (_rows (rows nt)). simpl. by rewrite with_rows_rows.
  - destruct (Hrs row) as [r Hr]; [left|].
    set (newRow := fresh (dom g)).
    assert (tmp <> newRow) as Hne1 by (by apply (fresh_ne g tmp (CTable nt))).
    assert (row <> newRow) as Hne2 by (by apply (fresh_ne g row (CRow r))).
    simpl. rewrite bind_eq. unfold DataTable.newRow.
    rewrite !bind_eq, (new_row_eq _ _ _ Htt). fold newRow.
    rewrite bind_eq. unfold get_row at 1, read at 1.
    rewrite (read_row_Some _ row r) by (by rewrite lookup_insert_ne).
    rewrite bind_eq.
    erewrite modify_row_eq by (by rewrite lookup_insert_eq).
    rewrite insert_insert_eq, bind_eq.
    unfold DataRowCollection.add. rewrite bind_eq. unfold ret at 1. rewrite bind_eq.
    erewrite modify_table_eq by (by rewrite lookup_insert_ne).
    unfold ret at 1. unfold ret at 1.
    match goal with
    | |- context [forEach rs ?body ?g1] =>
        destruct (IH g1 (with_rows nt (_rows (rows nt) ++ [newRow])))
          as (g' & rows' & Heq & Htt' & Hframe)
    end.
    + by rewrite lookup_insert_eq.
    + intros row' Hin. destruct (Hrs row') as [r' Hr']; [by right|].
      exists r'. rewrite !lookup_insert_ne; [done|..].
      * by apply not_eq_sym, (fresh_ne g row' (CRow r')).
      * intros ->. congruence.
    + exists g', rows'. split; [exact Heq|]. split; [exact Htt'|].
      intros l c Hl Hc. apply Hframe; [done|].
      rewrite !lookup_insert_ne; [done|..]; [|done].
      by apply not_eq_sym, (fresh_ne g l c).
Qed.

(** [clone] of a well-formed table succeeds: the new table is at a
    fresh location and has the copies of the columns, and the cells of
    the store are as they were. *)
Lemma clone_eq (h : heap) (table : loc) (t : DataTable) :
  table_ok h table t ->
  exists h' rows',
    DataTable.clone table h = (h', Ok (fresh (dom h)))
    /\ h' !! fresh (dom h)
       = Some (CTable {| tableName := tableName t;
                         rows := {| _rows := rows' |};
                         columns := {| _columns := cloned_columns (fresh (dom h))
                                                     (_columns (columns t)) |};
                         caseSensitive := caseSensitive t |})
    /\ (forall l c, h !! l = Some c -> h' !! l = Some c).
Proof.
  intros (Ht & Hnd & Hrows).
  set (tmp := fresh (dom h)).
  set (nt0 := {| tableName := tableName t; rows := {| _rows := [] |};
                 columns := {| _columns := [] |}; caseSensitive := false |}).
  unfold DataTable.clone, get_table, read.
  rewrite bind_eq, (read_table_Some _ _ _ Ht), bind_eq.
  unfold DataTable.new. rewrite alloc_eq. fold tmp nt0.
  rewrite bind_eq, (clone_columns_loop _ _ tmp nt0);
    [|by rewrite lookup_insert_eq|done|done].
  rewrite insert_insert_eq. simpl "++". fold (cloned_columns tmp (_columns (columns t))).
  set (nt1 := with_columns nt0 (cloned_columns tmp (_columns (columns t)))).
  destruct (clone_rows_loop (_rows (rows t)) (<[tmp := CTable nt1]> h) tmp nt1)
    as (g' & rows' & Heq & Htt' & Hframe).
  { by rewrite lookup_insert_eq. }
  { intros row Hin. destruct (Hrows row Hin) as (r & Hr & _).
    exists r. rewrite lookup_insert_ne; [done|].
    by apply not_eq_sym, (fresh_ne h row (CRow r)). }
  rewrite bind_eq, Heq, bind_eq.
  erewrite modify_table_eq by exact Htt'.
  exists (<[tmp := CTable {| tableName := tableName t; rows := {| _rows := rows' |};
                            columns := {| _columns := cloned_columns tmp (_columns (columns t)) |};
                            caseSensitive := caseSensitive t |}]> g'), rows'.
  split; [done|]. split; [by rewrite lookup_insert_eq|].
  intros l c Hl.
  assert (l <> tmp) as Hne by (by apply (fresh_ne h l c)).
  rewrite lookup_insert_ne by done. apply Hframe; [done|].
  by rewrite lookup_insert_ne.
Qed.
End Clone.

Section CloneWithRows.
Context `{Engine}.
Import DataColumnCollection.

(** [set] on a row of the store is [set_in] on its record. *)
Lemma row_set_in (h : heap) (row : loc) (r : DataRow) (t : DataTable)
    (name : string) (v : val) :
  h !! row = Some (CRow r) ->
  h !! _table r = Some (CTable t) ->
  DataRow.set row name v h
  = match set_in (_columns (columns t)) r name v with
    | Ok r' => (<[row := CRow r']> h, Ok tt)
    | Throw e => (h, Throw e)
    end.
Proof.
  intros Hrow Htable. rewrite (row_set_eq _ _ _ _ _ _ Hrow Htable). unfold set_in.
  destruct (Map_get (_columns (columns t)) name) as [column|]; [|done].
  destruct (is_null v && negb (allowNull column)); [done|].
  destruct (DataRow.coerce column name v); [|done]. simpl.
  by destruct (hasOwnProperty (_originalValues r) name).
Qed.

Lemma set_in_table (cols : list DataColumn) (r r' : DataRow) (name : string) (v : val) :
  set_in cols r name v = Ok r' -> _table r' = _table r.
Proof.
  unfold set_in. destruct (Map_get cols name) as [column|]; [|done].
  destruct (is_null v && negb (allowNull column)); [done|].
  destruct (DataRow.coerce column name v); [|done]. simpl.
  destruct (hasOwnProperty (_originalValues r) name); [|done].
  by intros [= <-].
Qed.

Lemma copy_cells_table (cols' : list DataColumn) (vals : gmap string val)
    (cs : list DataColumn) (r r' : DataRow) :
  copy_cells cols' vals r cs = Ok r' -> _table r' = _table r.
Proof.
  revert r. induction cs as [|c cs IH]; intros r; simpl; [by intros [= <-]|].
  destruct (set_in cols' r (columnName c) (default VUndefined (vals !! columnName c)))
    as [r1|] eqn:Hset; [|done].
  simpl. intros Hc. rewrite (IH _ Hc). by apply set_in_table in Hset.
Qed.

(** The inner loop of [_cloneTableWithRows], on the columns [cs] of the
    table of the view: it writes to the new row only, and what it
    writes is [copy_cells]. *)
Lemma copy_cells_loop (cs : list DataColumn) (g : heap) (newRow row table tmp : loc)
    (r s : DataRow) (t nt : DataTable) :
  g !! tmp = Some (CTable nt) ->
  g !! table = Some (CTable t) ->
  g !! row = Some (CRow s) ->
  _table s = table ->
  _table r = tmp ->
  newRow <> tmp -> newRow <> table -> newRow <> row ->
  (forall c, c ∈ cs -> Map_has (_columns (columns t)) (columnName c) = true) ->
  exists r'' ,
    forEach cs (fun column =>
      let! v := read (fun h => DataRow.get h row (KString (columnName column))) in
      DataRow.set newRow (columnName column) v) (<[newRow := CRow r]> g)
    = (<[newRow := CRow r'']> g,
       outcome_map (fun _ => tt) (copy_cells (_columns (columns nt)) (_values s) r cs))
    /\ _table r'' = tmp
    /\ (forall r', copy_cells (_columns (columns nt)) (_values s) r cs = Ok r' -> r'' = r').
Proof.
  intros Htmp Htable Hrow Hs Hr Hne1 Hne2 Hne3.
  revert r Hr. induction cs as [|c cs IH]; intros r Hr Hcs.
  - exists r. simpl. split; [done|]. split; [done|]. by intros r' [= <-].
  - simpl. rewrite bind_eq. unfold read at 1. rewrite bind_eq.
    assert (DataRow.get (<[newRow := CRow r]> g) row (KString (columnName c))
            = Ok (default VUndefined (_values s !! columnName c))) as ->.
    { unfold DataRow.get, read_row, read_table.
      rewrite lookup_insert_ne, Hrow by done. simpl.
      rewrite Hs, lookup_insert_ne, Htable by done. simpl.
      assert (Map_has (_columns (columns t)) (columnName c) = true) as Hhas
        by (apply Hcs; left).
      unfold Map_has in Hhas. by rewrite Hhas. }
    rewrite (row_set_in _ newRow r nt);
      [|by rewrite lookup_insert_eq|by rewrite Hr, lookup_insert_ne].
    destruct (set_in (_columns (columns nt)) r (columnName c)
                (default VUndefined (_values s !! columnName c))) as [r1|e] eqn:Hset.
    + rewrite insert_insert_eq. simpl.
      apply IH.
      * apply set_in_table in Hset. congruence.
      * intros c' Hin. apply Hcs. by right.
    + exists r. simpl. split; [done|]. split; [done|]. done.
Qed.

(** A [mapM] that throws at the head, or at the tail. *)
Lemma outcome_mapM_cons {A B} (f : A -> outcome B) (x : A) (l : list A) :
  outcome_mapM f (x :: l)
  = match f x with
    | Ok y => match outcome_mapM f l with
              | Ok ys => Ok (y :: ys)
              | Throw e => Throw e
              end
    | Throw e => Throw e
    end.
Proof. simpl. destruct (f x); [|done]. simpl. by destruct (outcome_mapM f l). Qed.

(** The outer loop of [_cloneTableWithRows]: for each source row a row
    is allocated, filled and appended to the temporary table.  Every
    write is to the temporary table or to a row that the loop
    allocates; the outcome is the outcome of [copy_rows], and when it
    succeeds the new rows hold its records. *)
Lemma copy_rows_loop (S : loc -> DataRow) (srcs : list loc) (g : heap)
    (table tmp : loc) (t nt : DataTable) :
  g !! tmp = Some (CTable nt) ->
  g !! table = Some (CTable t) ->
  table <> tmp ->
  (forall c, c ∈ _columns (columns t) ->
             Map_has (_columns (columns t)) (columnName c) = true) ->
  (forall row, row ∈ srcs -> g !! row = Some (CRow (S row)) /\ _table (S row) = table) ->
  exists g' news,
    forEach srcs (fun row =>
      let! newRow := DataTable.newRow tmp in
      let! t := get_table table in
      let! _ := forEach (_columns (columns t)) (fun column =>
                  let! v := read (fun h => DataRow.get h row (KString (columnName column))) in
                  DataRow.set newRow (columnName column) v) in
      let! _ := DataRowCollection.add tmp (RowInstance newRow) in
      ret tt) g
    = (g', outcome_map (fun _ => tt)
             (copy_rows tmp (_columns (columns nt)) (_columns (columns t)) (S <$> srcs)))
    /\ (forall l c, l <> tmp -> g !! l = Some c -> g' !! l = Some c)
    /\ (forall recs,
          copy_rows tmp (_columns (columns nt)) (_columns (columns t)) (S <$> srcs) = Ok recs ->
          g' !! tmp = Some (CTable (with_rows nt (_rows (rows nt) ++ news)))
          /\ Forall2 (fun l rec => g' !! l = Some (CRow rec)) news recs
          /\ (forall l, l ∈ news -> g !! l = None)).
Proof.
  intros Htmp Htable Hne Hcols. revert g nt Htmp Htable.
  induction srcs as [|row srcs IH]; intros g nt Htmp Htable Hsrcs.
  - exists g, []. simpl. split; [done|]. split; [done|].
    intros recs [= <-]. rewrite app_nil_r, with_rows_rows.
    split; [done|]. split; [constructor|]. intros l Hl. by apply elem_of_nil in Hl.
  - destruct (Hsrcs row) as [Hrow Hs]; [left|].
    set (newRow := fresh (dom g)).
    assert (newRow <> tmp) as Hn1 by (by apply not_eq_sym, (fresh_ne g tmp (CTable nt))).
    assert (newRow <> table) as Hn2 by (by apply not_eq_sym, (fresh_ne g table (CTable t))).
    assert (newRow <> row) as Hn3 by (by apply not_eq_sym, (fresh_ne g row (CRow (S row)))).
    simpl forEach. rewrite bind_eq. unfold DataTable.newRow.
    rewrite !bind_eq, (new_row_eq _ _ _ Htmp). fold newRow.
    fold (new_row tmp (_columns (columns nt))).
    rewrite bind_eq. unfold get_table at 1, read at 1.
    rewrite (read_table_Some _ table t) by (by rewrite lookup_insert_ne).
    rewrite bind_eq.
    destruct (copy_cells_loop (_columns (columns t)) g newRow row table tmp
                (new_row tmp (_columns (columns nt))) (S row) t nt)
      as (r'' & Hinner & Hr'' & Hspec); try done.
    rewrite Hinner.
    unfold copy_rows. rewrite fmap_cons, outcome_mapM_cons.
    destruct (copy_cells (_columns (columns nt)) (_values (S row))
                (new_row tmp (_columns (columns nt))) (_columns (columns t)))
      as [rec|e] eqn:Hcopy.
    + rewrite (Hspec rec eq_refl). simpl outcome_map at 1.
      rewrite bind_eq. unfold DataRowCollection.add.
      rewrite bind_eq. unfold ret at 1. rewrite bind_eq.
      erewrite modify_table_eq by (by rewrite lookup_insert_ne).
      unfold ret at 1. unfold ret at 1.
      match goal with
      | |- context [forEach srcs ?body ?g1] =>
          destruct (IH g1 (with_rows nt (_rows (rows nt) ++ [newRow])))
            as (g' & news & Heq & Hframe & Hok)
      end.
      * by rewrite lookup_insert_eq.
      * by rewrite !lookup_insert_ne.
      * intros row' Hin. destruct (Hsrcs row') as [Hrow' Hs']; [by right|].
        split; [|done]. rewrite !lookup_insert_ne; [done|..].
        -- by apply not_eq_sym, (fresh_ne g row' (CRow (S row'))).
        -- intros ->. congruence.
      * cbn [with_rows columns _columns] in Heq, Hok.
        exists g', (newRow :: news).
        split; [|split].
        -- refine (eq_trans Heq _). unfold copy_rows. f_equal.
           by destruct (outcome_mapM _ (S <$> srcs)).
        -- intros l c Hl Hc. apply Hframe; [done|].
           rewrite lookup_insert_ne by (by apply not_eq_sym).
           rewrite lookup_insert_ne; [done|].
           by apply not_eq_sym, (fresh_ne g l c).
        -- intros recs Hrecs.
           destruct (outcome_mapM
                       (fun s => copy_cells (_columns (columns nt)) (_values s)
                                   (new_row tmp (_columns (columns nt)))
                                   (_columns (columns t)))
                       (S <$> srcs)) as [recs'|] eqn:Hrest; [|done].
           injection Hrecs as <-.
           destruct (Hok recs') as (Htmp' & Hall & Hfresh); [done|].
           split; [|split].
           ++ rewrite Htmp'. simpl. by rewrite <- app_assoc.
           ++ constructor; [|done].
              apply Hframe; [done|].
              rewrite lookup_insert_ne by done. by rewrite lookup_insert_eq.
           ++ intros l [->|Hin]%elem_of_cons; [apply fresh_lookup|].
              specialize (Hfresh l Hin).
              destruct (decide (l = tmp)) as [->|Hlt].
              { by rewrite lookup_insert_eq in Hfresh. }
              rewrite lookup_insert_ne in Hfresh by done.
              destruct (decide (l = newRow)) as [->|Hln]; [apply fresh_lookup|].
              by rewrite lookup_insert_ne in Hfresh.
    + simpl. exists (<[newRow := CRow r'']> g), [].
      split; [done|]. split; [|done].
      intros l c Hl Hc. rewrite lookup_insert_ne; [done|].
      by apply not_eq_sym, (fresh_ne g l c).
Qed.
End CloneWithRows.

Section TemporaryTable.
Context `{Engine}.
Import DataColumnCollection.

Lemma Map_has_elem (cols : list DataColumn) (c : DataColumn) :
  c ∈ cols -> Map_has cols (columnName c) = true.
Proof.
  intros Hin. apply Map_has_true, list_elem_of_fmap. by exists c.
Qed.

Lemma row_at_Some (h : heap) (l : loc) (r : DataRow) :
  h !! l = Some (CRow r) -> row_at h l = r.
Proof. intros Hl. unfold row_at. by rewrite Hl. Qed.

(** [_cloneTableWithRows] on rows of a well-formed table: the temporary
    table is at a fresh location, the cells of the store are as they
    were, the outcome is the outcome of [copy_rows], and when it
    succeeds the temporary table has the copies of the columns and, as
    its rows, fresh rows that hold the records of [copy_rows]. *)
Lemma cloneTableWithRows_eq (this : DataView.t) (h : heap) (t : DataTable)
    (srcs : list loc) :
  table_ok h (DataView._table this) t ->
  (forall row, row ∈ srcs -> row ∈ _rows (rows t)) ->
  exists h' news,
    DataView._cloneTableWithRows this srcs h
    = (h', outcome_map (fun _ => fresh (dom h))
             (copy_rows (fresh (dom h))
                (cloned_columns (fresh (dom h)) (_columns (columns t)))
                (_columns (columns t)) (row_at h <$> srcs)))
    /\ (forall l c, h !! l = Some c -> h' !! l = Some c)
    /\ (forall recs,
          copy_rows (fresh (dom h))
            (cloned_columns (fresh (dom h)) (_columns (columns t)))
            (_columns (columns t)) (row_at h <$> srcs) = Ok recs ->
          h' !! fresh (dom h)
          = Some (CTable {| tableName := tableName t;
                            rows := {| _rows := news |};
                            columns := {| _columns := cloned_columns (fresh (dom h))
                                                        (_columns (columns t)) |};
                            caseSensitive := caseSensitive t |})
          /\ Forall2 (fun l rec => h' !! l = Some (CRow rec)) news recs
          /\ (forall l, l ∈ news -> h !! l = None)).
Proof.
  intros Hok Hsrcs. pose proof Hok as (Ht & Hnd & Hrows).
  set (tmp := fresh (dom h)).
  assert (DataView._table this <> tmp) as Hne
    by (by apply (fresh_ne h _ (CTable t))).
  destruct (clone_eq h _ t Hok) as (h1 & rows1 & Hclone & Htmp1 & Hframe1).
  fold tmp in Hclone, Htmp1.
  unfold DataView._cloneTableWithRows.
  rewrite bind_eq, Hclone, bind_eq.
  unfold DataTable.clear, DataRowCollection.clear.
  erewrite modify_table_eq by exact Htmp1.
  set (nt := {| tableName := tableName t; rows := {| _rows := [] |};
                columns := {| _columns := cloned_columns tmp (_columns (columns t)) |};
                caseSensitive := caseSensitive t |}).
  change (with_rows _ []) with nt.
  destruct (copy_rows_loop (row_at h) srcs (<[tmp := CTable nt]> h1)
              (DataView._table this) tmp t nt)
    as (h' & news & Hloop & Hframe & Hres).
  { by rewrite lookup_insert_eq. }
  { rewrite lookup_insert_ne by done. by apply Hframe1. }
  { done. }
  { intros c Hc. by apply Map_has_elem. }
  { intros row Hin. destruct (Hrows row (Hsrcs row Hin)) as (r & Hr & Htab).
    rewrite (row_at_Some _ _ _ Hr). split; [|done].
    rewrite lookup_insert_ne by (by apply not_eq_sym, (fresh_ne h row (CRow r))).
    by apply Hframe1. }
  rewrite bind_eq, Hloop.
  exists h', news. split; [|split].
  - simpl. by destruct (copy_rows tmp _ _ _).
  - intros l c Hl.
    assert (l <> tmp) as Hlt by (by apply (fresh_ne h l c)).
    apply Hframe; [done|]. rewrite lookup_insert_ne by done. by apply Hframe1.
  - intros recs Hrecs. destruct (Hres recs Hrecs) as (Htmp' & Hall & Hfresh).
    split; [exact Htmp'|]. split; [exact Hall|].
    intros l Hin. specialize (Hfresh l Hin).
    destruct (h !! l) as [c|] eqn:Hl; [|done].
    assert (l <> tmp) as Hlt by (by apply (fresh_ne h l c)).
    rewrite lookup_insert_ne in Hfresh by done.
    rewrite (Hframe1 l c Hl) in Hfresh. done.
Qed.
End TemporaryTable.

(** ** [Array.prototype.sort] *)

Section ArraySort.
Context {A B : Type}.

Lemma insert_sorted_perm (cmp : A -> A -> outcome val) (x : A) (l s : list A) :
  insert_sorted cmp x l = Ok s -> s ≡ₚ x :: l.
Proof.
  revert s. induction l as [|y l IH]; intros s; simpl.
  - by intros [= <-].
  - destruct (cmp x y) as [v|]; [|done]. simpl.
    destruct (is_positive (ToNumber v)); [|by intros [= <-]].
    destruct (insert_sorted cmp x l) as [r|]; [|done]. simpl.
    intros [= <-]. rewrite (IH r eq_refl). apply Permutation_swap.
Qed.

(** The sorted array is a permutation of the array. *)
Lemma Array_sort_perm (cmp : A -> A -> outcome val) (l s : list A) :
  Array_sort cmp l = Ok s -> s ≡ₚ l.
Proof.
  revert s. induction l as [|x l IH]; intros s; simpl.
  - by intros [= <-].
  - destruct (Array_sort cmp l) as [r|]; [|done]. simpl.
    intros Hins%insert_sorted_perm. by rewrite Hins, (IH r eq_refl).
Qed.

Variable R : A -> B -> Prop.
Variable cmp1 : A -> A -> outcome val.
Variable cmp2 : B -> B -> outcome val.
Hypothesis cmp_rel : forall a a' b b', R a b -> R a' b' -> cmp1 a a' = cmp2 b b'.


End ArraySort.

Section SortLemmas.
Context `{Engine}.
Import DataColumnCollection.

(** [get] reads what a callback is handed. *)
Lemma get_arg (h : heap) (row : loc) (index : key) :
  DataRow.get h row index = (let? x := arg_of_row h row in call_get x index).
Proof.
  unfold DataRow.get, arg_of_row.
  destruct (read_row h row) as [r|]; [|done]. simpl.
  by destruct (read_table h (_table r)).
Qed.



(** The type validation reads the type of the column only. *)
Lemma coerce_dataType (c1 c2 : DataColumn) (name : string) (v : val) :
  dataType c1 = dataType c2 ->
  DataRow.coerce c1 name v = DataRow.coerce c2 name v.
Proof. intros Hdt. unfold DataRow.coerce. by rewrite Hdt. Qed.



Lemma clone_columns_get (tmp : loc) (n : nat) (cols : list DataColumn) (name : string) :
  option_Forall2 (fun a b => dataType a = dataType b /\ allowNull a = allowNull b)
    (Map_get (clone_columns_from tmp n cols) name) (Map_get cols name).
Proof.
  revert n. induction cols as [|c cols IH]; intros n; simpl; [constructor|].
  destruct (String.eqb (columnName c) name); [by constructor|]. apply IH.
Qed.



End SortLemmas.

(** ** [getRows] *)

Section GetRows.
Context `{Engine}.
Import DataColumnCollection.

Lemma Array_filter_sub {A} (f : A -> outcome bool) (l s : list A) :
  Array_filter f l = Ok s -> forall x, x ∈ s -> x ∈ l.
Proof.
  revert s. induction l as [|y l IH]; intros s; simpl.
  - intros [= <-] x Hx. done.
  - destruct (f y) as [b|]; [|done]. simpl.
    destruct (Array_filter f l) as [r|]; [|done]. simpl.
    intros [= <-] x Hx. destruct b.
    + apply elem_of_cons in Hx as [->|Hx]; [left|right; by apply (IH r)].
    + right. by apply (IH r).
Qed.

Lemma Array_filter_ext {A} (f g : A -> outcome bool) (l : list A) :
  (forall x, x ∈ l -> f x = g x) -> Array_filter f l = Array_filter g l.
Proof.
  induction l as [|y l IH]; intros Hfg; simpl; [done|].
  rewrite (Hfg y) by left. rewrite IH; [done|].
  intros x Hx. apply Hfg. by right.
Qed.

(** The rows that the filter keeps are rows of the table. *)
Lemma apply_filter_sub (this : DataView.t) (h : heap) (t : DataTable) (srcs : list loc) :
  h !! DataView._table this = Some (CTable t) ->
  DataView.apply_filter this h (_rows (rows t)) = Ok srcs ->
  forall row, row ∈ srcs -> row ∈ _rows (rows t).
Proof.
  intros Ht. unfold DataView.apply_filter.
  destruct (DataView._rowFilter this) as [[f|entries]|].
  - apply Array_filter_sub.
  - unfold DataTable.findRows. rewrite (read_table_Some _ _ _ Ht). simpl.
    apply Array_filter_sub.
  - by intros [= <-].
Qed.


(** Without a sort, [getRows] writes nothing and returns the rows of the
    table that the filter keeps. *)
Lemma getRows_unsorted_eq (this : DataView.t) (h : heap) (t : DataTable) :
  h !! DataView._table this = Some (CTable t) ->
  DataView.sort_is_set (DataView._sort this) = None ->
  DataView.getRows this h = (h, DataView.apply_filter this h (_rows (rows t))).
Proof.
  intros Ht Hsort. unfold DataView.getRows, get_table, read.
  rewrite bind_eq, (read_table_Some _ _ _ Ht), bind_eq. unfold rows_of.
  destruct (DataView.apply_filter this h (_rows (rows t))); [|done].
  by rewrite Hsort.
Qed.

Lemma sort_view_eq (h : heap) (tmp : loc) (nt : DataTable) (s : view_sort)
    (order : string) :
  h !! tmp = Some (CTable nt) ->
  match s with
  | SortExpression expression => DataTable.sortBy tmp expression
  | SortColumn columnName => DataTable.sort tmp (SortColumnName columnName) order
  end h
  = match Array_sort (view_compare s order h tmp) (_rows (rows nt)) with
    | Ok sorted => (<[tmp := CTable (with_rows nt sorted)]> h, Ok tt)
    | Throw e => (h, Throw e)
    end.
Proof.
  intros Htmp. destruct s as [expression|columnName]; simpl.
  - unfold DataTable.sortBy. by rewrite (read_table_Some _ _ _ Htmp).
  - unfold DataTable.sort. by rewrite (read_table_Some _ _ _ Htmp).
Qed.

(** With a sort, [getRows] on a well-formed table whose filter keeps the
    rows [srcs]: the rows are copied into a temporary table at a fresh
    location, which leaves the cells of the store as they were, and the
    rows of the temporary table are sorted and returned. *)
Lemma getRows_sorted_eq (this : DataView.t) (h : heap) (t : DataTable)
    (s : view_sort) (srcs : list loc) :
  table_ok h (DataView._table this) t ->
  DataView.sort_is_set (DataView._sort this) = Some s ->
  DataView.apply_filter this h (_rows (rows t)) = Ok srcs ->
  exists h' news,
    (forall l c, h !! l = Some c -> h' !! l = Some c)
    /\ match copy_rows (fresh (dom h))
               (cloned_columns (fresh (dom h)) (_columns (columns t)))
               (_columns (columns t)) (row_at h <$> srcs) with
       | Throw e => DataView.getRows this h = (h', Throw e)
       | Ok recs =>
           h' !! fresh (dom h) = Some (CTable (temporary_table (fresh (dom h)) t news))
           /\ Forall2 (fun l rec => h' !! l = Some (CRow rec)) news recs
           /\ (forall l, l ∈ news -> h !! l = None)
           /\ DataView.getRows this h
              = match Array_sort
                        (view_compare s (DataView._sortOrder this) h' (fresh (dom h)))
                        news with
                | Ok sorted =>
                    (<[fresh (dom h) :=
                         CTable (temporary_table (fresh (dom h)) t sorted)]> h',
                     Ok sorted)
                | Throw e => (h', Throw e)
                end
       end.
Proof.
  intros Hok Hsort Hfilter. pose proof Hok as (Ht & _).
  destruct (cloneTableWithRows_eq this h t srcs Hok (apply_filter_sub _ _ _ _ Ht Hfilter))
    as (h' & news & Hclone & Hframe & Hres).
  exists h', news. split; [exact Hframe|].
  assert (forall k : loc -> M (list loc),
    DataView.getRows this h
    = (let! sortedTable := DataView._cloneTableWithRows this srcs in k sortedTable) h ->
    DataView.getRows this h
    = match copy_rows (fresh (dom h))
              (cloned_columns (fresh (dom h)) (_columns (columns t)))
              (_columns (columns t)) (row_at h <$> srcs) with
      | Ok _ => k (fresh (dom h)) h'
      | Throw e => (h', Throw e)
      end) as Hstep.
  { intros k ->. rewrite bind_eq, Hclone. by destruct (copy_rows _ _ _ _). }
  assert (DataView.getRows this h
          = (let! sortedTable := DataView._cloneTableWithRows this srcs in
             let! _ :=
               match s with
               | SortExpression expression => DataTable.sortBy sortedTable expression
               | SortColumn columnName =>
                   DataTable.sort sortedTable (SortColumnName columnName)
                     (DataView._sortOrder this)
               end in
             let! sortedTable := get_table sortedTable in
             ret (rows_of sortedTable)) h) as Hget.
  { unfold DataView.getRows, get_table at 1, read at 1.
    rewrite bind_eq, (read_table_Some _ _ _ Ht), bind_eq. unfold read at 1, rows_of at 1.
    by rewrite Hfilter, Hsort. }
  apply Hstep in Hget.
  destruct (copy_rows _ _ _ _) as [recs|e]; [|exact Hget].
  destruct (Hres recs eq_refl) as (Htmp & Hall & Hfresh).
  split; [exact Htmp|]. split; [exact Hall|]. split; [exact Hfresh|].
  rewrite Hget, bind_eq, (sort_view_eq _ _ _ _ _ Htmp). simpl.
  destruct (Array_sort _ news) as [sorted|]; [|done].
  unfold get_table, read. rewrite bind_eq.
  unfold read_table. by rewrite lookup_insert_eq.
Qed.
End GetRows.

(** ** The rows of the temporary table *)

Section CopiedRows.
Context `{Engine}.
Import DataColumnCollection.

Lemma set_in_state (cols : list DataColumn) (r r' : DataRow) (name : string) (v : val) :
  set_in cols r name v = Ok r' -> _rowState r' = DataRowState.MODIFIED.
Proof.
  unfold set_in. destruct (Map_get cols name) as [column|]; [|done].
  destruct (is_null v && negb (allowNull column)); [done|].
  destruct (DataRow.coerce column name v); [|done]. simpl.
  destruct (hasOwnProperty (_originalValues r) name); [|done].
  by intros [= <-].
Qed.

Lemma copy_cells_state (cols' : list DataColumn) (vals : gmap string val)
    (cs : list DataColumn) (r r' : DataRow) :
  copy_cells cols' vals r cs = Ok r' ->
  _rowState r' = match cs with [] => _rowState r | _ :: _ => DataRowState.MODIFIED end.
Proof.
  revert r. induction cs as [|c cs IH]; intros r; simpl; [by intros [= <-]|].
  destruct (set_in cols' r (columnName c) (default VUndefined (vals !! columnName c)))
    as [r1|] eqn:Hset; [|done].
  simpl. intros Hc. rewrite (IH _ Hc). destruct cs; [|done].
  by apply set_in_state in Hset.
Qed.

(** The records of the copies: rows of the temporary table, as many as
    the source rows, in the state [copied_state]. *)
Lemma copy_rows_records (tmp : loc) (cols' cols : list DataColumn)
    (srcs recs : list DataRow) :
  copy_rows tmp cols' cols srcs = Ok recs ->
  List.length recs = List.length srcs
  /\ Forall (fun rec => _table rec = tmp /\ _rowState rec = copied_state cols) recs.
Proof.
  unfold copy_rows. revert recs. induction srcs as [|s srcs IH]; intros recs.
  - simpl. by intros [= <-].
  - rewrite outcome_mapM_cons.
    destruct (copy_cells cols' (_values s) (new_row tmp cols') cols) as [rec|] eqn:Hrec;
      [|done].
    destruct (outcome_mapM _ srcs) as [recs'|]; [|done].
    intros [= <-]. destruct (IH recs' eq_refl) as [Hlen Hall].
    split; [simpl; by rewrite Hlen|]. constructor; [|done]. split.
    + by apply copy_cells_table in Hrec.
    + apply copy_cells_state in Hrec. rewrite Hrec. by destruct cols.
Qed.


Lemma arg_of_row_Ok (h : heap) (row : loc) (r : DataRow) (t : DataTable) :
  h !! row = Some (CRow r) ->
  h !! _table r = Some (CTable t) ->
  arg_of_row h row
  = Ok (ArgRow (Map_keys (_columns (columns t))) (_values r) (_originalValues r)
          (_rowState r)).
Proof.
  intros Hrow Ht. unfold arg_of_row.
  rewrite (read_row_Some _ _ _ Hrow). simpl.
  by rewrite (read_table_Some _ _ _ Ht).
Qed.
End CopiedRows.

Section SortTotal.
Context {A : Type}.

Lemma insert_sorted_total (cmp : A -> A -> outcome val) (x : A) (l : list A) :
  (forall y, y ∈ l -> is_Ok (cmp x y) = true) ->
  exists s, insert_sorted cmp x l = Ok s.
Proof.
  induction l as [|y l IH]; intros Hcmp; simpl; [by eexists|].
  destruct (cmp x y) as [v|] eqn:Hv.
  - simpl. destruct (is_positive (ToNumber v)); [|by eexists].
    destruct IH as [s ->]; [|by eexists].
    intros z Hz. apply Hcmp. by right.
  - specialize (Hcmp y). rewrite Hv in Hcmp. discriminate Hcmp. left.
Qed.

(** A comparator that returns on the elements of an array sorts it. *)
Lemma Array_sort_total (cmp : A -> A -> outcome val) (l : list A) :
  (forall x y, x ∈ l -> y ∈ l -> is_Ok (cmp x y) = true) ->
  exists s, Array_sort cmp l = Ok s.
Proof.
  induction l as [|x l IH]; intros Hcmp; simpl; [by eexists|].
  destruct IH as [s Hs].
  { intros y z Hy Hz. apply Hcmp; by right. }
  rewrite Hs. simpl. apply insert_sorted_total.
  intros y Hy. apply Hcmp; [left|right].
  by rewrite <- (Array_sort_perm cmp l s Hs).
Qed.
End SortTotal.

(** ** The rows that a sorted view returns *)

Section SortedView.
Context `{Engine}.
Import DataColumnCollection.

Lemma Forall2_and_r {A B} (P : A -> B -> Prop) (Q : B -> Prop) (l : list A)
    (k : list B) :
  Forall2 P l k -> Forall Q k -> Forall2 (fun a x => P a x /\ Q x) l k.
Proof.
  induction 1 as [|a x l k Hax Hlk IH]; [constructor|].
  intros [Hx Hk]%Forall_cons. constructor; [done|by apply IH].
Qed.


(** A row of the temporary table, as a callback sees it. *)
Lemma temporary_row_arg (h' : heap) (tmp row : loc) (t : DataTable)
    (news : list loc) (rec : DataRow) :
  h' !! tmp = Some (CTable (temporary_table tmp t news)) ->
  h' !! row = Some (CRow rec) ->
  _table rec = tmp ->
  arg_of_row h' row
  = Ok (ArgRow (Map_keys (_columns (columns t))) (_values rec) (_originalValues rec)
          (_rowState rec)).
Proof.
  intros Htmp Hrow Hrec.
  rewrite (arg_of_row_Ok h' row rec (temporary_table tmp t news)) by congruence.
  simpl. unfold cloned_columns. by rewrite clone_columns_keys.
Qed.

(** The comparator of a sort that does not throw returns on the rows
    of the temporary table. *)
Lemma view_compare_total (h' : heap) (tmp : loc) (t : DataTable) (news : list loc)
    (s : view_sort) (order : string) (a b : loc) (ra rb : DataRow) :
  h' !! tmp = Some (CTable (temporary_table tmp t news)) ->
  sort_total s (_columns (columns t)) ->
  h' !! a = Some (CRow ra) -> _table ra = tmp ->
  h' !! b = Some (CRow rb) -> _table rb = tmp ->
  is_Ok (view_compare s order h' tmp a b) = true.
Proof.
  intros Htmp Htotal Ha Hta Hb Htb.
  pose proof (temporary_row_arg h' tmp a t news ra Htmp Ha Hta) as Harga.
  pose proof (temporary_row_arg h' tmp b t news rb Htmp Hb Htb) as Hargb.
  destruct s as [expression|columnName]; simpl in *.
  - unfold DataTable.compare_expression. rewrite Harga, Hargb. simpl.
    pose proof (Htotal (ArgRow (Map_keys (_columns (columns t))) (_values ra)
                          (_originalValues ra) (_rowState ra))) as H1.
    pose proof (Htotal (ArgRow (Map_keys (_columns (columns t))) (_values rb)
                          (_originalValues rb) (_rowState rb))) as H2.
    destruct (expression _) as [valueA|]; [|done].
    destruct (expression _) as [valueB|]; [|done]. simpl.
    destruct (strict_equal valueA valueB); [done|].
    destruct (is_null valueA); [done|]. by destruct (is_null valueB).
  - unfold DataTable.compare_column, DataRow.item.
    rewrite !get_arg, Harga, Hargb. simpl.
    unfold Map_has in Htotal. rewrite Htotal. simpl.
    destruct (strict_equal _ _); [done|].
    destruct (is_nullish _); [done|].
    destruct (is_nullish _); [done|].
    rewrite (read_table_Some _ _ _ Htmp). simpl.
    assert (Map_has (cloned_columns tmp (_columns (columns t))) columnName = true)
      as Hhas.
    { unfold Map_has, cloned_columns. by rewrite clone_columns_keys. }
    apply Map_get_has in Hhas as [column ->]. done.
Qed.

(** A sorted view whose filter, copies and sort do not throw returns
    rows: as many as the filter keeps, all of them new to the store,
    rows of the temporary table in the state [copied_state]; and the
    cells that the store had are as they were. *)
Lemma getRows_sorted_Ok (this : DataView.t) (h : heap) (t : DataTable)
    (s : view_sort) (srcs : list loc) (recs : list DataRow) :
  table_ok h (DataView._table this) t ->
  DataView.sort_is_set (DataView._sort this) = Some s ->
  DataView.apply_filter this h (_rows (rows t)) = Ok srcs ->
  copy_rows (fresh (dom h)) (cloned_columns (fresh (dom h)) (_columns (columns t)))
    (_columns (columns t)) (row_at h <$> srcs) = Ok recs ->
  sort_total s (_columns (columns t)) ->
  exists h1 sorted,
    DataView.getRows this h = (h1, Ok sorted)
    /\ (forall l c, h !! l = Some c -> h1 !! l = Some c)
    /\ h1 !! fresh (dom h)
       = Some (CTable (temporary_table (fresh (dom h)) t sorted))
    /\ List.length sorted = List.length srcs
    /\ forall row, row ∈ sorted ->
         h !! row = None
         /\ exists r, h1 !! row = Some (CRow r)
              /\ _table r = fresh (dom h)
              /\ _rowState r = copied_state (_columns (columns t)).
Proof.
  intros Hok Hsort Hfilter Hcopy Htotal.
  destruct (getRows_sorted_eq this h t s srcs Hok Hsort Hfilter)
    as (h' & news & Hframe & Hres).
  rewrite Hcopy in Hres. destruct Hres as (Htmp & Hall & Hfresh & Hget).
  destruct (copy_rows_records _ _ _ _ _ Hcopy) as [Hlen Hrecs].
  pose proof (Forall2_and_r _ _ _ _ Hall Hrecs) as Hall'.
  assert (forall row, row ∈ news ->
            exists r, h' !! row = Some (CRow r) /\ _table r = fresh (dom h)
                      /\ _rowState r = copied_state (_columns (columns t))) as Hnews.
  { intros row Hin. apply list_elem_of_lookup in Hin as [i Hi].
    destruct (Forall2_lookup_l _ _ _ _ _ Hall' Hi) as (r & _ & Hr & Ht & Hs).
    by exists r. }
  destruct (Array_sort_total
              (view_compare s (DataView._sortOrder this) h' (fresh (dom h))) news)
    as [sorted Hsorted].
  { intros a b Ha Hb.
    destruct (Hnews a Ha) as (ra & Hra & Hta & _).
    destruct (Hnews b Hb) as (rb & Hrb & Htb & _).
    by apply (view_compare_total h' _ t news s _ a b ra rb). }
  rewrite Hsorted in Hget. pose proof (Array_sort_perm _ _ _ Hsorted) as Hperm.
  exists (<[fresh (dom h) := CTable (temporary_table (fresh (dom h)) t sorted)]> h'),
    sorted.
  split; [exact Hget|]. split; [|split; [|split]].
  - intros l c Hl. rewrite lookup_insert_ne by (by apply not_eq_sym, (fresh_ne h l c)).
    by apply Hframe.
  - by rewrite lookup_insert_eq.
  - rewrite (Permutation_length Hperm), (Forall2_length _ _ _ Hall). by rewrite Hlen, length_fmap.
  - intros row Hin. rewrite Hperm in Hin. split; [by apply Hfresh|].
    destruct (Hnews row Hin) as (r & Hr & Ht & Hs). exists r.
    split; [|done]. rewrite lookup_insert_ne; [done|]. intros <-. congruence.
Qed.
End SortedView.

(** ** [getRows] reads the table and its rows only *)

Section ViewLocality.
Context `{Engine}.
Import DataColumnCollection.




End ViewLocality.

(** ** Copies that [set] accepts *)

Section AcceptedRows.
Context `{Engine}.
Import DataColumnCollection.

Lemma Map_get_NoDup (cols : list DataColumn) (c : DataColumn) :
  NoDup (Map_keys cols) -> c ∈ cols -> Map_get cols (columnName c) = Some c.
Proof.
  induction cols as [|x cols IH]; intros Hnd Hin; [by apply elem_of_nil in Hin|].
  simpl in Hnd. apply NoDup_cons in Hnd as [Hx Hnd]. simpl.
  apply elem_of_cons in Hin as [->|Hin]; [by rewrite String.eqb_refl|].
  destruct (String.eqb_spec (columnName x) (columnName c)) as [Heq|_]; [|by apply IH].
  exfalso. apply Hx. rewrite Heq. apply list_elem_of_fmap. by exists c.
Qed.

Lemma copy_cells_accepted (tmp : loc) (cols : list DataColumn) (src : DataRow)
    (cs : list DataColumn) (r : DataRow) :
  NoDup (Map_keys cols) ->
  accepted cols src ->
  ~ "hasOwnProperty" ∈ Map_keys cols ->
  (forall c, c ∈ cs -> c ∈ cols) ->
  _originalValues r !! "hasOwnProperty" = None ->
  is_Ok (copy_cells (cloned_columns tmp cols) (_values src) r cs) = true.
Proof.
  intros Hnd Hacc Hshadow. revert r.
  induction cs as [|c cs IH]; intros r Hcs Horig; [done|].
  simpl. assert (c ∈ cols) as Hc by (apply Hcs; left).
  assert (columnName c <> "hasOwnProperty") as Hname.
  { intros Heq. apply Hshadow. rewrite <- Heq. apply list_elem_of_fmap. by exists c. }
  pose proof (clone_columns_get tmp 0 cols (columnName c)) as Hget.
  rewrite (Map_get_NoDup cols c Hnd Hc) in Hget.
  inversion Hget as [c' ? [Hdt Han] Hc'|]; subst.
  destruct (Hacc c Hc) as [Hnull Hco].
  unfold set_in, cloned_columns. rewrite <- Hc'.
  rewrite Han, Hnull, (coerce_dataType c' c _ _ Hdt).
  destruct (DataRow.coerce c (columnName c) _) as [v'|]; [|done]. simpl.
  rewrite (hasOwnProperty_method _ _ Horig). simpl.
  apply IH; [intros c0 Hc0; apply Hcs; by right|].
  unfold DataRow.assign. simpl.
  destruct (_originalValues r !! columnName c); [done|].
  by rewrite lookup_insert_ne.
Qed.

(** The copies of rows that [set] accepts are made: [copy_rows] does not
    throw. *)
Lemma copy_rows_accepted (tmp : loc) (cols : list DataColumn) (srcs : list DataRow) :
  NoDup (Map_keys cols) ->
  ~ "hasOwnProperty" ∈ Map_keys cols ->
  Forall (accepted cols) srcs ->
  is_Ok (copy_rows tmp (cloned_columns tmp cols) cols srcs) = true.
Proof.
  intros Hnd Hshadow Hsrcs. unfold copy_rows.
  induction Hsrcs as [|src srcs Hsrc Hsrcs IH]; [done|].
  rewrite outcome_mapM_cons.
  pose proof (copy_cells_accepted tmp cols src cols
                (new_row tmp (cloned_columns tmp cols)) Hnd Hsrc Hshadow
                (fun _ Hc => Hc) eq_refl) as Hcells.
  destruct (copy_cells _ (_values src) _ cols); [|done].
  by destruct (outcome_mapM _ srcs).
Qed.
End AcceptedRows.

(** ** What a sorted view returns *)

Section SortedViewReturns.
Context `{Engine}.
Import DataColumnCollection.

(** Whenever [getRows] of a sorted view on a well-formed table returns,
    the rows that it returns are as many as the filter keeps, all of
    them new to the store and rows of the temporary table, in the state
    [copied_state]; the cells that the store had are as they were. *)
Lemma getRows_sorted_returns (this : DataView.t) (h h1 : heap) (t : DataTable)
    (s : view_sort) (srcs sorted : list loc) :
  table_ok h (DataView._table this) t ->
  DataView.sort_is_set (DataView._sort this) = Some s ->
  DataView.apply_filter this h (_rows (rows t)) = Ok srcs ->
  DataView.getRows this h = (h1, Ok sorted) ->
  (forall l c, h !! l = Some c -> h1 !! l = Some c)
  /\ h1 !! fresh (dom h) = Some (CTable (temporary_table (fresh (dom h)) t sorted))
  /\ List.length sorted = List.length srcs
  /\ forall row, row ∈ sorted ->
       h !! row = None
       /\ exists r, h1 !! row = Some (CRow r)
            /\ _table r = fresh (dom h)
            /\ _rowState r = copied_state (_columns (columns t)).
Proof.
  intros Hok Hsort Hfilter Hreturns.
  destruct (getRows_sorted_eq this h t s srcs Hok Hsort Hfilter)
    as (h' & news & Hframe & Hres).
  destruct (copy_rows _ _ _ _) as [recs|e] eqn:Hcopy; [|congruence].
  destruct Hres as (Htmp & Hall & Hfresh & Hget).
  destruct (copy_rows_records _ _ _ _ _ Hcopy) as [Hlen Hrecs].
  pose proof (Forall2_and_r _ _ _ _ Hall Hrecs) as Hall'.
  assert (forall row, row ∈ news ->
            exists r, h' !! row = Some (CRow r) /\ _table r = fresh (dom h)
                      /\ _rowState r = copied_state (_columns (columns t))) as Hnews.
  { intros row Hin. apply list_elem_of_lookup in Hin as [i Hi].
    destruct (Forall2_lookup_l _ _ _ _ _ Hall' Hi) as (r & _ & Hr & Ht & Hs).
    by exists r. }
  rewrite Hreturns in Hget.
  destruct (Array_sort _ news) as [sorted'|e] eqn:Hsorted; [|done].
  injection Hget as -> ->.
  pose proof (Array_sort_perm _ _ _ Hsorted) as Hperm.
  split; [|split; [|split]].
  - intros l c Hl. rewrite lookup_insert_ne by (by apply not_eq_sym, (fresh_ne h l c)).
    by apply Hframe.
  - by rewrite lookup_insert_eq.
  - rewrite (Permutation_length Hperm), (Forall2_length _ _ _ Hall).
    by rewrite Hlen, length_fmap.
  - intros row Hin. rewrite Hperm in Hin. split; [by apply Hfresh|].
    destruct (Hnews row Hin) as (r & Hr & Ht & Hs). exists r.
    split; [|done]. rewrite lookup_insert_ne; [done|]. intros <-. congruence.
Qed.
End SortedViewReturns.

(** ** The claims on views *)


(** C10, as amended.  A view with a sort set, on a well-formed table
    whose column names are not names of members of [Object.prototype],
    with a filter that is a function or a criteria object as
    [plain_criteria] has it, and that keeps the rows [srcs]: whenever [getRows] returns, it returns
    as many rows as the filter keeps, each of them a row that the store
    did not hold before the call, not a row of the backing table, and a
    row of the temporary table at a fresh location; the call leaves
    every cell of the store as it was, and so does a [set] on a
    returned row afterwards; the state of a returned row is
    [copied_state]: [MODIFIED] when the table has a column, whatever
    the state of the source row, and [ADDED] when the table has no
    column.  [getRows] does return when [set] accepts the values of the
    rows that the filter keeps and the sort does not throw.  With no
    sort set, [getRows] writes nothing and returns rows of the backing
    table itself. *)
Theorem C10_sorted_view_returns_copies `{Engine} (this : DataView.t) (h : heap)
    (t : DataTable) (srcs : list loc) :
  table_ok h (DataView._table this) t ->
  own_columns (_columns (columns t)) ->
  plain_filter (DataView._rowFilter this) ->
  DataView.apply_filter this h (_rows (rows t)) = Ok srcs ->
  (forall s,
     DataView.sort_is_set (DataView._sort this) = Some s ->
     (forall h1 sorted,
        DataView.getRows this h = (h1, Ok sorted) ->
        List.length sorted = List.length srcs
        /\ (forall l c, h !! l = Some c -> h1 !! l = Some c)
        /\ fresh (dom h) <> DataView._table this
        /\ h1 !! fresh (dom h)
           = Some (CTable (temporary_table (fresh (dom h)) t sorted))
        /\ forall row, row ∈ sorted ->
             h !! row = None
             /\ ~ row ∈ _rows (rows t)
             /\ (exists r, h1 !! row = Some (CRow r)
                   /\ _table r = fresh (dom h)
                   /\ _rowState r = copied_state (_columns (columns t)))
             /\ forall name v l c,
                  h !! l = Some c ->
                  (DataRow.set row name v h1).1 !! l = Some c)
     /\ ((forall row, row ∈ srcs -> accepted (_columns (columns t)) (row_at h row)) ->
         sort_total s (_columns (columns t)) ->
         exists h1 sorted, DataView.getRows this h = (h1, Ok sorted)))
  /\ (DataView.sort_is_set (DataView._sort this) = None ->
      DataView.getRows this h = (h, Ok srcs)
      /\ forall row, row ∈ srcs -> row ∈ _rows (rows t)).
Proof.
  intros Hok Hown _ Hfilter. pose proof Hok as (Ht & Hnd & Hrows). split.
  - intros s Hsort. split.
    + intros h1 sorted Hget.
      destruct (getRows_sorted_returns this h h1 t s srcs sorted Hok Hsort Hfilter Hget)
        as (Hframe & Htmp & Hlen & Hsorted).
      split; [exact Hlen|].
      split; [exact Hframe|]. split; [by apply not_eq_sym, (fresh_ne h _ (CTable t))|].
      split; [exact Htmp|].
      intros row Hin. destruct (Hsorted row Hin) as (Hnew & r & Hr & Htab & Hstate).
      split; [exact Hnew|]. split; [|split].
      * intros Hrow. destruct (Hrows row Hrow) as (r0 & Hr0 & _). congruence.
      * by exists r.
      * intros name v l c Hl.
        rewrite (row_set_in h1 row r (temporary_table (fresh (dom h)) t sorted) name v Hr)
          by (by rewrite Htab).
        destruct (set_in _ r name v) as [r'|e]; simpl; [|by apply Hframe].
        rewrite lookup_insert_ne by (intros <-; congruence).
        by apply Hframe.
    + intros Hacc Htotal.
      assert (is_Ok (copy_rows (fresh (dom h))
                       (cloned_columns (fresh (dom h)) (_columns (columns t)))
                       (_columns (columns t)) (row_at h <$> srcs)) = true) as Hcopy.
      { apply copy_rows_accepted; [done|by apply own_columns_hasOwnProperty|].
        apply Forall_fmap, Forall_forall. intros row Hin. by apply Hacc. }
      destruct (copy_rows _ _ _ _) as [recs|] eqn:Hrecs; [|done].
      destruct (getRows_sorted_Ok this h t s srcs recs Hok Hsort Hfilter Hrecs Htotal)
        as (h1 & sorted & Hget & _).
      by exists h1, sorted.
  - intros Hsort. rewrite (getRows_unsorted_eq this h t Ht Hsort), Hfilter.
    split; [done|]. by apply (apply_filter_sub this h t srcs Ht).
Qed.

(** The table of the examples on views, built through the interface. *)
Example ex2_heap_built :
  build_table [untyped_column]
    [RowObject {["a" := VStr "b"]}; RowObject {["a" := VStr "a"]}] ∅
  = (ex2_heap, Ok (1%positive, [2%positive; 3%positive])).
Proof. vm_compute. reflexivity. Qed.

Lemma ex2_table_ok : table_ok ex2_heap 1%positive ex2_table.
Proof.
  split; [reflexivity|]. split; [apply NoDup_singleton|].
  intros row Hin.
  apply elem_of_cons in Hin as [->|Hin]; [by eexists|].
  apply list_elem_of_singleton in Hin as ->. by eexists.
Qed.

(** The view of the example returns copies of the two rows, sorted by
    [a]: the row with ["a"], then the row with ["b"]. *)
Example ex2_sorted_rows :
  exists h1,
    DataView.getRows (H := simple_engine) ex2_view ex2_heap
    = (h1, Ok [8%positive; 7%positive])
    /\ value_of h1 8%positive "a" = VStr "a"
    /\ value_of h1 7%positive "a" = VStr "b".
Proof. eexists. split; [vm_compute; reflexivity|]. split; vm_compute; reflexivity. Qed.

(** The same view object sees each change of the table at the next
    call. *)
Example ex2_view_sees_mutations :
  (mutation_program (H := simple_engine) ex2_heap).2
  = Ok ([VStr "a"; VStr "b"],
        [VStr "0"; VStr "a"; VStr "b"],
        [VStr "0"; VStr "a"; VStr "z"],
        [VStr "0"; VStr "z"]).
Proof. vm_compute. reflexivity. Qed.

(** A sorted view can throw where the table itself is in order: the row
    of the first example holds the default [null] in a column that does
    not allow null, and the copy of the row is refused by [set]. *)
Example sorted_view_can_throw :
  (DataView.getRows (H := simple_engine)
     (DataView.new 1%positive None (Some (SortColumn "n")) "asc") ex1_heap).2
  = Throw (DoesNotAllowNull "n").
Proof. vm_compute. reflexivity. Qed.


(** C10, the claim as stated fails: the row that a sorted view of a table
    without columns returns is in the state [ADDED], not [MODIFIED]; no
    column means no [set] on the copy. *)
Lemma C10_rows_of_a_columnless_table_stay_added :
  exists h1 row r,
    columnless_view_program (H := simple_engine) ∅ = (h1, Ok [row])
    /\ h1 !! row = Some (CRow r)
    /\ _rowState r = DataRowState.ADDED
    /\ _rowState r <> DataRowState.MODIFIED.
Proof.
  do 3 eexists. split; [vm_compute; reflexivity|].
  split; [vm_compute; reflexivity|]. split; [reflexivity|discriminate].
Qed.

Lemma C10_witness :
  (table_ok ex2_heap (DataView._table ex2_filtered_view) ex2_table)
  /\ (own_columns (_columns (columns ex2_table)))
  /\ (plain_filter (DataView._rowFilter ex2_filtered_view))
  /\ (DataView.apply_filter (H := simple_engine) ex2_filtered_view ex2_heap (_rows (rows ex2_table)) = Ok [3%positive])
  /\ ((forall s,
          DataView.sort_is_set (DataView._sort ex2_filtered_view) = Some s ->
          (forall h1 sorted,
             DataView.getRows (H := simple_engine) ex2_filtered_view ex2_heap = (h1, Ok sorted) ->
             List.length sorted = List.length [3%positive]
             /\ (forall l c, ex2_heap !! l = Some c -> h1 !! l = Some c)
             /\ fresh (dom ex2_heap) <> DataView._table ex2_filtered_view
             /\ h1 !! fresh (dom ex2_heap)
                = Some (CTable (temporary_table (fresh (dom ex2_heap)) ex2_table sorted))
             /\ forall row, row ∈ sorted ->
                  ex2_heap !! row = None
                  /\ ~ row ∈ _rows (rows ex2_table)
                  /\ (exists r, h1 !! row = Some (CRow r)
                        /\ _table r = fresh (dom ex2_heap)
                        /\ _rowState r = copied_state (_columns (columns ex2_table)))
                  /\ forall name v l c,
                       ex2_heap !! l = Some c ->
                       (DataRow.set (H := simple_engine) row name v h1).1 !! l = Some c)
          /\ ((forall row, row ∈ [3%positive] -> accepted (H := simple_engine) (_columns (columns ex2_table)) (row_at ex2_heap row)) ->
              sort_total s (_columns (columns ex2_table)) ->
              exists h1 sorted, DataView.getRows (H := simple_engine) ex2_filtered_view ex2_heap = (h1, Ok sorted)))
       /\ (DataView.sort_is_set (DataView._sort ex2_filtered_view) = None ->
           DataView.getRows (H := simple_engine) ex2_filtered_view ex2_heap = (ex2_heap, Ok [3%positive])
           /\ forall row, row ∈ [3%positive] -> row ∈ _rows (rows ex2_table))).
Proof.
  assert (table_ok ex2_heap (DataView._table ex2_filtered_view) ex2_table) as Hyp1.
  { exact ex2_table_ok. }
  assert (own_columns (_columns (columns ex2_table))) as Hyp2.
  { unfold own_columns, own_name; compute_done. }
  assert (plain_filter (DataView._rowFilter ex2_filtered_view)) as Hyp3.
  { constructor; [split; [unfold own_name; compute_done|reflexivity]|constructor]. }
  assert (DataView.apply_filter (H := simple_engine) ex2_filtered_view ex2_heap (_rows (rows ex2_table)) = Ok [3%positive]) as Hyp4.
  { vm_compute; reflexivity. }
  exact (conj Hyp1 (conj Hyp2 (conj Hyp3 (conj Hyp4 (C10_sorted_view_returns_copies (H := simple_engine) ex2_filtered_view ex2_heap ex2_table ([3%positive]) Hyp1 Hyp2 Hyp3 Hyp4))))).
Defined.

(** ** The claims at the tables of the examples *)

Lemma ex1_rows_are_rows : rows_are_rows ex1_heap ex1_table.
Proof.
  intros row Hin. apply list_elem_of_singleton in Hin as ->. by eexists.
Qed.

Lemma C4_witness :
  (ex1_heap !! 1%positive = Some (CTable ex1_table))
  /\ (columns_ok (_columns (columns ex1_table)))
  /\ (rows_are_rows ex1_heap ex1_table)
  /\ ((exists t',
          run_column_ops 1%positive [OpAdd (ColumnName "b") None; OpRemove "n"; OpAdd (ColumnName "b") None; OpAdd (ColumnName "c") (Some "string"); OpRemove "x"] ex1_heap !! 1%positive = Some (CTable t')
          /\ map ordinal (_columns (columns t'))
             = map Z.of_nat (seq 0 (List.length (_columns (columns t'))))
          /\ NoDup (map columnName (_columns (columns t')))
          /\ map columnName (_columns (columns t'))
             = foldl keys_step (map columnName (_columns (columns ex1_table))) [OpAdd (ColumnName "b") None; OpRemove "n"; OpAdd (ColumnName "b") None; OpAdd (ColumnName "c") (Some "string"); OpRemove "x"])
       /\ (exists s t1 t2,
             ColumnObjects.shared_column_program = (s, t1, t2)
             /\ t1 <> t2
             /\ map columnName (ColumnObjects.columns_of s t1) = ["x"; "c"]
             /\ map ordinal (ColumnObjects.columns_of s t1) = [0%Z; 0%Z]
             /\ map columnName (ColumnObjects.columns_of s t2) = ["c"]
             /\ map ordinal (ColumnObjects.columns_of s t2) = [0%Z])).
Proof.
  assert (ex1_heap !! 1%positive = Some (CTable ex1_table)) as Hyp1.
  { vm_compute; reflexivity. }
  assert (columns_ok (_columns (columns ex1_table))) as Hyp2.
  { split; [reflexivity|apply NoDup_singleton]. }
  assert (rows_are_rows ex1_heap ex1_table) as Hyp3.
  { exact ex1_rows_are_rows. }
  exact (conj Hyp1 (conj Hyp2 (conj Hyp3 (C4_ordinals_dense_names_unique ([OpAdd (ColumnName "b") None; OpRemove "n"; OpAdd (ColumnName "b") None; OpAdd (ColumnName "c") (Some "string"); OpRemove "x"]) ex1_heap 1%positive ex1_table Hyp1 Hyp2 Hyp3)))).
Defined.

Lemma C6_witness :
  (ex2_heap !! 1%positive = Some (CTable ex2_table))
  /\ (forall row, row ∈ _rows (rows ex2_table) ->
          exists r b tr, ex2_heap !! row = Some (CRow r) /\ keep_all (ArgObject (_values r)) = Ok b
                         /\ ex2_heap !! _table r = Some (CTable tr))
  /\ (DataTable.select ex2_heap 1%positive keep_all
       = Ok (map ValuesOf (List.filter (select_keeps ex2_heap keep_all) (_rows (rows ex2_table))))
       /\ (forall record, record ∈ map ValuesOf (List.filter (select_keeps ex2_heap keep_all) (_rows (rows ex2_table))) ->
           exists row r tr,
             record = ValuesOf row /\ row ∈ _rows (rows ex2_table)
             /\ ex2_heap !! row = Some (CRow r) /\ ex2_heap !! _table r = Some (CTable tr)
             /\ read_object ex2_heap record = Ok (_values r)
             /\ (forall name v h',
                   assignable name ->
                   DataRow.set (H := simple_engine) row name v ex2_heap = (h', Ok tt) ->
                   exists column v',
                     DataColumnCollection.Map_get (_columns (columns tr)) name = Some column
                     /\ DataRow.coerce (H := simple_engine) column name v = Ok v'
                     /\ read_object h' record = Ok (<[name := v']> (_values r)))
             /\ (forall name v,
                   assignable name ->
                   DataColumnCollection.Map_has (_columns (columns tr)) name = true ->
                   exists h', write_property record name v ex2_heap = (h', Ok tt)
                              /\ read_object h' record = Ok (<[name := v]> (_values r))
                              /\ DataRow.get h' row (KString name) = Ok v))).
Proof.
  assert (ex2_heap !! 1%positive = Some (CTable ex2_table)) as Hyp1.
  { vm_compute; reflexivity. }
  assert (forall row, row ∈ _rows (rows ex2_table) ->
              exists r b tr, ex2_heap !! row = Some (CRow r) /\ keep_all (ArgObject (_values r)) = Ok b
                             /\ ex2_heap !! _table r = Some (CTable tr)) as Hyp2.
  { intros row [->|[->|[]%elem_of_nil]%elem_of_cons]%elem_of_cons; do 3 eexists; repeat split; reflexivity. }
  exact (conj Hyp1 (conj Hyp2 (C6_select_returns_the_value_maps (H := simple_engine) ex2_heap 1%positive ex2_table keep_all Hyp1 Hyp2))).
Defined.


Lemma C5_witness :
  (ex1_heap !! 1%positive = Some (CTable ex1_table))
  /\ (rows_are_rows ex1_heap ex1_table)
  /\ (DataColumnCollection.Map_has (_columns (columns ex1_table)) (column_arg_name (ColumnName "b")) = false)
  /\ (assignable (column_arg_name (ColumnName "b")))
  /\ (assignable_columns (_columns (columns ex1_table)))
  /\ (exists h1 h3,
         DataTable.addColumn 1%positive (ColumnName "b") (Some "string") ex1_heap
           = (h1, Ok (added_column 1%positive (_columns (columns ex1_table)) (ColumnName "b") (Some "string")))
         /\ h1 !! 1%positive
            = Some (CTable (with_columns ex1_table
                              (_columns (columns ex1_table)
                               ++ [added_column 1%positive (_columns (columns ex1_table)) (ColumnName "b") (Some "string")])))
         /\ (forall row r, row ∈ _rows (rows ex1_table) -> ex1_heap !! row = Some (CRow r) ->
               h1 !! row
               = Some (CRow (with_values r
                               (<[column_arg_name (ColumnName "b") :=
                                    defaultValue (added_column 1%positive (_columns (columns ex1_table)) (ColumnName "b") (Some "string"))]>
                                  (_values r)))))
         /\ (exists h2 r2,
               DataTable.newRow 1%positive h1 = (h2, Ok (fresh (dom h1)))
               /\ h2 !! fresh (dom h1) = Some (CRow r2)
               /\ _values r2 !! column_arg_name (ColumnName "b")
                  = Some (defaultValue (added_column 1%positive (_columns (columns ex1_table)) (ColumnName "b") (Some "string")))
               /\ dom (_values r2)
                  = list_to_set (DataColumnCollection.Map_keys (_columns (columns ex1_table)) ++ [column_arg_name (ColumnName "b")]))
         /\ DataTable.removeColumn 1%positive (column_arg_name (ColumnName "b")) h1 = (h3, Ok tt)
         /\ h3 !! 1%positive = Some (CTable (with_columns ex1_table (DataColumnCollection.renumber 0 (_columns (columns ex1_table)))))
         /\ (forall row r, row ∈ _rows (rows ex1_table) -> ex1_heap !! row = Some (CRow r) ->
               h3 !! row = Some (CRow (with_values r (delete (column_arg_name (ColumnName "b")) (_values r)))))
         /\ (keys_ok ex1_heap ex1_table ->
             keys_ok h1 (with_columns ex1_table
                           (_columns (columns ex1_table)
                            ++ [added_column 1%positive (_columns (columns ex1_table)) (ColumnName "b") (Some "string")]))
             /\ keys_ok h3 (with_columns ex1_table (DataColumnCollection.renumber 0 (_columns (columns ex1_table))))
             /\ (NoDup (DataColumnCollection.Map_keys (_columns (columns ex1_table))) ->
                 forall values,
                   (forall row, values <> RowInstance row) -> values <> RowNull ->
                   exists h' row,
                     DataTable.addRow 1%positive values ex1_heap = (h', Ok row)
                     /\ keys_ok h' (with_rows ex1_table (_rows (rows ex1_table) ++ [row])))
             /\ (forall row r, ex1_heap !! row = Some (CRow r) ->
                   keys_ok (DataTable.addRow 1%positive (RowInstance row) ex1_heap).1
                           (with_rows ex1_table (_rows (rows ex1_table) ++ [row]))
                   <-> dom (_values r) = list_to_set (DataColumnCollection.Map_keys (_columns (columns ex1_table))))
             /\ (forall row r name v h',
                   ex1_heap !! row = Some (CRow r) -> _table r = 1%positive -> row ∈ _rows (rows ex1_table) ->
                   DataRow.set (H := simple_engine) row name v ex1_heap = (h', Ok tt) -> keys_ok h' ex1_table))).
Proof.
  assert (ex1_heap !! 1%positive = Some (CTable ex1_table)) as Hyp1.
  { vm_compute; reflexivity. }
  assert (rows_are_rows ex1_heap ex1_table) as Hyp2.
  { exact ex1_rows_are_rows. }
  assert (DataColumnCollection.Map_has (_columns (columns ex1_table)) (column_arg_name (ColumnName "b")) = false) as Hyp3.
  { reflexivity. }
  assert (assignable (column_arg_name (ColumnName "b"))) as Hyp4.
  { unfold assignable; compute_done. }
  assert (assignable_columns (_columns (columns ex1_table))) as Hyp5.
  { unfold assignable_columns, assignable; compute_done. }
  exact (conj Hyp1 (conj Hyp2 (conj Hyp3 (conj Hyp4 (conj Hyp5 (C5_column_default_in_rows (H := simple_engine) ex1_heap 1%positive ex1_table ((ColumnName "b")) ((Some "string")) Hyp1 Hyp2 Hyp3 Hyp4 Hyp5)))))).
Defined.

(** * Further properties of the code *)

(** ** [DataRow.get] by position *)

Section RowGet.
Import DataColumnCollection.

Lemma array_index_nat (i : nat) : array_index (number_of_Z (Z.of_nat i)) = Some i.
Proof.
  assert (Qred (inject_Z (Z.of_nat i)) = inject_Z (Z.of_nat i)) as Hred.
  { unfold Qred, inject_Z.
    pose proof (Z.ggcd_gcd (Z.of_nat i) 1) as Hg.
    pose proof (Z.ggcd_correct_divisors (Z.of_nat i) 1) as Hd.
    destruct (Z.ggcd (Z.of_nat i) 1) as [g [a b]]. simpl in *.
    rewrite Z.gcd_1_r in Hg. subst g. destruct Hd as [Ha Hb].
    assert (a = Z.of_nat i) as -> by lia. by assert (b = 1%Z) as -> by lia. }
  unfold array_index, number_of_Z. rewrite Hred. simpl.
  rewrite (proj2 (Z.leb_le 0 (Z.of_nat i))) by lia.
  by rewrite Nat2Z.id.
Qed.

End RowGet.

(** ** [DataRow.set] and the original values *)

Section OriginalValues.
Context `{Engine}.
Import DataColumnCollection.



End OriginalValues.

(** ** Rows removed by position or by instance *)

Section RowRemoval.
Import DataColumnCollection.

Lemma truncate_position (q : Q) (i : nat) :
  Qle (inject_Z (Z.of_nat i)) q ->
  Qlt q (inject_Z (Z.of_nat (S i))) ->
  DataRowCollection.ToIntegerOrInfinity_nat (Fin q) = i.
Proof.
  destruct q as [n d]. unfold Qle, Qlt, DataRowCollection.ToIntegerOrInfinity_nat.
  simpl. intros Hle Hlt.
  assert (n ÷ Z.pos d = Z.of_nat i)%Z as ->; [|apply Nat2Z.id].
  rewrite Z.quot_div_nonneg by lia.
  symmetry. apply (Z.div_unique_pos n (Z.pos d) (Z.of_nat i) (n - Z.of_nat i * Z.pos d));
    lia.
Qed.

(** X3: [removeRow] with an index in range removes the row at the integer
    part of the index, and only that one: the other rows keep their
    order, and no row object is written. *)
Theorem removeRow_in_range (h : heap) (table : loc) (t : DataTable) (q : Q) (i : nat) :
  h !! table = Some (CTable t) ->
  (i < List.length (_rows (rows t)))%nat ->
  Qle (inject_Z (Z.of_nat i)) q ->
  Qlt q (inject_Z (Z.of_nat (S i))) ->
  DataTable.removeRow table (Fin q) h
  = (<[table := CTable (with_rows t (delete i (_rows (rows t))))]> h, Ok tt).
Proof.
  intros Ht Hi Hle Hlt. unfold DataTable.removeRow, DataRowCollection.removeAt.
  rewrite (modify_table_eq _ _ _ _ Ht).
  assert (js_ge (VNum (Fin q)) (VNum (Fin 0))
          && js_lt (VNum (Fin q))
               (VNum (number_of_Z (Z.of_nat (List.length (_rows (rows t)))))) = true)
    as ->.
  { unfold js_ge, js_lt, less_than, number_of_Z. simpl. rewrite negb_involutive.
    apply andb_true_intro. split.
    - apply Qle_bool_iff. eapply Qle_trans; [|exact Hle].
      unfold Qle. simpl. lia.
    - apply negb_true_iff, not_true_iff_false. rewrite Qle_bool_iff.
      apply Qlt_not_le. eapply Qlt_le_trans; [exact Hlt|].
      unfold Qle. simpl. lia. }
  rewrite (truncate_position q i Hle Hlt).
  unfold DataRowCollection.splice1. by rewrite delete_take_drop.
Qed.

Lemma indexOf_None (l : list loc) (row : loc) :
  ~ row ∈ l -> DataRowCollection.indexOf l row = None.
Proof.
  induction l as [|x l IH]; intros Hnin; [done|]. simpl.
  destruct (decide (x = row)) as [->|_]; [exfalso; apply Hnin; left|].
  rewrite IH; [done|]. intros Hin. apply Hnin. by right.
Qed.

Lemma indexOf_first (l1 l2 : list loc) (row : loc) :
  ~ row ∈ l1 -> DataRowCollection.indexOf (l1 ++ row :: l2) row = Some (List.length l1).
Proof.
  induction l1 as [|x l1 IH]; intros Hnin; simpl.
  - by destruct (decide (row = row)).
  - destruct (decide (x = row)) as [->|_]; [exfalso; apply Hnin; left|].
    rewrite IH; [done|]. intros Hin. apply Hnin. by right.
Qed.

(** X4: [rows.remove(row)] removes the first occurrence of the row in the
    collection and nothing else; for a row that is not in the collection
    it does nothing. *)
Theorem rows_remove (h : heap) (table : loc) (t : DataTable) (row : loc) :
  h !! table = Some (CTable t) ->
  (~ row ∈ _rows (rows t) -> DataRowCollection.remove table row h = (h, Ok tt))
  /\ (forall l1 l2,
        _rows (rows t) = l1 ++ row :: l2 -> ~ row ∈ l1 ->
        DataRowCollection.remove table row h
        = (<[table := CTable (with_rows t (l1 ++ l2))]> h, Ok tt)).
Proof.
  intros Ht. split.
  - intros Hnin. unfold DataRowCollection.remove.
    rewrite (modify_table_eq _ _ _ _ Ht), (indexOf_None _ _ Hnin).
    by rewrite insert_id.
  - intros l1 l2 Hrows Hnin. unfold DataRowCollection.remove.
    rewrite (modify_table_eq _ _ _ _ Ht), Hrows, (indexOf_first _ _ _ Hnin).
    unfold DataRowCollection.splice1.
    rewrite take_app_length.
    rewrite (cons_middle row l1 l2), (assoc_L (++)).
    rewrite (drop_app_length' (l1 ++ [row]) l2); [done|].
    rewrite length_app. simpl. lia.
Qed.
End RowRemoval.

(** ** [addRow] with an array, and with [null] *)

Section AddRowArray.
Import DataColumnCollection.

Lemma add_elements_notin (vals : list val) (entries : list (nat * DataColumn))
    (init : gmap string val) (name : string) :
  ~ name ∈ Map_keys entries.*2 ->
  foldl (add_element vals) init entries !! name = init !! name.
Proof.
  revert init. induction entries as [|[index col] entries IH]; intros init Hnin; [done|].
  simpl in *. rewrite IH.
  - unfold add_element. simpl. rewrite lookup_insert_ne; [done|].
    intros Heq. apply Hnin. rewrite <- Heq. left.
  - intros Hin. apply Hnin. by right.
Qed.

Lemma imap_with_snd {A} (f : nat -> nat) (l : list A) :
  (imap (fun j x => (f j, x)) l).*2 = l.
Proof.
  revert f. induction l as [|x l IH]; intros f; [done|].
  simpl. f_equal. apply (IH (f ∘ S)).
Qed.

Lemma add_elements_position (vals : list val) (cols : list DataColumn)
    (g : nat -> nat) (init : gmap string val) (i : nat) (c : DataColumn) :
  NoDup (Map_keys cols) ->
  cols !! i = Some c ->
  foldl (add_element vals) init (imap (fun j x => (g j, x)) cols) !! columnName c
  = Some (default VUndefined (vals !! g i)).
Proof.
  revert g init i. induction cols as [|x cols IH]; intros g init i Hnd Hi; [done|].
  simpl in Hnd. apply NoDup_cons in Hnd as [Hx Hnd]. simpl.
  destruct i as [|i]; simpl in Hi.
  - injection Hi as ->. rewrite add_elements_notin.
    + unfold add_element. simpl. by rewrite lookup_insert_eq.
    + assert ((imap ((fun j x => (g j, x)) ∘ S) cols).*2 = cols) as ->; [|done].
      apply (imap_with_snd (g ∘ S)).
  - apply (IH (g ∘ S) _ i Hnd Hi).
Qed.

(** X5: On a table with no column named [__proto__], [addRow] with an
    array fills the columns by position: the column at
    position [i] holds the element [i] of the array as it is given (it is
    not converted to the type of the column and a null is not rejected),
    or [undefined], not the default value of the column, when the array
    is shorter; elements beyond the columns are ignored.  The new row is
    in the state Added, and it is appended and returned. *)
Theorem addRow_array (h : heap) (table : loc) (t : DataTable) (vals : list val) :
  h !! table = Some (CTable t) ->
  NoDup (Map_keys (_columns (columns t))) ->
  assignable_columns (_columns (columns t)) ->
  DataTable.addRow table (RowArray vals) h
  = (<[table := CTable (with_rows t (_rows (rows t) ++ [fresh (dom h)]))]>
       (<[fresh (dom h) := CRow (array_row table (_columns (columns t)) vals)]> h),
     Ok (fresh (dom h)))
  /\ (forall i c, _columns (columns t) !! i = Some c ->
        _values (array_row table (_columns (columns t)) vals) !! columnName c
        = Some (default VUndefined (vals !! i)))
  /\ dom (_values (array_row table (_columns (columns t)) vals))
     = list_to_set (Map_keys (_columns (columns t))).
Proof.
  intros Ht Hnd _. split; [|split].
  - set (row := fresh (dom h)).
    set (r0 := {| _table := table;
                  _values := DataRow.initial_values (_columns (columns t));
                  _rowState := DataRowState.ADDED; _originalValues := ∅ |}).
    assert (table <> row) as Hne by (by apply (fresh_ne h table (CTable t))).
    unfold DataTable.addRow, DataRowCollection.add.
    rewrite !bind_eq, (new_row_eq _ _ _ Ht). fold row r0.
    rewrite bind_eq. unfold get_table at 1, read at 1.
    rewrite (read_table_Some _ table t) by (by rewrite lookup_insert_ne).
    rewrite bind_eq, (add_elements_eq _ row r0) by (by rewrite lookup_insert_eq).
    unfold ret at 1. rewrite insert_insert_eq, bind_eq.
    erewrite modify_table_eq; [done|]. by rewrite lookup_insert_ne.
  - intros i c Hi. simpl.
    apply (add_elements_position vals (_columns (columns t)) id _ i c Hnd Hi).
  - simpl. rewrite add_elements_dom, imap_pair_snd, initial_values_dom.
    apply (idemp_L (∪)).
Qed.

(** X6: [addRow(null)] raises a TypeError ([Object.entries(null)]); the row
    that was built for it is not added: the rows of the table are as
    they were. *)
Theorem addRow_null (h : heap) (table : loc) (t : DataTable) :
  h !! table = Some (CTable t) ->
  exists h',
    DataTable.addRow table RowNull h = (h', Throw TypeError)
    /\ h' !! table = Some (CTable t)
    /\ (forall l c, h !! l = Some c -> h' !! l = Some c).
Proof.
  intros Ht. unfold DataTable.addRow, DataRowCollection.add.
  rewrite !bind_eq, (new_row_eq _ _ _ Ht). eexists. split; [done|].
  assert (forall l c, h !! l = Some c ->
            <[fresh (dom h) := CRow (new_row table (_columns (columns t)))]> h !! l
            = Some c) as Hframe.
  { intros l c Hl. rewrite lookup_insert_ne; [done|].
    by apply not_eq_sym, (fresh_ne h l c). }
  split; [by apply Hframe|exact Hframe].
Qed.
End AddRowArray.

(** ** [findRows] and [findOne] with a criteria object *)

Section FindRows.
Context `{Engine}.
Import DataColumnCollection.

Lemma match_first_operator (v : val) (ops : operators) :
  DataTable.match_criterion v (MatchOperators (first_operator ops))
  = DataTable.match_criterion v (MatchOperators ops).
Proof.
  destruct ops as [[?|] [?|] [?|] [?|] [?|] [?|] [?|]]; reflexivity.
Qed.

Lemma matches_first_only (entries : list (string * criterion)) (r : DataRow) :
  DataTable.matches (map first_only entries) r = DataTable.matches entries r.
Proof.
  unfold DataTable.matches. induction entries as [|[k c] entries IH]; [done|].
  simpl. rewrite IH. f_equal.
  destruct c as [test|ops|v]; try done. apply match_first_operator.
Qed.

(** X7: An operator object is read up to its first operator, in the order
    [$gt], [$gte], [$lt], [$lte], [$ne], [$in], [$contains]: the other
    operators of the object are ignored, so a range [{$gt: a, $lt: b}]
    finds what [{$gt: a}] finds. *)
Theorem findRows_first_operator (h : heap) (table : loc)
    (entries : list (string * criterion)) :
  DataTable.findRows h table (CriteriaObject entries)
  = DataTable.findRows h table (CriteriaObject (map first_only entries))
  /\ DataTable2.findRows h table (CriteriaObject entries)
     = DataTable2.findRows h table (CriteriaObject (map first_only entries)).
Proof.
  unfold DataTable.findRows, DataTable2.findRows.
  destruct (read_table h table) as [t|]; [|done]. simpl.
  split; apply Array_filter_ext; intros row _;
    destruct (read_row h row) as [r|]; try done; simpl;
    by rewrite matches_first_only.
Qed.

End FindRows.

(** ** [sort] by a column *)

Section ArraySortOrder.
Context {A : Type}.

(** With a comparator that throws on every pair, an array of two or
    more elements is not sorted. *)
Lemma Array_sort_throws (cmp : A -> A -> outcome val) (e : error) (l : list A) :
  (forall a b, a ∈ l -> b ∈ l -> cmp a b = Throw e) ->
  (2 <= List.length l)%nat ->
  Array_sort cmp l = Throw e.
Proof.
  induction l as [|x l IH]; intros Hcmp Hlen; [simpl in Hlen; lia|].
  simpl. destruct l as [|y l]; [simpl in Hlen; lia|].
  destruct l as [|z l].
  - simpl. rewrite (Hcmp x y); [done|left|right; left].
  - rewrite IH; [done| |simpl; lia].
    intros a b Ha Hb. apply Hcmp; by right.
Qed.

Variable le : A -> A -> Prop.
Variable cmp : A -> A -> outcome val.
Hypothesis le_trans : forall a b c, le a b -> le b c -> le a c.

Lemma insert_sorted_ordered (x : A) (l s : list A) :
  (forall y, y ∈ l ->
     exists v, cmp x y = Ok v
               /\ (if is_positive (ToNumber v) then le y x else le x y)) ->
  ordered le l ->
  insert_sorted cmp x l = Ok s ->
  ordered le s.
Proof.
  revert s. induction l as [|y l IH]; intros s Hcmp Hord; simpl.
  - intros [= <-]. by split.
  - destruct (Hcmp y) as (v & Hv & Hle); [left|]. rewrite Hv. simpl.
    destruct Hord as [Hy Hord].
    destruct (is_positive (ToNumber v)).
    + destruct (insert_sorted cmp x l) as [r|] eqn:Hins; [|done]. simpl.
      intros [= <-]. split.
      * rewrite (insert_sorted_perm cmp x l r Hins). by constructor.
      * apply (IH r); [|done..]. intros z Hz. apply Hcmp. by right.
    + intros [= <-]. split; [|by split].
      constructor; [done|]. eapply Forall_impl; [exact Hy|].
      intros z Hz. by apply (le_trans x y z).
Qed.

(** With a comparator that tells, for every pair, which of the two is
    at most the other in a transitive order, the sorted array is in
    that order. *)
Lemma Array_sort_ordered (l s : list A) :
  (forall x y, x ∈ l -> y ∈ l ->
     exists v, cmp x y = Ok v
               /\ (if is_positive (ToNumber v) then le y x else le x y)) ->
  Array_sort cmp l = Ok s ->
  ordered le s.
Proof.
  revert s. induction l as [|x l IH]; intros s Hcmp; simpl.
  - by intros [= <-].
  - destruct (Array_sort cmp l) as [r|] eqn:Hr; [|done]. simpl.
    apply insert_sorted_ordered.
    + intros y Hy. apply Hcmp; [left|right].
      by rewrite <- (Array_sort_perm cmp l r Hr).
    + apply (IH r); [|done]. intros a b Ha Hb. apply Hcmp; by right.
Qed.
End ArraySortOrder.

Section SortByColumn.
Context `{Engine}.
Import DataColumnCollection.

Lemma item_of_row (h : heap) (table row : loc) (t : DataTable) (r : DataRow)
    (name : string) :
  h !! table = Some (CTable t) ->
  h !! row = Some (CRow r) ->
  _table r = table ->
  DataRow.item h row name
  = if Map_has (_columns (columns t)) name then Ok (value_of h row name)
    else Throw (ColumnDoesNotExist name).
Proof.
  intros Ht Hr Htab. unfold DataRow.item, DataRow.get, value_of.
  rewrite (read_row_Some _ _ _ Hr). cbn [outcome_bind].
  rewrite Htab, (read_table_Some _ _ _ Ht). cbn [outcome_bind].
  unfold DataRow.get_in, Map_has. rewrite Hr.
  by destruct (has_key _ name).
Qed.

(** X9: [sort] by a name that is not a column of the table raises the error
    of [get] as soon as two rows are compared, and leaves the rows in
    their order; on a table with one row or none nothing is compared,
    and [sort] returns without an error. *)
Theorem sort_missing_column (h : heap) (table : loc) (t : DataTable)
    (name order : string) :
  table_ok h table t ->
  Map_has (_columns (columns t)) name = false ->
  ((2 <= List.length (_rows (rows t)))%nat ->
   DataTable.sort table (SortColumnName name) order h
   = (h, Throw (ColumnDoesNotExist name)))
  /\ ((List.length (_rows (rows t)) <= 1)%nat ->
      DataTable.sort table (SortColumnName name) order h = (h, Ok tt)).
Proof.
  intros (Ht & _ & Hrows) Hhas. unfold DataTable.sort.
  rewrite (read_table_Some _ _ _ Ht). split.
  - intros Hlen. rewrite (Array_sort_throws _ (ColumnDoesNotExist name)); [done| |done].
    intros a b Ha Hb. destruct (Hrows a Ha) as (ra & Hra & Hta).
    unfold DataTable.compare_column.
    by rewrite (item_of_row h table a t ra name Ht Hra Hta), Hhas.
  - intros Hlen.
    assert (Array_sort (DataTable.compare_column h table name order) (_rows (rows t))
            = Ok (_rows (rows t))) as ->.
    { destruct (_rows (rows t)) as [|x [|y l]]; [done|done|simpl in Hlen; lia]. }
    by rewrite with_rows_rows, insert_id.
Qed.

Lemma Qle_of_minus (p q : Q) : Qle (p - q) 0 -> Qle p q.
Proof.
  destruct p as [a b], q as [c d]. unfold Qle, Qminus, Qplus, Qopp. simpl. lia.
Qed.

Lemma Qle_of_minus_pos (p q : Q) : ~ Qle (p - q) 0 -> Qle q p.
Proof.
  destruct p as [a b], q as [c d]. unfold Qle, Qminus, Qplus, Qopp. simpl. lia.
Qed.

Lemma Qle_of_opp_minus (p q : Q) : Qle (- (p - q)) 0 -> Qle q p.
Proof.
  destruct p as [a b], q as [c d]. unfold Qle, Qminus, Qplus, Qopp. simpl. lia.
Qed.

Lemma Qle_of_opp_minus_pos (p q : Q) : ~ Qle (- (p - q)) 0 -> Qle p q.
Proof.
  destruct p as [a b], q as [c d]. unfold Qle, Qminus, Qplus, Qopp. simpl. lia.
Qed.

Lemma number_le_trans (h : heap) (name : string) (a b c : loc) :
  number_le h name a b -> number_le h name b c -> number_le h name a c.
Proof.
  intros (p & q & Hp & Hq & Hpq) (q' & r & Hq' & Hr & Hqr).
  rewrite Hq in Hq'. injection Hq' as <-.
  exists p, r. split; [done|]. split; [done|]. by apply (Qle_trans p q r).
Qed.

(** The comparator of [sort] on a column typed number, for two rows
    that hold finite numbers in it: a result that is positive when the
    first number is the greater in the order asked for, and not
    positive when it is at most the second. *)
Lemma compare_number_column (h : heap) (table : loc) (t : DataTable)
    (name order : string) (column : DataColumn) (a b : loc) (ra rb : DataRow)
    (p q : Q) :
  h !! table = Some (CTable t) ->
  Map_get (_columns (columns t)) name = Some column ->
  toLowerCase <$> dataType column = Some "number" ->
  h !! a = Some (CRow ra) -> _table ra = table ->
  h !! b = Some (CRow rb) -> _table rb = table ->
  number_at h a name = Some p ->
  number_at h b name = Some q ->
  exists v,
    DataTable.compare_column h table name order a b = Ok v
    /\ (if is_positive (ToNumber v)
        then (if String.eqb order "asc" then Qle q p else Qle p q)
        else (if String.eqb order "asc" then Qle p q else Qle q p)).
Proof.
  intros Ht Hget Hdt Ha Hta Hb Htb Hp Hq.
  assert (Map_has (_columns (columns t)) name = true) as Hhas
    by (apply Map_get_has; eauto).
  unfold DataTable.compare_column.
  rewrite (item_of_row h table a t ra name Ht Ha Hta), Hhas.
  rewrite (item_of_row h table b t rb name Ht Hb Htb), Hhas.
  cbn [outcome_bind].
  unfold number_at in Hp, Hq.
  destruct (value_of h a name) as [| | |[| | |p']| |]; try done.
  destruct (value_of h b name) as [| | |[| | |q']| |]; try done.
  injection Hp as ->. injection Hq as ->.
  simpl strict_equal. unfold number_eqb.
  destruct (Qeq_bool p q) eqn:Heq.
  - apply Qeq_bool_iff in Heq. eexists. split; [done|]. simpl.
    destruct (String.eqb order "asc"); rewrite Heq; apply Qle_refl.
  - simpl is_nullish. cbn iota.
    rewrite (read_table_Some _ _ _ Ht). cbn [outcome_bind]. rewrite Hget, Hdt.
    simpl. eexists. split; [done|].
    destruct (String.eqb order "asc"); simpl.
    + destruct (Qle_bool (Qred (p - q)) 0) eqn:Hle; simpl.
      * apply Qle_bool_iff in Hle. rewrite Qred_correct in Hle.
        by apply Qle_of_minus.
      * apply not_true_iff_false in Hle. rewrite Qle_bool_iff, Qred_correct in Hle.
        by apply Qle_of_minus_pos.
    + destruct (Qle_bool (Qred (- Qred (p - q))) 0) eqn:Hle; simpl.
      * apply Qle_bool_iff in Hle. rewrite !Qred_correct in Hle.
        by apply Qle_of_opp_minus.
      * apply not_true_iff_false in Hle. rewrite Qle_bool_iff, !Qred_correct in Hle.
        by apply Qle_of_opp_minus_pos.
Qed.

(** X10: [sort] by a column typed number, on a table whose rows hold finite
    numbers in that column, does not throw: it writes the rows of the
    table back as a permutation of themselves in which the numbers
    ascend for the order ['asc'] and descend for any other order. *)
Theorem sort_number_column (h : heap) (table : loc) (t : DataTable)
    (name order : string) (column : DataColumn) :
  table_ok h table t ->
  Map_get (_columns (columns t)) name = Some column ->
  toLowerCase <$> dataType column = Some "number" ->
  (forall row, row ∈ _rows (rows t) -> is_Some (number_at h row name)) ->
  exists sorted,
    DataTable.sort table (SortColumnName name) order h
    = (<[table := CTable (with_rows t sorted)]> h, Ok tt)
    /\ sorted ≡ₚ _rows (rows t)
    /\ ordered (if String.eqb order "asc" then number_le h name
                else flip (number_le h name)) sorted.
Proof.
  intros (Ht & _ & Hrows) Hget Hdt Hnum.
  assert (forall a b, a ∈ _rows (rows t) -> b ∈ _rows (rows t) ->
            exists v,
              DataTable.compare_column h table name order a b = Ok v
              /\ (if is_positive (ToNumber v)
                  then (if String.eqb order "asc" then number_le h name
                        else flip (number_le h name)) b a
                  else (if String.eqb order "asc" then number_le h name
                        else flip (number_le h name)) a b)) as Hcmp.
  { intros a b Ha Hb.
    destruct (Hrows a Ha) as (ra & Hra & Hta). destruct (Hrows b Hb) as (rb & Hrb & Htb).
    destruct (Hnum a Ha) as [p Hp]. destruct (Hnum b Hb) as [q Hq].
    destruct (compare_number_column h table t name order column a b ra rb p q)
      as (v & Hv & Hle); try done.
    exists v. split; [done|]. unfold flip, number_le.
    destruct (is_positive (ToNumber v)), (String.eqb order "asc"); eauto 6. }
  destruct (Array_sort_total (DataTable.compare_column h table name order)
              (_rows (rows t))) as [sorted Hsorted].
  { intros a b Ha Hb. destruct (Hcmp a b Ha Hb) as (v & -> & _). done. }
  exists sorted. split; [|split].
  - unfold DataTable.sort. by rewrite (read_table_Some _ _ _ Ht), Hsorted.
  - by apply (Array_sort_perm _ _ _ Hsorted).
  - apply (Array_sort_ordered _ (DataTable.compare_column h table name order))
      with (l := _rows (rows t)); [|done..].
    intros a b c. destruct (String.eqb order "asc"); unfold flip.
    + apply number_le_trans.
    + intros Hab Hbc. by apply (number_le_trans h name c b a).
Qed.
End SortByColumn.

(** ** [sortMultiple] *)

Section SortMultiple.
Import DataColumnCollection.

Lemma insert_sorted_ext {A} (f g : A -> A -> outcome val) (x : A) (l : list A) :
  (forall a b, f a b = g a b) -> insert_sorted f x l = insert_sorted g x l.
Proof.
  intros Hfg. induction l as [|y l IH]; [done|]. simpl. by rewrite Hfg, IH.
Qed.

Lemma Array_sort_ext {A} (f g : A -> A -> outcome val) (l : list A) :
  (forall a b, f a b = g a b) -> Array_sort f l = Array_sort g l.
Proof.
  intros Hfg. induction l as [|x l IH]; [done|]. simpl. rewrite IH.
  destruct (Array_sort g l) as [s|]; [|done]. simpl.
  by apply insert_sorted_ext.
Qed.

Lemma Array_sort_zero {A} (cmp : A -> A -> outcome val) (l : list A) :
  (forall a b, cmp a b = Ok (VNum (Fin 0))) -> Array_sort cmp l = Ok l.
Proof.
  intros Hcmp. induction l as [|x l IH]; [done|]. simpl. rewrite IH. simpl.
  destruct l as [|y l]; [done|]. simpl. by rewrite Hcmp.
Qed.

(** X11: [sortMultiple] with no criterion leaves the rows in their order, and
    with the one criterion of a column in ascending order it is
    [sortBy] with the function that reads the column. *)
Theorem sortMultiple_sortBy (h : heap) (table : loc) (t : DataTable)
    (column : key) (order : option string) :
  h !! table = Some (CTable t) ->
  default "asc" order = "asc" ->
  DataTable.sortMultiple table [] h = (h, Ok tt)
  /\ DataTable.sortMultiple table [(column, order)] h
     = DataTable.sortBy table (fun row => call_get row column) h.
Proof.
  intros Ht Horder. unfold DataTable.sortMultiple, DataTable.sortBy.
  rewrite (read_table_Some _ _ _ Ht). split.
  - rewrite Array_sort_zero by done. by rewrite with_rows_rows, insert_id.
  - rewrite (Array_sort_ext (DataTable.compare_multiple h [(column, order)])
               (DataTable.compare_expression h (fun row => call_get row column)));
      [done|].
    intros a b. unfold DataTable.compare_expression. simpl. rewrite !get_arg.
    destruct (arg_of_row h a) as [x|]; [|done]. simpl.
    destruct (call_get x column) as [valueA|]; [|done]. simpl.
    destruct (arg_of_row h b) as [y|]; [|done]. simpl.
    destruct (call_get y column) as [valueB|]; [|done]. simpl.
    rewrite Horder. simpl.
    destruct (strict_equal valueA valueB); [done|].
    destruct (is_null valueA); [done|]. by destruct (is_null valueB).
Qed.
End SortMultiple.

(** ** [loadFromQuery] *)

Section LoadFromQuery.
Import DataColumnCollection.

Lemma forEach_app {A} (l1 l2 : list A) (f : A -> M unit) (h : heap) :
  forEach (l1 ++ l2) f h
  = match forEach l1 f h with
    | (h', Ok _) => forEach l2 f h'
    | (h', Throw e) => (h', Throw e)
    end.
Proof.
  revert h. induction l1 as [|x l1 IH]; intros h; [done|].
  simpl. rewrite !bind_eq. destruct (f x h) as [h1 [[]|e]]; [|done]. apply IH.
Qed.

Lemma query_columns_keys (table : loc) (cols : list DataColumn)
    (firstRow : list (string * val)) :
  Map_keys (query_columns table cols firstRow) = Map_keys cols ++ firstRow.*1.
Proof.
  revert cols. induction firstRow as [|[k v] firstRow IH]; intros cols; simpl.
  - by rewrite app_nil_r.
  - unfold query_columns in *. simpl. rewrite IH, Map_keys_app. simpl.
    by rewrite <- app_assoc.
Qed.

(** The columns after the load, in closed form: the columns that were
    there, then one column for each property of the first row. *)
Lemma query_columns_eq (table : loc) (cols : list DataColumn)
    (firstRow : list (string * val)) :
  query_columns table cols firstRow
  = cols ++ imap (fun i => query_column table (List.length cols + i)) firstRow.
Proof.
  revert cols. induction firstRow as [|[k v] firstRow IH]; intros cols.
  - simpl. by rewrite app_nil_r.
  - unfold query_columns in *. simpl. rewrite IH, <- app_assoc. simpl.
    f_equal. f_equal.
    + unfold query_column, added_column. simpl. by rewrite Nat.add_0_r.
    + apply imap_ext. intros i e _. simpl. f_equal.
      rewrite length_app. simpl. lia.
Qed.

(** The loop that creates the columns, on a table without rows: every
    property whose name is new adds a column. *)
Lemma query_columns_loop (firstRow : list (string * val)) (g : heap) (table : loc)
    (nt : DataTable) :
  g !! table = Some (CTable nt) ->
  _rows (rows nt) = [] ->
  NoDup (Map_keys (_columns (columns nt)) ++ firstRow.*1) ->
  forEach firstRow (fun '(columnName, value) =>
    let! _ := DataTable.addColumn table (ColumnName columnName)
                (Some (DataTable.query_type value)) in
    ret tt) g
  = (<[table := CTable (with_columns nt
                          (query_columns table (_columns (columns nt)) firstRow))]> g,
     Ok tt).
Proof.
  revert g nt. induction firstRow as [|[k v] firstRow IH]; intros g nt Hnt Hrows Hnd.
  - simpl. unfold ret. by rewrite with_columns_columns, insert_id.
  - simpl. rewrite !bind_eq. unfold DataTable.addColumn.
    assert (Map_has (_columns (columns nt)) k = false) as Hhas.
    { apply not_true_iff_false. rewrite Map_has_true. intros Hin.
      apply NoDup_app in Hnd as (_ & Hdisj & _). apply (Hdisj k Hin). left. }
    rewrite (add_eq g table nt (ColumnName k) _ Hnt); [| |done].
    2:{ intros row Hin. rewrite Hrows in Hin. by apply elem_of_nil in Hin. }
    rewrite Hrows. cbn [update_rows foldl fst snd]. unfold ret at 1.
    set (nt1 := with_columns nt
                  (_columns (columns nt)
                   ++ [added_column table (_columns (columns nt)) (ColumnName k)
                         (Some (DataTable.query_type v))])).
    rewrite (IH _ nt1).
    + by rewrite insert_insert_eq.
    + by rewrite lookup_insert_eq.
    + done.
    + simpl. rewrite Map_keys_app. simpl. rewrite <- app_assoc. done.
Qed.

(** The loop that adds the rows: one new row for each object, built as
    [addRow] builds it; only the table and the new rows are written. *)
Lemma query_rows_loop (qs : list (list (string * val))) (g : heap) (table : loc)
    (nt : DataTable) :
  g !! table = Some (CTable nt) ->
  exists g' news,
    forEach qs (fun row =>
      let! _ := DataTable.addRow table (RowObject (list_to_map row)) in ret tt) g
    = (g', Ok tt)
    /\ g' !! table = Some (CTable (with_rows nt (_rows (rows nt) ++ news)))
    /\ Forall2 (fun l q =>
                  g' !! l = Some (CRow (object_row table (_columns (columns nt))
                                          (list_to_map q)))) news qs
    /\ (forall l c, l <> table -> g !! l = Some c -> g' !! l = Some c)
    /\ (forall l, l ∈ news -> g !! l = None).
Proof.
  revert g nt. induction qs as [|q qs IH]; intros g nt Hnt.
  - exists g, []. simpl. rewrite app_nil_r, with_rows_rows.
    split; [done|]. split; [done|]. split; [constructor|]. split; [done|].
    intros l Hl. by apply elem_of_nil in Hl.
  - simpl. rewrite !bind_eq, (addRow_object_store g table nt _ Hnt). unfold ret at 1.
    set (row := fresh (dom g)).
    assert (table <> row) as Hne by (by apply (fresh_ne g table (CTable nt))).
    match goal with
    | |- context [forEach qs _ ?g1] =>
        destruct (IH g1 (with_rows nt (_rows (rows nt) ++ [row])))
          as (g' & news & Heq & Htab & Hall & Hframe & Hfresh)
    end.
    { by rewrite lookup_insert_eq. }
    cbn [with_rows columns _columns rows _rows] in Heq, Htab, Hall.
    exists g', (row :: news). split; [exact Heq|]. split; [|split; [|split]].
    + rewrite Htab. simpl. by rewrite <- app_assoc.
    + constructor; [|done]. apply Hframe; [by apply not_eq_sym|].
      rewrite lookup_insert_ne by done. by rewrite lookup_insert_eq.
    + intros l c Hl Hc. apply Hframe; [done|].
      rewrite lookup_insert_ne by (by apply not_eq_sym).
      rewrite lookup_insert_ne; [done|]. by apply not_eq_sym, (fresh_ne g l c).
    + intros l [->|Hin]%elem_of_cons; [apply fresh_lookup|].
      specialize (Hfresh l Hin).
      destruct (decide (l = table)) as [->|Hlt];
        [by rewrite lookup_insert_eq in Hfresh|].
      rewrite lookup_insert_ne in Hfresh by done.
      destruct (decide (l = row)) as [->|Hlr]; [apply fresh_lookup|].
      by rewrite lookup_insert_ne in Hfresh.
Qed.

(** X12: [loadFromQuery] with an empty array does nothing.  On a table
    with no column named [__proto__], with a first row
    whose property names are not columns of the table yet and not
    [__proto__], it empties
    the rows of the table, adds a column for each property of the first
    row, in order, typed by [query_type], nullable and with the default
    [null], and adds one row for each object, holding the values of the
    object as they are; the row objects that the table had are not
    written. *)
Theorem loadFromQuery_new_columns (h : heap) (table : loc) (t : DataTable)
    (firstRow : list (string * val)) (rest : list (list (string * val))) :
  h !! table = Some (CTable t) ->
  NoDup (Map_keys (_columns (columns t)) ++ firstRow.*1) ->
  assignable_columns (_columns (columns t)) ->
  Forall assignable firstRow.*1 ->
  DataTable.loadFromQuery table [] h = (h, Ok tt)
  /\ exists h' news,
       DataTable.loadFromQuery table (firstRow :: rest) h = (h', Ok tt)
       /\ h' !! table
          = Some (CTable {| tableName := tableName t;
                            rows := {| _rows := news |};
                            columns :=
                              {| _columns := query_columns table (_columns (columns t))
                                               firstRow |};
                            caseSensitive := caseSensitive t |})
       /\ Forall2 (fun l q =>
                     h' !! l
                     = Some (CRow (object_row table
                                     (query_columns table (_columns (columns t)) firstRow)
                                     (list_to_map q))))
            news (firstRow :: rest)
       /\ (forall l c, l <> table -> h !! l = Some c -> h' !! l = Some c)
       /\ (forall l, l ∈ news -> h !! l = None)
       /\ query_columns table (_columns (columns t)) firstRow
          = _columns (columns t)
            ++ imap (fun i => query_column table (List.length (_columns (columns t)) + i))
                 firstRow.
Proof.
  intros Ht Hnd _ _. split; [done|].
  unfold DataTable.loadFromQuery, DataTable.clear, DataRowCollection.clear.
  rewrite bind_eq, (modify_table_eq _ _ _ _ Ht), bind_eq.
  rewrite (query_columns_loop firstRow _ table (with_rows t []));
    [|by rewrite lookup_insert_eq|done|done].
  rewrite insert_insert_eq.
  match goal with
  | |- context [forEach (firstRow :: rest) _ (<[table := CTable ?nt]> h)] =>
      destruct (query_rows_loop (firstRow :: rest) (<[table := CTable nt]> h) table nt)
        as (h' & news & Heq & Htab & Hall & Hframe & Hfresh)
  end.
  { by rewrite lookup_insert_eq. }
  exists h', news. split; [exact Heq|]. split; [exact Htab|]. split; [exact Hall|].
  split; [|split].
  - intros l c Hl Hc. apply Hframe; [done|]. by rewrite lookup_insert_ne.
  - intros l Hin. specialize (Hfresh l Hin).
    destruct (decide (l = table)) as [->|Hlt];
      [by rewrite lookup_insert_eq in Hfresh|].
    by rewrite lookup_insert_ne in Hfresh.
  - apply query_columns_eq.
Qed.

(** X13: [loadFromQuery] when a property of the first row names a column
    that the table has already, as it does on the second of two loads:
    the error of a duplicate column is raised at the first such
    property, after the rows of the table were removed and the columns
    of the properties before it were added. *)
Theorem loadFromQuery_existing_column (h : heap) (table : loc) (t : DataTable)
    (before after : list (string * val)) (k : string) (v : val)
    (rest : list (list (string * val))) :
  h !! table = Some (CTable t) ->
  NoDup (Map_keys (_columns (columns t)) ++ before.*1) ->
  Map_has (_columns (columns t)) k = true ->
  DataTable.loadFromQuery table ((before ++ (k, v) :: after) :: rest) h
  = (<[table := CTable {| tableName := tableName t;
                          rows := {| _rows := [] |};
                          columns :=
                            {| _columns := query_columns table (_columns (columns t))
                                             before |};
                          caseSensitive := caseSensitive t |}]> h,
     Throw (ColumnAlreadyExists k)).
Proof.
  intros Ht Hnd Hhas.
  unfold DataTable.loadFromQuery, DataTable.clear, DataRowCollection.clear.
  rewrite bind_eq, (modify_table_eq _ _ _ _ Ht), bind_eq.
  rewrite forEach_app.
  rewrite (query_columns_loop before _ table (with_rows t []));
    [|by rewrite lookup_insert_eq|done|done].
  rewrite insert_insert_eq. simpl forEach. rewrite !bind_eq.
  unfold DataTable.addColumn.
  erewrite add_duplicate; [done|by rewrite lookup_insert_eq|].
  simpl. apply Map_has_true. rewrite query_columns_keys.
  apply elem_of_app. left. by apply Map_has_true.
Qed.
End LoadFromQuery.

(** ** The tables and the relations of a dataset *)

Section DataSetTables.
Import DataColumnCollection.

Lemma tables_has_get (tables : list (string * loc)) (name : string) :
  DataSet.tables_has tables name = true <-> is_Some (DataSet.tables_get tables name).
Proof.
  unfold DataSet.tables_has, DataSet.tables_get.
  induction tables as [|[n l] tables IH]; simpl.
  - split; [done|]. by intros [? ?].
  - destruct (String.eqb n name); simpl; [|done]. split; [eauto|done].
Qed.

Lemma tables_get_set (tables : list (string * loc)) (name : string) (table : loc) :
  DataSet.tables_get (DataSet.tables_set tables name table) name = Some table.
Proof.
  unfold DataSet.tables_get. induction tables as [|[n l] tables IH]; simpl.
  - by rewrite String.eqb_refl.
  - destruct (String.eqb n name) eqn:Hn; simpl.
    + by rewrite String.eqb_refl.
    + by rewrite Hn.
Qed.

Lemma tables_get_set_ne (tables : list (string * loc)) (name other : string)
    (table : loc) :
  other <> name ->
  DataSet.tables_get (DataSet.tables_set tables name table) other
  = DataSet.tables_get tables other.
Proof.
  intros Hne. unfold DataSet.tables_get.
  induction tables as [|[n l] tables IH]; simpl.
  - by rewrite (proj2 (String.eqb_neq name other)) by done.
  - destruct (String.eqb_spec n name) as [->|Hn]; simpl.
    + by rewrite (proj2 (String.eqb_neq name other)) by done.
    + destruct (String.eqb n other); [done|]. apply IH.
Qed.

Lemma tables_get_delete (tables : list (string * loc)) (name : string) :
  DataSet.tables_get (DataSet.tables_delete tables name) name = None.
Proof.
  unfold DataSet.tables_get, DataSet.tables_delete.
  induction tables as [|[n l] tables IH]; [done|]. simpl.
  destruct (String.eqb n name) eqn:Hn; simpl; [done|]. by rewrite Hn.
Qed.

Lemma tables_get_delete_ne (tables : list (string * loc)) (name other : string) :
  other <> name ->
  DataSet.tables_get (DataSet.tables_delete tables name) other
  = DataSet.tables_get tables other.
Proof.
  intros Hne. unfold DataSet.tables_get, DataSet.tables_delete.
  induction tables as [|[n l] tables IH]; [done|]. simpl.
  destruct (String.eqb_spec n name) as [->|Hn]; simpl.
  - by rewrite (proj2 (String.eqb_neq name other)) by done.
  - destruct (String.eqb n other); [done|]. apply IH.
Qed.

(** [table] by the lookup in the [Map]. *)
Lemma table_get (ds : DataSet) (name : string) :
  DataSet.table ds name
  = match DataSet.tables_get (tables ds) name with
    | Some table => Ok table
    | None => Throw (TableDoesNotExist name)
    end.
Proof.
  unfold DataSet.table.
  destruct (DataSet.tables_has (tables ds) name) eqn:Hhas; simpl.
  - by apply tables_has_get in Hhas as [table ->].
  - apply not_true_iff_false in Hhas. rewrite tables_has_get in Hhas.
    by apply eq_None_not_Some in Hhas as ->.
Qed.

(** X14: [addTable] with a name that the dataset does not have creates the
    table, and with a table whose name it does not have takes the table:
    afterwards [table] of that name returns it, [hasTable] holds, and
    the other names and the relations are as they were.  With a name
    that the dataset has already it raises the error of a duplicate
    name. *)
Theorem addTable_table (h : heap) (ds : DataSet) (name : string) (table : loc)
    (t : DataTable) :
  h !! table = Some (CTable t) ->
  (DataSet.tables_has (tables ds) name = true ->
   (DataSet.addTable ds (DataSet.TableName name) h).2 = Throw (TableAlreadyExists name))
  /\ (DataSet.tables_has (tables ds) (tableName t) = true ->
      DataSet.addTable ds (DataSet.TableInstance table) h
      = (h, Throw (TableAlreadyExists (tableName t))))
  /\ (DataSet.tables_has (tables ds) name = false ->
      exists ds',
        DataSet.addTable ds (DataSet.TableName name) h
        = (<[fresh (dom h) :=
               CTable {| tableName := name; rows := {| _rows := [] |};
                         columns := {| _columns := [] |}; caseSensitive := false |}]> h,
           Ok (ds', fresh (dom h)))
        /\ DataSet.table ds' name = Ok (fresh (dom h))
        /\ DataSet.hasTable ds' name = true
        /\ (forall other, other <> name ->
              DataSet.table ds' other = DataSet.table ds other)
        /\ relations ds' = relations ds)
  /\ (DataSet.tables_has (tables ds) (tableName t) = false ->
      exists ds',
        DataSet.addTable ds (DataSet.TableInstance table) h = (h, Ok (ds', table))
        /\ DataSet.table ds' (tableName t) = Ok table
        /\ DataSet.hasTable ds' (tableName t) = true
        /\ (forall other, other <> tableName t ->
              DataSet.table ds' other = DataSet.table ds other)
        /\ relations ds' = relations ds).
Proof.
  intros Ht.
  assert (forall n l,
            let ds' := {| dataSetName := dataSetName ds;
                          tables := DataSet.tables_set (tables ds) n l;
                          relations := relations ds |} in
            DataSet.table ds' n = Ok l
            /\ DataSet.hasTable ds' n = true
            /\ (forall other, other <> n ->
                  DataSet.table ds' other = DataSet.table ds other)
            /\ relations ds' = relations ds) as Hset.
  { intros n l ds'. split; [|split; [|split]].
    - rewrite table_get. simpl. by rewrite tables_get_set.
    - unfold DataSet.hasTable. apply tables_has_get. simpl.
      rewrite tables_get_set. eauto.
    - intros other Hne. rewrite !table_get. simpl. by rewrite tables_get_set_ne.
    - done. }
  split; [|split; [|split]].
  - intros Hhas. unfold DataSet.addTable, DataTable.new.
    rewrite bind_eq, alloc_eq, bind_eq. unfold get_table, read.
    unfold read_table. rewrite lookup_insert_eq. simpl. by rewrite Hhas.
  - intros Hhas. unfold DataSet.addTable. rewrite bind_eq. unfold ret at 1.
    rewrite bind_eq. unfold get_table, read. rewrite (read_table_Some _ _ _ Ht).
    by rewrite Hhas.
  - intros Hhas. eexists. split; [|apply Hset].
    unfold DataSet.addTable, DataTable.new.
    rewrite bind_eq, alloc_eq, bind_eq. unfold get_table, read.
    unfold read_table. rewrite lookup_insert_eq. simpl. by rewrite Hhas.
  - intros Hhas. eexists. split; [|apply Hset].
    unfold DataSet.addTable. rewrite bind_eq. unfold ret at 1.
    rewrite bind_eq. unfold get_table, read. rewrite (read_table_Some _ _ _ Ht).
    by rewrite Hhas.
Qed.

Lemma filter_relations (h : heap) (name : string) (rels : list DataRelation) :
  relations_ok h rels ->
  Array_filter (fun rel =>
                  let? parent := DataSet.table_name_of h (parentTable rel) in
                  if negb (String.eqb parent name) then
                    let? child := DataSet.table_name_of h (childTable rel) in
                    Ok (negb (String.eqb child name))
                  else Ok false) rels
  = Ok (List.filter (fun rel => negb (involves h name rel)) rels)
  /\ Array_filter (fun rel =>
                     let? parent := DataSet.table_name_of h (parentTable rel) in
                     if String.eqb parent name then Ok true
                     else
                       let? child := DataSet.table_name_of h (childTable rel) in
                       Ok (String.eqb child name)) rels
     = Ok (List.filter (involves h name) rels).
Proof.
  intros Hok. split; apply Array_filter_Ok; intros rel Hin;
    destruct (Hok rel Hin) as [Hp Hc]; unfold involves;
    destruct (DataSet.table_name_of h (parentTable rel)) as [p|]; try done;
    destruct (DataSet.table_name_of h (childTable rel)) as [c|]; try done;
    simpl; by destruct (String.eqb p name), (String.eqb c name).
Qed.

(** X15: [removeTable] of a name that the dataset has removes the table and
    every relation that has a table of that name as its parent or its
    child, and keeps the other tables and the other relations in their
    order: afterwards [table] of the name raises NotFound and
    [getRelations] of the name is empty.  For a name that the dataset
    does not have it raises NotFound. *)
Theorem removeTable_relations (h : heap) (ds : DataSet) (name : string) :
  relations_ok h (relations ds) ->
  (DataSet.tables_has (tables ds) name = false ->
   DataSet.removeTable h ds name = Throw (TableDoesNotExist name)
   /\ kind_of (TableDoesNotExist name) = NotFound)
  /\ (DataSet.tables_has (tables ds) name = true ->
      exists ds',
        DataSet.removeTable h ds name = Ok ds'
        /\ relations ds' = List.filter (fun rel => negb (involves h name rel)) (relations ds)
        /\ DataSet.hasTable ds' name = false
        /\ DataSet.table ds' name = Throw (TableDoesNotExist name)
        /\ (forall other, other <> name ->
              DataSet.table ds' other = DataSet.table ds other)
        /\ DataSet.getRelations h ds' name = Ok [])
  /\ DataSet.getRelations h ds name = Ok (List.filter (involves h name) (relations ds)).
Proof.
  intros Hok. destruct (filter_relations h name (relations ds) Hok) as [Hkeep Hfind].
  split; [|split].
  - intros Hhas. unfold DataSet.removeTable. by rewrite Hhas.
  - intros Hhas. eexists. split.
    { unfold DataSet.removeTable. rewrite Hhas. simpl. by rewrite Hkeep. }
    simpl. split; [done|]. split; [|split; [|split]].
    + unfold DataSet.hasTable. apply not_true_iff_false. rewrite tables_has_get. simpl.
      rewrite tables_get_delete. by intros [? ?].
    + rewrite table_get. simpl. by rewrite tables_get_delete.
    + intros other Hne. rewrite !table_get. simpl. by rewrite tables_get_delete_ne.
    + unfold DataSet.getRelations. simpl.
      assert (relations_ok h
                (List.filter (fun rel => negb (involves h name rel)) (relations ds)))
        as Hok'.
      { intros rel Hin. apply filter_elem in Hin as [Hin _]. by apply Hok. }
      destruct (filter_relations h name _ Hok') as [_ ->]. f_equal.
      clear. induction (relations ds) as [|rel rels IH]; [done|]. simpl.
      destruct (involves h name rel) eqn:Hinv; simpl; [done|]. by rewrite Hinv.
  - exact Hfind.
Qed.

(** X16: [clear] of a dataset empties the rows of each of its tables and
    keeps their names and columns; nothing else is written. *)
Theorem dataset_clear (h : heap) (ds : DataSet) :
  (forall entry, entry ∈ tables ds -> exists t, h !! entry.2 = Some (CTable t)) ->
  exists h',
    DataSet.clear ds h = (h', Ok tt)
    /\ (forall entry t, entry ∈ tables ds -> h !! entry.2 = Some (CTable t) ->
          h' !! entry.2 = Some (CTable (with_rows t [])))
    /\ (forall l, ~ l ∈ (tables ds).*2 -> h' !! l = h !! l).
Proof.
  unfold DataSet.clear. generalize (tables ds). intros tabs. revert h.
  induction tabs as [|[n l] tabs IH]; intros h Htabs.
  - exists h. split; [done|]. split; [|done]. intros entry t Hin. by apply elem_of_nil in Hin.
  - destruct (Htabs (n, l)) as [t Ht]; [left|]. simpl in Ht.
    simpl forEach. rewrite bind_eq. unfold DataTable.clear, DataRowCollection.clear.
    rewrite (modify_table_eq _ _ _ _ Ht).
    destruct (IH (<[l := CTable (with_rows t [])]> h)) as (h' & Heq & Hin' & Hout).
    { intros entry Hin. destruct (decide (entry.2 = l)) as [->|Hne].
      - rewrite lookup_insert_eq. eauto.
      - rewrite lookup_insert_ne by done. apply Htabs. by right. }
    exists h'. split; [exact Heq|]. split.
    + intros entry t' [->|Hin]%elem_of_cons Ht'.
      * simpl in *. rewrite Ht in Ht'. injection Ht' as <-.
        destruct (decide (l ∈ tabs.*2)) as [Hl|Hl].
        -- apply list_elem_of_fmap in Hl as (entry & Hl & Hin).
           pose proof (Hin' entry (with_rows t []) Hin) as H1.
           rewrite <- Hl, lookup_insert_eq in H1. exact (H1 eq_refl).
        -- rewrite (Hout l Hl). by rewrite lookup_insert_eq.
      * destruct (decide (entry.2 = l)) as [Heq'|Hne].
        -- rewrite Heq' in Ht'. rewrite Ht in Ht'. injection Ht' as <-.
           pose proof (Hin' entry (with_rows t []) Hin) as H1.
           rewrite Heq', lookup_insert_eq in H1. rewrite Heq'. exact (H1 eq_refl).
        -- apply (Hin' entry); [done|]. by rewrite lookup_insert_ne.
    + intros l' Hl'. simpl in Hl'. apply not_elem_of_cons in Hl' as [Hne Hl'].
      rewrite (Hout l' Hl'). by rewrite lookup_insert_ne.
Qed.
End DataSetTables.

(** ** Relations *)

Section RelationLookups.
Context `{Engine}.
Import DataColumnCollection.

Lemma strict_equal_sym (a b : val) : strict_equal a b = strict_equal b a.
Proof.
  destruct a as [| |x|x|x|x], b as [| |y|y|y|y]; try done; simpl.
  - by destruct x, y.
  - destruct x as [| | |p], y as [| | |q]; try done. simpl.
    destruct (Qeq_bool p q) eqn:Hpq, (Qeq_bool q p) eqn:Hqp; try done.
    + apply Qeq_bool_iff, Qeq_sym, Qeq_bool_iff in Hpq. congruence.
    + apply Qeq_bool_iff, Qeq_sym, Qeq_bool_iff in Hqp. congruence.
  - apply String.eqb_sym.
Qed.

(** X17: [isValid] and [getChildRows] agree: with the [findRows] of
    src/unnamed/part_002, the child rows of a parent row are exactly the
    rows of the child table for which the relation is valid. *)
Theorem isValid_getChildRows (h : heap) (ds : DataSet) (name : string)
    (relation : DataRelation) (parent child parentRow : loc) (pt ct : DataTable) :
  DataSet.find_relation ds name = Some relation ->
  parentTable relation = Some parent ->
  childTable relation = Some child ->
  rows_have_column h parent pt (columnName (parentColumn relation)) ->
  rows_have_column h child ct (columnName (childColumn relation)) ->
  parentRow ∈ _rows (rows pt) ->
  exists children,
    DataSet.getChildRows2 h ds parentRow name = Ok children
    /\ forall childRow, childRow ∈ _rows (rows ct) ->
         exists valid,
           DataRelation.isValid h relation parentRow childRow = Ok valid
           /\ (valid = true <-> childRow ∈ children).
Proof.
  intros Hrel Hparent Hchild Hp Hc Hin.
  pose proof Hp as (Hpt & Hphas & Hprows). pose proof Hc as (Hct & Hchas & Hcrows).
  destruct (Hprows parentRow Hin) as (pr & Hpr & Hprt).
  eexists. split.
  { apply (getChildRows2_spec h ds name relation parentRow pr pt child ct);
      try done. by rewrite Hprt. }
  intros childRow Hcin. destruct (Hcrows childRow Hcin) as (cr & Hcr & Hcrt).
  eexists. split.
  { unfold DataRelation.isValid.
    rewrite (get_value_of h parentRow pr pt) by (by rewrite ?Hprt).
    rewrite (get_value_of h childRow cr ct) by (by rewrite ?Hcrt). done. }
  rewrite filter_elem, strict_equal_sym. tauto.
Qed.
End RelationLookups.

(** ** The rows of a view by position *)

Section ViewRow.
Context `{Engine}.
Import DataColumnCollection.

(** X18: [row] raises the error of an index out of range for a negative
    index and for an index that is the number of rows or more, and
    returns the row at an index that is a position.  An index that
    passes the test without being a position, [NaN] or a fraction,
    yields [undefined] and no error.  [firstRow] on a view without rows
    returns [null], where [row(0)] raises the error. *)
Theorem view_row_by_index (this : DataView.t) (h h1 : heap) (rows : list loc) :
  DataView.getRows this h = (h1, Ok rows) ->
  (forall i : nat,
      DataView.row this (number_of_Z (Z.of_nat i)) h
      = (h1, match rows !! i with
             | Some row => Ok (Some row)
             | None => Throw (IndexOutOfRange (number_of_Z (Z.of_nat i)))
             end))
  /\ (forall q, Qlt q 0 \/ Qle (inject_Z (Z.of_nat (List.length rows))) q ->
        DataView.row this (Fin q) h = (h1, Throw (IndexOutOfRange (Fin q))))
  /\ DataView.row this NaN h = (h1, Ok None)
  /\ (forall q, Qle 0 q -> Qlt q (inject_Z (Z.of_nat (List.length rows))) ->
        array_index (Fin q) = None ->
        DataView.row this (Fin q) h = (h1, Ok None))
  /\ DataView.firstRow this h = (h1, Ok (head rows))
  /\ DataView.count this h = (h1, Ok (List.length rows)).
Proof.
  intros Hget.
  assert (forall q,
            js_lt (VNum (Fin q)) (VNum (Fin 0))
            || js_ge (VNum (Fin q))
                 (VNum (number_of_Z (Z.of_nat (List.length rows))))
            = negb (Qle_bool 0 q)
              || Qle_bool (inject_Z (Z.of_nat (List.length rows))) q) as Htest.
  { intros q. unfold js_lt, js_ge, less_than, number_of_Z. simpl.
    by rewrite negb_involutive. }
  split; [|split; [|split; [|split; [|split]]]].
  - intros i. unfold DataView.row. rewrite bind_eq, Hget.
    unfold number_of_Z at 1 2. rewrite Htest.
    fold (number_of_Z (Z.of_nat i)). rewrite array_index_nat. simpl.
    assert (Qle_bool 0 (inject_Z (Z.of_nat i)) = true) as ->.
    { apply Qle_bool_iff. unfold Qle. simpl. lia. }
    simpl. destruct (rows !! i) as [row|] eqn:Hi.
    + apply lookup_lt_Some in Hi.
      assert (Qle_bool (inject_Z (Z.of_nat (List.length rows))) (inject_Z (Z.of_nat i))
              = false) as ->; [|done].
      apply not_true_iff_false. rewrite Qle_bool_iff. unfold Qle. simpl. lia.
    + apply lookup_ge_None in Hi.
      assert (Qle_bool (inject_Z (Z.of_nat (List.length rows))) (inject_Z (Z.of_nat i))
              = true) as ->; [|done].
      apply Qle_bool_iff. unfold Qle. simpl. lia.
  - intros q Hq. unfold DataView.row. rewrite bind_eq, Hget, Htest.
    assert (negb (Qle_bool 0 q)
            || Qle_bool (inject_Z (Z.of_nat (List.length rows))) q = true) as ->; [|done].
    destruct Hq as [Hneg|Hbig].
    + apply orb_true_intro. left. apply negb_true_iff, not_true_iff_false.
      rewrite Qle_bool_iff. by apply Qlt_not_le.
    + apply orb_true_intro. right. by apply Qle_bool_iff.
  - unfold DataView.row. by rewrite bind_eq, Hget.
  - intros q Hpos Hlt Hidx. unfold DataView.row. rewrite bind_eq, Hget, Htest, Hidx.
    assert (negb (Qle_bool 0 q)
            || Qle_bool (inject_Z (Z.of_nat (List.length rows))) q = false) as ->; [|done].
    apply orb_false_intro.
    + apply negb_false_iff. by apply Qle_bool_iff.
    + apply not_true_iff_false. rewrite Qle_bool_iff. by apply Qlt_not_le.
  - unfold DataView.firstRow. by rewrite bind_eq, Hget.
  - unfold DataView.count. by rewrite bind_eq, Hget.
Qed.
End ViewRow.

(** ** [toArray] and [toTable] *)

Section ViewSnapshots.
Context `{Engine}.
Import DataColumnCollection.







End ViewSnapshots.

(** ** The schema of a table: export and import *)

Section SchemaRoundTrip.
Import DataColumnCollection.

Lemma export_columns (name : string) (cols : list DataColumn) (init : Schema.t) :
  Schema.tableName (foldl (DataTable2.export_column name) init cols)
  = Schema.tableName init
  /\ Schema.caseSensitive (foldl (DataTable2.export_column name) init cols)
     = Schema.caseSensitive init
  /\ Schema.columns (foldl (DataTable2.export_column name) init cols)
     = Schema.columns init ++ map DataTable2.column_def cols.
Proof.
  revert init. induction cols as [|c cols IH]; intros init; simpl.
  - by rewrite app_nil_r.
  - destruct (IH (DataTable2.export_column name init c)) as (-> & -> & ->).
    simpl. by rewrite <- app_assoc.
Qed.

Lemma Map_get_last (cols : list DataColumn) (c : DataColumn) :
  Map_has cols (columnName c) = false -> Map_get (cols ++ [c]) (columnName c) = Some c.
Proof.
  intros Hhas. rewrite Map_get_app. apply Map_get_None in Hhas as ->. simpl.
  by rewrite String.eqb_refl.
Qed.

Lemma Map_set_last (cols : list DataColumn) (c c' : DataColumn) :
  Map_has cols (columnName c) = false ->
  columnName c' = columnName c ->
  Map_set (cols ++ [c]) c' = cols ++ [c'].
Proof.
  intros Hhas Hname. induction cols as [|x cols IH]; simpl.
  - by rewrite Hname, String.eqb_refl.
  - rewrite Map_has_cons in Hhas. apply orb_false_elim in Hhas as [Hx Hhas].
    rewrite Hname, String.eqb_sym, Hx. by rewrite IH.
Qed.

(** The loop of [importSchema] over the definitions of the columns
    [cs], on a table without rows. *)
Lemma import_columns_loop (cs : list DataColumn) (g : heap) (tmp : loc) (nt : DataTable) :
  g !! tmp = Some (CTable nt) ->
  _rows (rows nt) = [] ->
  NoDup (Map_keys (_columns (columns nt)) ++ Map_keys cs) ->
  (forall c, c ∈ cs -> caption c <> "") ->
  forEach (map DataTable2.column_def cs) (fun columnDef =>
    let! column := DataTable.addColumn tmp (ColumnName (ColumnDef.name columnDef))
                     (ColumnDef.dataType columnDef) in
    DataTable2.update_column tmp (columnName column)
      (DataTable2.import_column columnDef)) g
  = (<[tmp := CTable (with_columns nt
                        (_columns (columns nt)
                         ++ imap (fun i c =>
                                    with_ordinal (with_table c (Some tmp))
                                      (Z.of_nat (List.length (_columns (columns nt)) + i)))
                              cs))]> g,
     Ok tt).
Proof.
  revert g nt. induction cs as [|c cs IH]; intros g nt Hnt Hrows Hnd Hcap.
  - simpl. unfold ret. by rewrite app_nil_r, with_columns_columns, insert_id.
  - assert (Map_has (_columns (columns nt)) (columnName c) = false) as Hhas.
    { apply not_true_iff_false. rewrite Map_has_true. intros Hin.
      apply NoDup_app in Hnd as (_ & Hdisj & _). apply (Hdisj _ Hin). left. }
    simpl map. simpl forEach. rewrite !bind_eq. unfold DataTable.addColumn.
    rewrite (add_eq g tmp nt (ColumnName (columnName c)) _ Hnt); [| |done].
    2:{ intros row Hin. rewrite Hrows in Hin. by apply elem_of_nil in Hin. }
    rewrite Hrows. cbn [update_rows foldl fst snd].
    cbn [DataTable2.column_def ColumnDef.name ColumnDef.dataType].
    set (a := added_column tmp (_columns (columns nt)) (ColumnName (columnName c))
                (dataType c)).
    assert (columnName a = columnName c) as Ha by done.
    unfold DataTable2.update_column. rewrite bind_eq. unfold get_table at 1, read at 1.
    unfold read_table at 1. rewrite lookup_insert_eq. cbn [outcome_bind].
    cbn [with_columns columns _columns].
    rewrite (Map_get_last _ a) by (by rewrite Ha).
    unfold put. rewrite insert_insert_eq.
    assert (DataTable2.import_column (DataTable2.column_def c) a
            = with_ordinal (with_table c (Some tmp))
                (Z.of_nat (List.length (_columns (columns nt))))) as Hcol.
    { unfold DataTable2.import_column, a, added_column. simpl.
      destruct (String.eqb_spec (caption c) "") as [Heq|_];
        [by destruct (Hcap c); [left|]|].
      by destruct c. }
    rewrite (Map_set_last _ a) by (by rewrite ?Ha).
    rewrite Hcol.
    set (c1 := with_ordinal (with_table c (Some tmp))
                 (Z.of_nat (List.length (_columns (columns nt))))).
    rewrite (IH _ (with_columns nt (_columns (columns nt) ++ [c1]))).
    + rewrite insert_insert_eq. cbn [with_columns columns _columns].
      rewrite <- app_assoc. simpl. rewrite Nat.add_0_r. fold c1.
      do 6 f_equal. apply imap_ext. intros i x _. simpl.
      rewrite length_app. simpl. do 2 f_equal. lia.
    + by rewrite lookup_insert_eq.
    + done.
    + simpl. rewrite Map_keys_app. simpl. rewrite <- app_assoc. done.
    + intros x Hx. apply Hcap. by right.
Qed.

Lemma imap_ordinals (tmp : loc) (cs : list DataColumn) (n : nat) :
  map ordinal cs = map Z.of_nat (seq n (List.length cs)) ->
  imap (fun i c => with_ordinal (with_table c (Some tmp)) (Z.of_nat (n + i))) cs
  = map (fun c => with_table c (Some tmp)) cs.
Proof.
  revert n. induction cs as [|c cs IH]; intros n Hord; [done|].
  simpl in *. injection Hord as Hc Hord. f_equal.
  - rewrite Nat.add_0_r, <- Hc. by destruct c.
  - rewrite <- (IH (S n) Hord). apply imap_ext. intros i x _. simpl.
    do 2 f_equal. lia.
Qed.

(** X21: [importSchema] of the schema that [exportSchema] gives for a table
    whose columns have dense ordinals, distinct names and captions that
    are not empty: a new table with the name and the case sensitivity
    of the table, no rows, and the columns of the table with every
    property as it is, the back reference to the table apart. *)
Theorem importSchema_exportSchema (h : heap) (table : loc) (t : DataTable) :
  h !! table = Some (CTable t) ->
  columns_ok (_columns (columns t)) ->
  (forall c, c ∈ _columns (columns t) -> caption c <> "") ->
  exists schema,
    DataTable2.exportSchema h table = Ok schema
    /\ Schema.columns schema = map DataTable2.column_def (_columns (columns t))
    /\ DataTable2.importSchema schema h
       = (<[fresh (dom h) :=
              CTable {| tableName := tableName t;
                        rows := {| _rows := [] |};
                        columns :=
                          {| _columns := map (fun c => with_table c (Some (fresh (dom h))))
                                           (_columns (columns t)) |};
                        caseSensitive := caseSensitive t |}]> h,
          Ok (fresh (dom h))).
Proof.
  intros Ht [Hord Hnd] Hcap. eexists. split.
  { unfold DataTable2.exportSchema. by rewrite (read_table_Some _ _ _ Ht). }
  match goal with
  | |- context [foldl (DataTable2.export_column ?n) ?init ?cols] =>
      destruct (export_columns n cols init) as (Hname & Hcase & Hcols)
  end.
  split; [by rewrite Hcols|].
  unfold DataTable2.importSchema. rewrite Hname, Hcase, Hcols. simpl.
  unfold DataTable.new. rewrite bind_eq, alloc_eq, bind_eq.
  erewrite modify_table_eq by (by rewrite lookup_insert_eq).
  rewrite insert_insert_eq, bind_eq. simpl.
  set (nt := {| tableName := tableName t; rows := {| _rows := [] |};
                columns := {| _columns := [] |}; caseSensitive := caseSensitive t |}).
  rewrite (import_columns_loop (_columns (columns t)) _ (fresh (dom h)) nt);
    [|by rewrite lookup_insert_eq|done|done|done].
  rewrite insert_insert_eq. simpl.
  by rewrite (imap_ordinals _ _ 0 Hord).
Qed.
End SchemaRoundTrip.

(** ** The schema of a table: comparison and update *)

Section SchemaComparison.
Import DataColumnCollection.

Lemma compare_fold (other cols : list DataColumn) (d : differences) :
  foldl (DataTable2.compare_column_with other) d cols
  = {| missingColumns := missingColumns d ++ names_not_in other cols;
       extraColumns := extraColumns d;
       typeMismatches := typeMismatches d ++ omap (type_mismatch other) cols;
       nullabilityDifferences :=
         nullabilityDifferences d ++ omap (nullability_difference other) cols |}.
Proof.
  revert d. induction cols as [|c cols IH]; intros d.
  - simpl. unfold names_not_in. simpl. rewrite !app_nil_r. by destruct d.
  - simpl foldl. rewrite IH. unfold DataTable2.compare_column_with, names_not_in.
    cbn [List.filter omap list_omap]. unfold type_mismatch at 2, nullability_difference at 2.
    destruct (Map_get other (columnName c)) as [o|] eqn:Hget.
    + assert (Map_has other (columnName c) = true) as ->
        by (apply Map_get_has; by rewrite Hget).
      cbn [negb missingColumns extraColumns typeMismatches nullabilityDifferences].
      destruct (bool_decide (dataType c = dataType o)),
               (Bool.eqb (allowNull c) (allowNull o));
        by rewrite <- ?app_assoc.
    + apply Map_get_None in Hget as ->.
      cbn [negb missingColumns extraColumns typeMismatches nullabilityDifferences map].
      by rewrite <- ?app_assoc.
Qed.

Lemma extra_fold (cols other : list DataColumn) (d : differences) :
  foldl (DataTable2.extra_column cols) d other
  = {| missingColumns := missingColumns d;
       extraColumns := extraColumns d ++ names_not_in cols other;
       typeMismatches := typeMismatches d;
       nullabilityDifferences := nullabilityDifferences d |}.
Proof.
  revert d. induction other as [|c other IH]; intros d.
  - simpl. unfold names_not_in. simpl. rewrite !app_nil_r. by destruct d.
  - simpl foldl. rewrite IH. unfold DataTable2.extra_column, names_not_in.
    cbn [List.filter]. destruct (Map_has cols (columnName c)); [done|].
    cbn [negb missingColumns extraColumns typeMismatches nullabilityDifferences map].
    by rewrite <- app_assoc.
Qed.

Lemma compare_columns_eq (cols other : list DataColumn) :
  DataTable2.compare_columns cols other
  = {| missingColumns := names_not_in other cols;
       extraColumns := names_not_in cols other;
       typeMismatches := omap (type_mismatch other) cols;
       nullabilityDifferences := omap (nullability_difference other) cols |}.
Proof. unfold DataTable2.compare_columns. by rewrite compare_fold, extra_fold. Qed.

Lemma names_not_in_nil (other cols : list DataColumn) :
  names_not_in other cols = []
  <-> forall c, c ∈ cols -> Map_has other (columnName c) = true.
Proof.
  unfold names_not_in. induction cols as [|c cols IH]; simpl.
  - split; [|done]. intros _ c Hin. by apply elem_of_nil in Hin.
  - destruct (Map_has other (columnName c)) eqn:Hhas; simpl.
    + rewrite IH. split.
      * intros Hall x [->|Hin]%elem_of_cons; [done|by apply Hall].
      * intros Hall x Hin. apply Hall. by right.
    + split; [done|]. intros Hall. specialize (Hall c). rewrite Hhas in Hall.
      by discriminate Hall; left.
Qed.

Lemma omap_nil {A B} (f : A -> option B) (l : list A) :
  omap f l = [] <-> forall x, x ∈ l -> f x = None.
Proof.
  induction l as [|a l IH]; simpl.
  - split; [|done]. intros _ x Hin. by apply elem_of_nil in Hin.
  - destruct (f a) eqn:Hfa.
    + split; [done|]. intros Hall. specialize (Hall a). rewrite Hfa in Hall.
      by discriminate Hall; left.
    + rewrite IH. split.
      * intros Hall x [->|Hin]%elem_of_cons; [done|by apply Hall].
      * intros Hall x Hin. apply Hall. by right.
Qed.

(** X22: Two tables have no differences for [compareSchema] exactly when
    every column of the first has, in the second, a column of its name
    with the same type and the same nullability, and every column of the
    second has its name in the first.  The order of the columns and
    their other properties (default value, caption, expression, read
    only, unique) do not count. *)
Theorem compareSchema_no_differences (h : heap) (this otherTable : loc)
    (t o : DataTable) :
  h !! this = Some (CTable t) ->
  h !! otherTable = Some (CTable o) ->
  DataTable2.compareSchema h this otherTable = Ok no_differences
  <-> (forall c, c ∈ _columns (columns t) ->
         exists c', Map_get (_columns (columns o)) (columnName c) = Some c'
                    /\ dataType c = dataType c' /\ allowNull c = allowNull c')
      /\ (forall c', c' ∈ _columns (columns o) ->
            Map_has (_columns (columns t)) (columnName c') = true).
Proof.
  intros Ht Ho. unfold DataTable2.compareSchema.
  rewrite (read_table_Some _ _ _ Ht), (read_table_Some _ _ _ Ho). simpl.
  rewrite compare_columns_eq. unfold no_differences. split.
  - intros Heq. injection Heq as Hmiss Hextra Htypes Hnulls.
    rewrite names_not_in_nil in Hmiss. rewrite names_not_in_nil in Hextra.
    rewrite omap_nil in Htypes. rewrite omap_nil in Hnulls.
    split; [|done]. intros c Hin.
    specialize (Hmiss c Hin). specialize (Htypes c Hin). specialize (Hnulls c Hin).
    apply Map_get_has in Hmiss as [c' Hget]. exists c'. split; [done|].
    unfold type_mismatch in Htypes. unfold nullability_difference in Hnulls.
    rewrite Hget in Htypes, Hnulls. split.
    + by destruct (bool_decide_reflect (dataType c = dataType c')).
    + destruct (Bool.eqb (allowNull c) (allowNull c')) eqn:Heqb; [|done].
      by apply Bool.eqb_prop.
  - intros [Hall Hextra]. f_equal. f_equal.
    + apply names_not_in_nil. intros c Hin. destruct (Hall c Hin) as (c' & Hget & _).
      apply Map_get_has. by rewrite Hget.
    + by apply names_not_in_nil.
    + apply omap_nil. intros c Hin. destruct (Hall c Hin) as (c' & Hget & Hty & _).
      unfold type_mismatch. rewrite Hget. by rewrite bool_decide_eq_true_2.
    + apply omap_nil. intros c Hin. destruct (Hall c Hin) as (c' & Hget & _ & Hnull).
      unfold nullability_difference. rewrite Hget, Hnull.
      by rewrite Bool.eqb_reflx.
Qed.

Lemma compare_columns_self (cols : list DataColumn) :
  NoDup (Map_keys cols) -> DataTable2.compare_columns cols cols = no_differences.
Proof.
  intros Hnd. rewrite compare_columns_eq. unfold no_differences. f_equal.
  - apply names_not_in_nil. intros c Hin. by apply Map_has_elem.
  - apply names_not_in_nil. intros c Hin. by apply Map_has_elem.
  - apply omap_nil. intros c Hin. unfold type_mismatch.
    rewrite (Map_get_NoDup _ _ Hnd Hin). by rewrite bool_decide_eq_true_2.
  - apply omap_nil. intros c Hin. unfold nullability_difference.
    rewrite (Map_get_NoDup _ _ Hnd Hin). by rewrite Bool.eqb_reflx.
Qed.

(** X23: The columns that [compareSchema] reports as missing are the extra
    columns of the comparison the other way round, and the extra
    columns the missing ones; a table whose column names are distinct
    has no differences with itself. *)
Theorem compareSchema_swap (h : heap) (this otherTable : loc) (t o : DataTable) :
  h !! this = Some (CTable t) ->
  h !! otherTable = Some (CTable o) ->
  exists d d',
    DataTable2.compareSchema h this otherTable = Ok d
    /\ DataTable2.compareSchema h otherTable this = Ok d'
    /\ missingColumns d = extraColumns d'
    /\ extraColumns d = missingColumns d'
    /\ (NoDup (Map_keys (_columns (columns t))) ->
        DataTable2.compareSchema h this this = Ok no_differences).
Proof.
  intros Ht Ho. unfold DataTable2.compareSchema.
  rewrite (read_table_Some _ _ _ Ht), (read_table_Some _ _ _ Ho). simpl.
  do 2 eexists. split; [done|]. split; [done|].
  rewrite !compare_columns_eq. simpl. split; [done|]. split; [done|].
  intros Hnd. f_equal. rewrite <- compare_columns_eq. by apply compare_columns_self.
Qed.
End SchemaComparison.

Section SchemaUpdate.
Import DataColumnCollection.

Lemma names_not_in_absent (other cols : list DataColumn) (x : string) :
  x ∈ names_not_in other cols -> Map_has other x = false.
Proof.
  unfold names_not_in. intros (c & -> & Hin)%list_elem_of_fmap.
  apply list_elem_of_In, filter_In in Hin as [_ Hneg].
  by apply negb_true_iff in Hneg.
Qed.

(** X24: [updateSchema] cannot add or remove a column.  A column to add is a
    column of this table that the source lacks: the read of its
    properties on the source fails with a TypeError.  A column to remove
    is a column of the source that this table lacks:
    [removeColumn] fails with "column does not exist".  Nothing has
    changed when the exception is raised. *)
Theorem updateSchema_throws (h : heap) (this sourceTable : loc) (t s : DataTable)
    (d : differences) (addMissingColumns removeExtraColumns : bool) :
  h !! this = Some (CTable t) ->
  h !! sourceTable = Some (CTable s) ->
  DataTable2.compareSchema h this sourceTable = Ok d ->
  (forall x l, addMissingColumns = true -> missingColumns d = x :: l ->
     DataTable2.updateSchema this sourceTable addMissingColumns removeExtraColumns h
     = (h, Throw TypeError))
  /\ (forall x l, addMissingColumns = false \/ missingColumns d = [] ->
        removeExtraColumns = true -> extraColumns d = x :: l ->
        DataTable2.updateSchema this sourceTable addMissingColumns removeExtraColumns h
        = (h, Throw (ColumnDoesNotExist x))).
Proof.
  intros Ht Hs Hcmp.
  assert (d = DataTable2.compare_columns (_columns (columns t)) (_columns (columns s)))
    as Hd.
  { unfold DataTable2.compareSchema in Hcmp.
    rewrite (read_table_Some _ _ _ Ht), (read_table_Some _ _ _ Hs) in Hcmp.
    simpl in Hcmp. by injection Hcmp as <-. }
  rewrite compare_columns_eq in Hd.
  split.
  - intros x l -> Hmiss. unfold DataTable2.updateSchema.
    rewrite bind_eq. unfold read at 1. rewrite Hcmp.
    rewrite bind_eq, Hmiss. simpl mapM. rewrite !bind_eq.
    unfold DataTable2.source_column. rewrite bind_eq. unfold get_table, read.
    rewrite (read_table_Some _ _ _ Hs).
    assert (Map_get (_columns (columns s)) x = None) as ->; [|done].
    apply Map_get_None, (names_not_in_absent _ (_columns (columns t))).
    rewrite Hd in Hmiss. simpl in Hmiss. rewrite Hmiss. left.
  - intros x l Hadd -> Hextra. unfold DataTable2.updateSchema.
    rewrite bind_eq. unfold read at 1. rewrite Hcmp.
    assert ((if addMissingColumns
             then mapM (fun columnName0 =>
                    let! sourceColumn := DataTable2.source_column sourceTable columnName0 in
                    let! newColumn := DataTable.addColumn this (ColumnName columnName0)
                                        (dataType sourceColumn) in
                    let! _ := DataTable2.update_column this columnName0
                                (DataTable2.copy_definition sourceColumn) in
                    ret columnName0) (missingColumns d)
             else ret []) h = (h, Ok [])) as Hnone.
    { destruct Hadd as [->| ->]; [done|]. by destruct addMissingColumns. }
    rewrite bind_eq, Hnone.
    rewrite bind_eq, Hextra. simpl mapM. rewrite !bind_eq.
    unfold DataTable.removeColumn. rewrite (remove_missing h this t x Ht); [done|].
    apply (names_not_in_absent _ (_columns (columns s))).
    rewrite Hd in Hextra. simpl in Hextra. rewrite Hextra. left.
Qed.

Lemma Map_set_update (f : DataColumn -> DataColumn) (cols : list DataColumn)
    (name : string) (c : DataColumn) :
  (forall x, columnName (f x) = columnName x) ->
  NoDup (Map_keys cols) ->
  Map_get cols name = Some c ->
  Map_set cols (f c) = update_named f [name] cols.
Proof.
  intros Hf. unfold update_named, Map_get, has_key. simpl.
  induction cols as [|x cols IH]; intros Hnd Hget; [done|].
  simpl in *. apply NoDup_cons in Hnd as [Hnin Hnd].
  rewrite orb_false_r.
  destruct (String.eqb_spec (columnName x) name) as [Hx|Hx].
  - injection Hget as <-. rewrite Hf, String.eqb_refl. f_equal.
    rewrite <- (map_id cols) at 1. apply map_ext_in. intros y Hin.
    destruct (String.eqb_spec (columnName y) name) as [Hy|_]; [|done].
    destruct Hnin. rewrite Hx, <- Hy. apply list_elem_of_fmap. exists y.
    split; [done|]. by apply list_elem_of_In.
  - assert (columnName c = name) as Hc.
    { apply (Map_get_name cols). exact Hget. }
    rewrite Hf, Hc. destruct (String.eqb_spec (columnName x) name); [done|].
    f_equal. rewrite IH by done. apply map_ext. intros y.
    by rewrite orb_false_r.
Qed.

Lemma update_named_keys (f : DataColumn -> DataColumn) (names : list string)
    (cols : list DataColumn) :
  (forall x, columnName (f x) = columnName x) ->
  Map_keys (update_named f names cols) = Map_keys cols.
Proof.
  intros Hf. unfold update_named, Map_keys. rewrite map_map. apply map_ext.
  intros c. by destruct (has_key names (columnName c)); rewrite ?Hf.
Qed.

Lemma update_named_cons (f : DataColumn -> DataColumn) (name : string)
    (names : list string) (cols : list DataColumn) :
  (forall x, columnName (f x) = columnName x) ->
  (forall x, f (f x) = f x) ->
  update_named f names (update_named f [name] cols) = update_named f (name :: names) cols.
Proof.
  intros Hf Hidem. unfold update_named. rewrite map_map. apply map_ext. intros c.
  unfold has_key. simpl. rewrite orb_false_r.
  destruct (String.eqb (columnName c) name); simpl.
  - rewrite Hf. by destruct (existsb _ names); rewrite ?Hidem.
  - done.
Qed.

(** A loop of [updateSchema] that writes one property of the columns
    named by its entries. *)
Lemma update_loop {E R} (this sourceTable : loc) (s : DataTable)
    (f : DataColumn -> DataColumn) (name_of : E -> string) (res : E -> R)
    (body : E -> M R) :
  (forall x, columnName (f x) = columnName x) ->
  (forall x, f (f x) = f x) ->
  (forall e g t c,
     g !! this = Some (CTable t) ->
     g !! sourceTable = Some (CTable s) ->
     Map_get (_columns (columns t)) (name_of e) = Some c ->
     Map_has (_columns (columns s)) (name_of e) = true ->
     body e g
     = (<[this := CTable (with_columns t (Map_set (_columns (columns t)) (f c)))]> g,
        Ok (res e))) ->
  this <> sourceTable ->
  forall (es : list E) (g : heap) (t : DataTable),
    g !! this = Some (CTable t) ->
    g !! sourceTable = Some (CTable s) ->
    NoDup (Map_keys (_columns (columns t))) ->
    (forall e, e ∈ es ->
       Map_has (_columns (columns t)) (name_of e) = true
       /\ Map_has (_columns (columns s)) (name_of e) = true) ->
    mapM body es g
    = (<[this := CTable (with_columns t
                           (update_named f (map name_of es) (_columns (columns t))))]> g,
       Ok (map res es)).
Proof.
  intros Hf Hidem Hbody Hne es. induction es as [|e es IH]; intros g t Ht Hs Hnd Hall.
  - simpl. unfold ret, update_named. simpl.
    rewrite map_id, with_columns_columns, insert_id; done.
  - simpl mapM. rewrite bind_eq.
    destruct (Hall e) as [Hhas Hsrc]; [left|].
    apply Map_get_has in Hhas as [c Hget].
    rewrite (Hbody e g t c Ht Hs Hget Hsrc).
    rewrite (Map_set_update f _ _ _ Hf Hnd Hget).
    rewrite bind_eq.
    rewrite (IH _ (with_columns t (update_named f [name_of e] (_columns (columns t))))).
    + unfold ret. rewrite insert_insert_eq. cbn [with_columns columns _columns map].
      by rewrite update_named_cons.
    + by rewrite lookup_insert_eq.
    + by rewrite lookup_insert_ne.
    + cbn [with_columns columns _columns]. by rewrite update_named_keys.
    + intros e' Hin. cbn [with_columns columns _columns].
      unfold Map_has. rewrite update_named_keys by done.
      apply Hall. by right.
Qed.

Lemma update_named_all (f : DataColumn -> DataColumn) (names : list string)
    (cols : list DataColumn) :
  (forall c, c ∈ cols -> has_key names (columnName c) = false -> f c = c) ->
  update_named f names cols = map f cols.
Proof.
  intros Hall. unfold update_named. apply map_ext_in. intros c Hin.
  destruct (has_key names (columnName c)) eqn:Hhas; [done|].
  symmetry. apply Hall; [by apply list_elem_of_In|done].
Qed.

Lemma with_dataType_same (c : DataColumn) : DataTable2.with_dataType c (dataType c) = c.
Proof. by destruct c. Qed.

Lemma set_allowNull_same (c : DataColumn) : DataTable2.set_allowNull c (allowNull c) = c.
Proof. by destruct c. Qed.

Lemma type_mismatch_name (other : list DataColumn) (c : DataColumn)
    (m : string * option string * option string) :
  type_mismatch other c = Some m -> m.1.1 = columnName c.
Proof.
  unfold type_mismatch. destruct (Map_get other (columnName c)); [|done].
  destruct (bool_decide _); [done|]. by intros [= <-].
Qed.

Lemma nullability_difference_name (other : list DataColumn) (c : DataColumn)
    (m : string * bool * bool) :
  nullability_difference other c = Some m -> m.1.1 = columnName c.
Proof.
  unfold nullability_difference. destruct (Map_get other (columnName c)); [|done].
  destruct (Bool.eqb _ _); [done|]. by intros [= <-].
Qed.

Lemma retyped_columns (source cols : list DataColumn) :
  update_named (with_source_type source)
    (map (fun m => m.1.1) (omap (type_mismatch source) cols)) cols
  = map (with_source_type source) cols.
Proof.
  apply update_named_all. intros c Hin Hhas. unfold with_source_type.
  destruct (Map_get source (columnName c)) as [o|] eqn:Hget; [|done].
  destruct (decide (dataType c = dataType o)) as [<-|Hne];
    [apply with_dataType_same|].
  apply not_true_iff_false in Hhas. destruct Hhas. apply has_key_true.
  apply list_elem_of_fmap. exists (columnName c, dataType c, dataType o).
  split; [done|]. apply list_elem_of_omap. exists c. split; [done|].
  unfold type_mismatch. rewrite Hget. by rewrite bool_decide_eq_false_2.
Qed.

Lemma renulled_columns (source cols : list DataColumn) :
  update_named (with_source_allowNull source)
    (map (fun m => m.1.1) (omap (nullability_difference source) cols))
    (map (with_source_type source) cols)
  = map (updated_column source) cols.
Proof.
  unfold update_named. rewrite map_map. apply map_ext_in. intros c Hin.
  apply list_elem_of_In in Hin.
  assert (columnName (with_source_type source c) = columnName c) as Hname.
  { unfold with_source_type. by destruct (Map_get source (columnName c)). }
  rewrite Hname. unfold with_source_allowNull, updated_column. rewrite Hname.
  unfold with_source_type.
  destruct (Map_get source (columnName c)) as [o|] eqn:Hget;
    [|by destruct (has_key _ _)].
  destruct (has_key _ (columnName c)) eqn:Hhas; [done|].
  destruct (Bool.eqb (allowNull c) (allowNull o)) eqn:Hnull.
  - apply Bool.eqb_prop in Hnull. rewrite <- Hnull. by destruct c.
  - apply not_true_iff_false in Hhas. destruct Hhas. apply has_key_true.
    apply list_elem_of_fmap. exists (columnName c, allowNull c, allowNull o).
    split; [done|]. apply list_elem_of_omap. exists c. split; [done|].
    unfold nullability_difference. by rewrite Hget, Hnull.
Qed.

Lemma updated_column_name (source : list DataColumn) (c : DataColumn) :
  columnName (updated_column source c) = columnName c.
Proof. unfold updated_column. by destruct (Map_get source (columnName c)). Qed.

Lemma updated_columns_self (cols : list DataColumn) :
  NoDup (Map_keys cols) -> map (updated_column cols) cols = cols.
Proof.
  intros Hnd. rewrite <- (map_id cols) at 3. apply map_ext_in. intros c Hin.
  unfold updated_column. rewrite (Map_get_NoDup _ _ Hnd) by (by apply list_elem_of_In).
  by destruct c.
Qed.

Lemma names_not_in_ext (other other' cols : list DataColumn) :
  Map_keys other = Map_keys other' ->
  names_not_in other cols = names_not_in other' cols.
Proof. intros Hkeys. unfold names_not_in, Map_has. by rewrite Hkeys. Qed.

Lemma names_not_in_map (f : DataColumn -> DataColumn) (other cols : list DataColumn) :
  (forall x, columnName (f x) = columnName x) ->
  names_not_in other (map f cols) = names_not_in other cols.
Proof.
  intros Hf. unfold names_not_in. induction cols as [|c cols IH]; [done|].
  simpl. rewrite Hf. destruct (Map_has other (columnName c)); simpl; by rewrite ?Hf, IH.
Qed.

(** The comparison with the source after the update. *)
Lemma compare_updated (source cols : list DataColumn) :
  DataTable2.compare_columns (map (updated_column source) cols) source
  = {| missingColumns := names_not_in source cols;
       extraColumns := names_not_in cols source;
       typeMismatches := [];
       nullabilityDifferences := [] |}.
Proof.
  rewrite compare_columns_eq. f_equal.
  - apply names_not_in_map, updated_column_name.
  - apply names_not_in_ext. unfold Map_keys. rewrite map_map. apply map_ext.
    intros c. apply updated_column_name.
  - apply omap_nil. intros c' (c & -> & Hin)%list_elem_of_fmap.
    unfold type_mismatch. rewrite updated_column_name. unfold updated_column.
    destruct (Map_get source (columnName c)); [|done].
    by rewrite bool_decide_eq_true_2.
  - apply omap_nil. intros c' (c & -> & Hin)%list_elem_of_fmap.
    unfold nullability_difference. rewrite updated_column_name. unfold updated_column.
    destruct (Map_get source (columnName c)); [|done].
    simpl. by rewrite Bool.eqb_reflx.
Qed.

Lemma with_source_type_name (source : list DataColumn) (x : DataColumn) :
  columnName (with_source_type source x) = columnName x.
Proof. unfold with_source_type. by destruct (Map_get source (columnName x)). Qed.

Lemma with_source_type_idem (source : list DataColumn) (x : DataColumn) :
  with_source_type source (with_source_type source x) = with_source_type source x.
Proof.
  unfold with_source_type.
  destruct (Map_get source (columnName x)) eqn:Hget; simpl; by rewrite Hget.
Qed.

Lemma with_source_allowNull_name (source : list DataColumn) (x : DataColumn) :
  columnName (with_source_allowNull source x) = columnName x.
Proof. unfold with_source_allowNull. by destruct (Map_get source (columnName x)). Qed.

Lemma with_source_allowNull_idem (source : list DataColumn) (x : DataColumn) :
  with_source_allowNull source (with_source_allowNull source x)
  = with_source_allowNull source x.
Proof.
  unfold with_source_allowNull.
  destruct (Map_get source (columnName x)) eqn:Hget; simpl; by rewrite Hget.
Qed.

(** One turn of the loop over the differences of type. *)
Lemma retype_step (this sourceTable : loc) (s : DataTable)
    (e : string * option string * option string) (g : heap) (t : DataTable)
    (c : DataColumn) :
  g !! this = Some (CTable t) ->
  g !! sourceTable = Some (CTable s) ->
  Map_get (_columns (columns t)) e.1.1 = Some c ->
  Map_has (_columns (columns s)) e.1.1 = true ->
  (let '(column, thisType, otherType) := e in
   let! sourceColumn := DataTable2.source_column sourceTable column in
   let! _ := DataTable2.update_column this column
               (fun c => DataTable2.with_dataType c (dataType sourceColumn)) in
   ret (ChangeDataType column thisType otherType)) g
  = (<[this := CTable (with_columns t
                         (Map_set (_columns (columns t))
                            (with_source_type (_columns (columns s)) c)))]> g,
     Ok (type_change e)).
Proof.
  destruct e as [[column thisType] otherType]. intros Ht0 Hs0 Hget Hsrc. simpl in *.
  apply Map_get_has in Hsrc as [sc Hsc].
  rewrite !bind_eq. unfold DataTable2.source_column. rewrite bind_eq.
  unfold get_table at 1, read at 1. rewrite (read_table_Some _ _ _ Hs0), Hsc.
  unfold ret at 1. unfold DataTable2.update_column. rewrite !bind_eq.
  unfold get_table at 1, read at 1. rewrite (read_table_Some _ _ _ Ht0), Hget.
  unfold put, ret. unfold with_source_type.
  by rewrite (Map_get_name _ _ _ Hget), Hsc.
Qed.

(** One turn of the loop over the differences of nullability. *)
Lemma renull_step (this sourceTable : loc) (s : DataTable)
    (e : string * bool * bool) (g : heap) (t : DataTable) (c : DataColumn) :
  g !! this = Some (CTable t) ->
  g !! sourceTable = Some (CTable s) ->
  Map_get (_columns (columns t)) e.1.1 = Some c ->
  Map_has (_columns (columns s)) e.1.1 = true ->
  (let '(column, thisAllowNull, otherAllowNull) := e in
   let! sourceColumn := DataTable2.source_column sourceTable column in
   let! _ := DataTable2.update_column this column
               (fun c => DataTable2.set_allowNull c (allowNull sourceColumn)) in
   ret (ChangeAllowNull column thisAllowNull otherAllowNull)) g
  = (<[this := CTable (with_columns t
                         (Map_set (_columns (columns t))
                            (with_source_allowNull (_columns (columns s)) c)))]> g,
     Ok (nullability_change e)).
Proof.
  destruct e as [[column thisAllowNull] otherAllowNull]. intros Ht0 Hs0 Hget Hsrc.
  simpl in *. apply Map_get_has in Hsrc as [sc Hsc].
  rewrite !bind_eq. unfold DataTable2.source_column. rewrite bind_eq.
  unfold get_table at 1, read at 1. rewrite (read_table_Some _ _ _ Hs0), Hsc.
  unfold ret at 1. unfold DataTable2.update_column. rewrite !bind_eq.
  unfold get_table at 1, read at 1. rewrite (read_table_Some _ _ _ Ht0), Hget.
  unfold put, ret. unfold with_source_allowNull.
  by rewrite (Map_get_name _ _ _ Hget), Hsc.
Qed.

(** X25: When there is no column to add and none to remove (or the flag is
    off), [updateSchema] of a table with distinct column names returns:
    every column of the table that the source has by name takes the
    type and the nullability of the source, all else in the table
    stays, the source and the rows of the store are as they were, the
    result lists the differences of type and of nullability as
    modifications, and a second comparison shows no difference of type
    or nullability.  (The statement is on this table, the source and
    the rows: a third table that holds one of the column objects has
    the column changed as well.) *)
Theorem updateSchema_aligns (h : heap) (this sourceTable : loc) (t s : DataTable)
    (d : differences) (addMissingColumns removeExtraColumns : bool) :
  h !! this = Some (CTable t) ->
  h !! sourceTable = Some (CTable s) ->
  NoDup (Map_keys (_columns (columns t))) ->
  DataTable2.compareSchema h this sourceTable = Ok d ->
  (addMissingColumns = true -> missingColumns d = []) ->
  (removeExtraColumns = true -> extraColumns d = []) ->
  exists h' d',
    DataTable2.updateSchema this sourceTable addMissingColumns removeExtraColumns h
    = (h', Ok {| addedColumns := []; removedColumns := [];
                 modifiedColumns :=
                   map type_change (typeMismatches d)
                   ++ map nullability_change (nullabilityDifferences d) |})
    /\ h' !! this
       = Some (CTable (with_columns t
                         (map (updated_column (_columns (columns s)))
                              (_columns (columns t)))))
    /\ (this <> sourceTable -> h' !! sourceTable = Some (CTable s))
    /\ (forall l r, h !! l = Some (CRow r) -> h' !! l = Some (CRow r))
    /\ DataTable2.compareSchema h' this sourceTable = Ok d'
    /\ typeMismatches d' = [] /\ nullabilityDifferences d' = []
    /\ missingColumns d' = missingColumns d /\ extraColumns d' = extraColumns d.
Proof.
  intros Ht Hs Hnd Hcmp Hadd Hrem.
  assert (exists h' d',
      DataTable2.updateSchema this sourceTable addMissingColumns removeExtraColumns h
      = (h', Ok {| addedColumns := []; removedColumns := [];
                   modifiedColumns :=
                     map type_change (typeMismatches d)
                     ++ map nullability_change (nullabilityDifferences d) |})
      /\ h' = <[this := CTable (with_columns t
                                  (map (updated_column (_columns (columns s)))
                                       (_columns (columns t))))]> h
      /\ DataTable2.compareSchema h' this sourceTable = Ok d'
      /\ typeMismatches d' = [] /\ nullabilityDifferences d' = []
      /\ missingColumns d' = missingColumns d /\ extraColumns d' = extraColumns d)
    as (h' & d' & Hupdate & Hh' & Hagain & Hrest).
  {
    assert (d = DataTable2.compare_columns (_columns (columns t)) (_columns (columns s)))
      as Hd.
    { unfold DataTable2.compareSchema in Hcmp.
      rewrite (read_table_Some _ _ _ Ht), (read_table_Some _ _ _ Hs) in Hcmp.
      simpl in Hcmp. by injection Hcmp as <-. }
    rewrite compare_columns_eq in Hd.
    assert (forall A B (f : A -> M B) (b : bool) (l : list A),
              (b = true -> l = []) -> (if b then mapM f l else ret []) h = (h, Ok []))
      as Hskip.
    { intros A B f [] l Hl; [by rewrite Hl|done]. }
    assert (DataTable2.updateSchema this sourceTable addMissingColumns removeExtraColumns h
      = (let! types :=
           mapM (fun '(column, thisType, otherType) =>
                   let! sourceColumn := DataTable2.source_column sourceTable column in
                   let! _ := DataTable2.update_column this column
                               (fun c => DataTable2.with_dataType c (dataType sourceColumn)) in
                   ret (ChangeDataType column thisType otherType))
                (typeMismatches d) in
         let! nulls :=
           mapM (fun '(column, thisAllowNull, otherAllowNull) =>
                   let! sourceColumn := DataTable2.source_column sourceTable column in
                   let! _ := DataTable2.update_column this column
                               (fun c => DataTable2.set_allowNull c (allowNull sourceColumn)) in
                   ret (ChangeAllowNull column thisAllowNull otherAllowNull))
                (nullabilityDifferences d) in
         ret {| addedColumns := []; removedColumns := [];
                modifiedColumns := types ++ nulls |}) h) as ->.
    { unfold DataTable2.updateSchema. rewrite bind_eq. unfold read at 1. rewrite Hcmp.
      rewrite bind_eq, (Hskip _ _ _ _ _ Hadd).
      by rewrite bind_eq, (Hskip _ _ _ _ _ Hrem). }
    destruct (decide (this = sourceTable)) as [<-|Hne].
    - assert (s = t) as -> by congruence.
      assert (DataTable2.compareSchema h this this = Ok no_differences) as Hself.
      { unfold DataTable2.compareSchema. rewrite (read_table_Some _ _ _ Ht). simpl.
        by rewrite compare_columns_self. }
      rewrite Hcmp in Hself. injection Hself as ->.
      exists h, no_differences. simpl.
      rewrite updated_columns_self, with_columns_columns, insert_id by done.
      by rewrite Hcmp.
    - subst d. cbn [typeMismatches nullabilityDifferences missingColumns extraColumns] in *.
      set (names1 := map (fun m : string * option string * option string => m.1.1)
                       (omap (type_mismatch (_columns (columns s))) (_columns (columns t)))).
      set (t1 := with_columns t
                   (update_named (with_source_type (_columns (columns s))) names1
                      (_columns (columns t)))).
      assert (forall c m,
                c ∈ _columns (columns t) ->
                Map_get (_columns (columns s)) (columnName c) <> None ->
                m = columnName c ->
                Map_has (_columns (columns t)) m = true
                /\ Map_has (_columns (columns s)) m = true) as Hboth.
      { intros c m Hin Hsome ->. split; [by apply Map_has_elem|].
        apply Map_get_has. by destruct (Map_get (_columns (columns s)) (columnName c)). }
      eexists _, _. rewrite bind_eq.
      rewrite (update_loop this sourceTable s (with_source_type (_columns (columns s)))
                 (fun m => m.1.1) type_change _
                 (with_source_type_name _) (with_source_type_idem _)
                 (retype_step this sourceTable s) Hne _ h t Ht Hs Hnd).
      2:{ intros m (c & Hin & Hm)%list_elem_of_omap.
          apply (Hboth c); [done| |by apply (type_mismatch_name _ _ _ Hm)].
          unfold type_mismatch in Hm.
          by destruct (Map_get (_columns (columns s)) (columnName c)). }
      fold names1. fold t1. rewrite bind_eq.
      rewrite (update_loop this sourceTable s
                 (with_source_allowNull (_columns (columns s)))
                 (fun m => m.1.1) nullability_change _
                 (with_source_allowNull_name _) (with_source_allowNull_idem _)
                 (renull_step this sourceTable s) Hne _ _ t1).
      + unfold ret. rewrite insert_insert_eq. unfold t1, names1.
        cbn [with_columns columns _columns].
        rewrite retyped_columns, renulled_columns.
        split; [done|]. split; [done|].
        unfold DataTable2.compareSchema. unfold read_table.
        rewrite lookup_insert_eq, lookup_insert_ne, Hs by done.
        cbn [outcome_bind with_columns columns _columns].
        split; [done|]. by rewrite compare_updated.
      + by rewrite lookup_insert_eq.
      + by rewrite lookup_insert_ne.
      + unfold t1. cbn [with_columns columns _columns].
        by rewrite update_named_keys by apply with_source_type_name.
      + intros m (c & Hin & Hm)%list_elem_of_omap. unfold t1.
        cbn [with_columns columns _columns].
        unfold Map_has at 1. rewrite update_named_keys by apply with_source_type_name.
        apply (Hboth c); [done| |by apply (nullability_difference_name _ _ _ Hm)].
        unfold nullability_difference in Hm.
        by destruct (Map_get (_columns (columns s)) (columnName c)).
  }
  exists h', d'. split; [exact Hupdate|]. subst h'.
  split; [by rewrite lookup_insert_eq|]. split; [|split; [|by split]].
  - intros Hne. by rewrite lookup_insert_ne.
  - intros l r Hl. rewrite lookup_insert_ne; [done|]. intros <-. congruence.
Qed.
End SchemaUpdate.

(** ** The rows of a clone *)

Section CloneRows.
Import DataColumnCollection.

Lemma Forall2_ext_in {A B} (P Q : A -> B -> Prop) (l : list A) (k : list B) :
  Forall2 P l k -> (forall a x, x ∈ k -> P a x -> Q a x) -> Forall2 Q l k.
Proof.
  induction 1 as [|a x l k Hax Hlk IH]; intros Himp; [constructor|].
  constructor.
  - apply Himp; [left|done].
  - apply IH. intros b y Hin. apply Himp. by right.
Qed.

(** The loop of [clone] over the rows, with the records that it
    leaves. *)
Lemma clone_rows_records (rs : list loc) (g : heap) (tmp : loc) (nt : DataTable) :
  g !! tmp = Some (CTable nt) ->
  (forall row, row ∈ rs -> exists r, g !! row = Some (CRow r)) ->
  exists g' news,
    forEach rs (fun row =>
      let! newRow := DataTable.newRow tmp in
      let! r := get_row row in
      let! _ := modify_row newRow (fun n =>
                  {| _table := _table n;
                     _values := _values r ∪ _values n;
                     _rowState := _rowState r;
                     _originalValues := _originalValues r ∪ _originalValues n |}) in
      let! _ := DataRowCollection.add tmp (RowInstance newRow) in
      ret tt) g
    = (g', Ok tt)
    /\ g' !! tmp = Some (CTable (with_rows nt (_rows (rows nt) ++ news)))
    /\ Forall2 (fun l src =>
                  g' !! l = Some (CRow (cloned_row tmp (_columns (columns nt))
                                          (row_at g src))))
         news rs
    /\ (forall l c, l <> tmp -> g !! l = Some c -> g' !! l = Some c)
    /\ (forall l, l ∈ news -> g !! l = None).
Proof.
  revert g nt. induction rs as [|row rs IH]; intros g nt Htt Hrs.
  - exists g, []. simpl. rewrite app_nil_r, with_rows_rows.
    split; [done|]. split; [done|]. split; [constructor|]. split; [done|].
    intros l Hin. by apply elem_of_nil in Hin.
  - destruct (Hrs row) as [r Hr]; [left|].
    set (newRow := fresh (dom g)).
    assert (tmp <> newRow) as Hne1 by (by apply (fresh_ne g tmp (CTable nt))).
    assert (row <> newRow) as Hne2 by (by apply (fresh_ne g row (CRow r))).
    simpl. rewrite bind_eq. unfold DataTable.newRow.
    rewrite !bind_eq, (new_row_eq _ _ _ Htt). fold newRow.
    rewrite bind_eq. unfold get_row at 1, read at 1.
    rewrite (read_row_Some _ row r) by (by rewrite lookup_insert_ne).
    rewrite bind_eq.
    erewrite modify_row_eq by (by rewrite lookup_insert_eq).
    rewrite insert_insert_eq, bind_eq.
    unfold DataRowCollection.add. rewrite bind_eq. unfold ret at 1. rewrite bind_eq.
    erewrite modify_table_eq by (by rewrite lookup_insert_ne).
    unfold ret at 1. unfold ret at 1. cbn [_table _values _rowState _originalValues].
    rewrite (right_id_L ∅ (∪)).
    fold (cloned_row tmp (_columns (columns nt)) r).
    match goal with
    | |- context [forEach rs ?body ?g1] =>
        set (h1 := g1);
        destruct (IH h1 (with_rows nt (_rows (rows nt) ++ [newRow])))
          as (g' & news & Heq & Htt' & Hrecs & Hframe & Hnew)
    end.
    + unfold h1. by rewrite lookup_insert_eq.
    + intros row' Hin. destruct (Hrs row') as [r' Hr']; [by right|].
      exists r'. unfold h1. rewrite !lookup_insert_ne; [done|..].
      * by apply not_eq_sym, (fresh_ne g row' (CRow r')).
      * intros ->. congruence.
    + exists g', (newRow :: news). split; [exact Heq|]. split.
      { rewrite Htt'. cbn [with_rows rows _rows]. by rewrite <- app_assoc. }
      split; [constructor|split].
      * rewrite (row_at_Some g row r Hr). apply Hframe; [done|].
        unfold h1. by rewrite lookup_insert_ne, lookup_insert_eq.
      * apply (Forall2_ext_in _ _ _ _ Hrecs). intros l src Hin Hl.
        destruct (Hrs src) as [r' Hr']; [by right|].
        rewrite (row_at_Some g src r' Hr').
        rewrite (row_at_Some h1 src r') in Hl; [done|].
        unfold h1. rewrite !lookup_insert_ne; [done|..].
        -- by apply not_eq_sym, (fresh_ne g src (CRow r')).
        -- intros ->. congruence.
      * intros l c Hl Hc. apply Hframe; [done|].
        unfold h1. rewrite !lookup_insert_ne; [done|..]; [|done].
        by apply not_eq_sym, (fresh_ne g l c).
      * intros l [->|Hin]%elem_of_cons; [apply fresh_lookup|].
        specialize (Hnew l Hin). unfold h1 in Hnew.
        destruct (decide (l = tmp)) as [->|Hl1];
          [by rewrite lookup_insert_eq in Hnew|].
        rewrite lookup_insert_ne in Hnew by done.
        destruct (decide (l = newRow)) as [->|Hl2];
          [by rewrite lookup_insert_eq in Hnew|].
        by rewrite lookup_insert_ne in Hnew.
Qed.

(** X26: [clone] of a well-formed table with no column named
    [__proto__], whose rows hold nothing under [__proto__], returns a
    new table with the name
    and the case sensitivity of the table, copies of its columns, and
    one new row for each row, in order: the new row holds the values of
    the row (over the defaults of the columns), its state and its
    original values.  The table and its rows are as they were. *)
Theorem clone_copies_rows (h : heap) (table : loc) (t : DataTable) :
  table_ok h table t ->
  assignable_columns (_columns (columns t)) ->
  (forall row, row ∈ _rows (rows t) ->
     _values (row_at h row) !! "__proto__" = None
     /\ _originalValues (row_at h row) !! "__proto__" = None) ->
  exists h' news,
    DataTable.clone table h = (h', Ok (fresh (dom h)))
    /\ h' !! fresh (dom h)
       = Some (CTable {| tableName := tableName t;
                         rows := {| _rows := news |};
                         columns := {| _columns := cloned_columns (fresh (dom h))
                                                     (_columns (columns t)) |};
                         caseSensitive := caseSensitive t |})
    /\ Forall2 (fun l src =>
                  h' !! l
                  = Some (CRow (cloned_row (fresh (dom h))
                                  (cloned_columns (fresh (dom h)) (_columns (columns t)))
                                  (row_at h src))))
         news (_rows (rows t))
    /\ (forall l c, h !! l = Some c -> h' !! l = Some c)
    /\ (forall l, l ∈ news -> h !! l = None).
Proof.
  intros (Ht & Hnd & Hrows) _ _.
  set (tmp := fresh (dom h)).
  set (nt0 := {| tableName := tableName t; rows := {| _rows := [] |};
                 columns := {| _columns := [] |}; caseSensitive := false |}).
  unfold DataTable.clone, get_table, read.
  rewrite bind_eq, (read_table_Some _ _ _ Ht), bind_eq.
  unfold DataTable.new. rewrite alloc_eq. fold tmp nt0.
  rewrite bind_eq, (clone_columns_loop _ _ tmp nt0);
    [|by rewrite lookup_insert_eq|done|done].
  rewrite insert_insert_eq. simpl "++". fold (cloned_columns tmp (_columns (columns t))).
  set (nt1 := with_columns nt0 (cloned_columns tmp (_columns (columns t)))).
  assert (forall src, src ∈ _rows (rows t) ->
            row_at (<[tmp := CTable nt1]> h) src = row_at h src) as Hsame.
  { intros src Hin. destruct (Hrows src Hin) as (r & Hr & _).
    unfold row_at. rewrite lookup_insert_ne; [done|].
    by apply not_eq_sym, (fresh_ne h src (CRow r)). }
  destruct (clone_rows_records (_rows (rows t)) (<[tmp := CTable nt1]> h) tmp nt1)
    as (g' & news & Heq & Htt' & Hrecs & Hframe & Hnew).
  { by rewrite lookup_insert_eq. }
  { intros row Hin. destruct (Hrows row Hin) as (r & Hr & _).
    exists r. rewrite lookup_insert_ne; [done|].
    by apply not_eq_sym, (fresh_ne h row (CRow r)). }
  rewrite bind_eq, Heq, bind_eq.
  erewrite modify_table_eq by exact Htt'.
  exists (<[tmp := CTable {| tableName := tableName t; rows := {| _rows := news |};
                            columns := {| _columns := cloned_columns tmp (_columns (columns t)) |};
                            caseSensitive := caseSensitive t |}]> g'), news.
  assert (forall l, l ∈ news -> l <> tmp) as Hfresh.
  { intros l Hin ->. specialize (Hnew tmp Hin). by rewrite lookup_insert_eq in Hnew. }
  split; [done|]. split; [by rewrite lookup_insert_eq|]. split; [|split].
  - apply (Forall2_ext_in _ _ _ _ Hrecs). intros l src Hin Hl.
    rewrite <- (Hsame src Hin). 
    rewrite lookup_insert_ne; [done|].
    intros Htmp.
    assert (g' !! l = g' !! tmp) as Hl' by congruence.
    rewrite Hl, Htt' in Hl'. discriminate Hl'.
  - intros l c Hl.
    assert (l <> tmp) as Hne by (by apply (fresh_ne h l c)).
    rewrite lookup_insert_ne by done. apply Hframe; [done|].
    by rewrite lookup_insert_ne.
  - intros l Hin. specialize (Hnew l Hin).
    rewrite lookup_insert_ne in Hnew; [done|]. apply not_eq_sym. by apply Hfresh.
Qed.
End CloneRows.

(** ** The properties on the examples *)

Section OnTheExamples.
Import DataColumnCollection.

Lemma family_P_ok : table_ok family_heap 1%positive family_P.
Proof.
  destruct family_P_rows as (Hlookup & _ & Hrows).
  split; [done|]. split; [apply NoDup_singleton|done].
Qed.



Lemma removeRow_in_range_witness :
  (ex2_heap !! 1%positive = Some (CTable ex2_table))
  /\ ((0 < List.length (_rows (rows ex2_table)))%nat)
  /\ (Qle (inject_Z (Z.of_nat 0)) (1 # 2)%Q)
  /\ (Qlt (1 # 2)%Q (inject_Z (Z.of_nat (S 0))))
  /\ (DataTable.removeRow 1%positive (Fin (1 # 2)%Q) ex2_heap
       = (<[1%positive := CTable (with_rows ex2_table (delete 0 (_rows (rows ex2_table))))]> ex2_heap, Ok tt)).
Proof.
  assert (ex2_heap !! 1%positive = Some (CTable ex2_table)) as Hyp1.
  { vm_compute; reflexivity. }
  assert ((0 < List.length (_rows (rows ex2_table)))%nat) as Hyp2.
  { simpl; lia. }
  assert (Qle (inject_Z (Z.of_nat 0)) (1 # 2)%Q) as Hyp3.
  { by vm_compute. }
  assert (Qlt (1 # 2)%Q (inject_Z (Z.of_nat (S 0)))) as Hyp4.
  { by vm_compute. }
  exact (conj Hyp1 (conj Hyp2 (conj Hyp3 (conj Hyp4 (removeRow_in_range ex2_heap 1%positive ex2_table ((1 # 2)%Q) 0 Hyp1 Hyp2 Hyp3 Hyp4))))).
Defined.

Lemma rows_remove_witness :
  (ex2_heap !! 1%positive = Some (CTable ex2_table))
  /\ ((~ 3%positive ∈ _rows (rows ex2_table) -> DataRowCollection.remove 1%positive 3%positive ex2_heap = (ex2_heap, Ok tt))
       /\ (forall l1 l2,
             _rows (rows ex2_table) = l1 ++ 3%positive :: l2 -> ~ 3%positive ∈ l1 ->
             DataRowCollection.remove 1%positive 3%positive ex2_heap
             = (<[1%positive := CTable (with_rows ex2_table (l1 ++ l2))]> ex2_heap, Ok tt))).
Proof.
  assert (ex2_heap !! 1%positive = Some (CTable ex2_table)) as Hyp1.
  { vm_compute; reflexivity. }
  exact (conj Hyp1 (rows_remove ex2_heap 1%positive ex2_table 3%positive Hyp1)).
Defined.

Lemma addRow_array_witness :
  (ex2_heap !! 1%positive = Some (CTable ex2_table))
  /\ (NoDup (Map_keys (_columns (columns ex2_table))))
  /\ (assignable_columns (_columns (columns ex2_table)))
  /\ (DataTable.addRow 1%positive (RowArray (@nil val)) ex2_heap
       = (<[1%positive := CTable (with_rows ex2_table (_rows (rows ex2_table) ++ [fresh (dom ex2_heap)]))]>
            (<[fresh (dom ex2_heap) := CRow (array_row 1%positive (_columns (columns ex2_table)) (@nil val))]> ex2_heap),
          Ok (fresh (dom ex2_heap)))
       /\ (forall i c, _columns (columns ex2_table) !! i = Some c ->
             _values (array_row 1%positive (_columns (columns ex2_table)) (@nil val)) !! columnName c
             = Some (default VUndefined ((@nil val) !! i)))
       /\ dom (_values (array_row 1%positive (_columns (columns ex2_table)) (@nil val)))
          = list_to_set (Map_keys (_columns (columns ex2_table)))).
Proof.
  assert (ex2_heap !! 1%positive = Some (CTable ex2_table)) as Hyp1.
  { vm_compute; reflexivity. }
  assert (NoDup (Map_keys (_columns (columns ex2_table)))) as Hyp2.
  { exact (proj1 (proj2 ex2_table_ok)). }
  assert (assignable_columns (_columns (columns ex2_table))) as Hyp3.
  { unfold assignable_columns, assignable; compute_done. }
  exact (conj Hyp1 (conj Hyp2 (conj Hyp3 (addRow_array ex2_heap 1%positive ex2_table ((@nil val)) Hyp1 Hyp2 Hyp3)))).
Defined.

Lemma addRow_null_witness :
  (ex2_heap !! 1%positive = Some (CTable ex2_table))
  /\ (exists h',
         DataTable.addRow 1%positive RowNull ex2_heap = (h', Throw TypeError)
         /\ h' !! 1%positive = Some (CTable ex2_table)
         /\ (forall l c, ex2_heap !! l = Some c -> h' !! l = Some c)).
Proof.
  assert (ex2_heap !! 1%positive = Some (CTable ex2_table)) as Hyp1.
  { vm_compute; reflexivity. }
  exact (conj Hyp1 (addRow_null ex2_heap 1%positive ex2_table Hyp1)).
Defined.


Lemma sort_missing_column_witness :
  (table_ok ex2_heap 1%positive ex2_table)
  /\ (Map_has (_columns (columns ex2_table)) "zz" = false)
  /\ (((2 <= List.length (_rows (rows ex2_table)))%nat ->
        DataTable.sort (H := simple_engine) 1%positive (SortColumnName "zz") "asc" ex2_heap
        = (ex2_heap, Throw (ColumnDoesNotExist "zz")))
       /\ ((List.length (_rows (rows ex2_table)) <= 1)%nat ->
           DataTable.sort (H := simple_engine) 1%positive (SortColumnName "zz") "asc" ex2_heap = (ex2_heap, Ok tt))).
Proof.
  assert (table_ok ex2_heap 1%positive ex2_table) as Hyp1.
  { exact ex2_table_ok. }
  assert (Map_has (_columns (columns ex2_table)) "zz" = false) as Hyp2.
  { reflexivity. }
  exact (conj Hyp1 (conj Hyp2 (sort_missing_column (H := simple_engine) ex2_heap 1%positive ex2_table ("zz") ("asc") Hyp1 Hyp2))).
Defined.

Lemma sort_number_column_witness :
  (table_ok family_heap 1%positive family_P)
  /\ (Map_get (_columns (columns family_P)) "id" = Some family_id)
  /\ (toLowerCase <$> dataType family_id = Some "number")
  /\ (forall row, row ∈ _rows (rows family_P) -> is_Some (number_at family_heap row "id"))
  /\ (exists sorted,
         DataTable.sort (H := simple_engine) 1%positive (SortColumnName "id") "desc" family_heap
         = (<[1%positive := CTable (with_rows family_P sorted)]> family_heap, Ok tt)
         /\ sorted ≡ₚ _rows (rows family_P)
         /\ ordered (if String.eqb "desc" "asc" then number_le family_heap "id"
                     else flip (number_le family_heap "id")) sorted).
Proof.
  assert (table_ok family_heap 1%positive family_P) as Hyp1.
  { exact family_P_ok. }
  assert (Map_get (_columns (columns family_P)) "id" = Some family_id) as Hyp2.
  { reflexivity. }
  assert (toLowerCase <$> dataType family_id = Some "number") as Hyp3.
  { reflexivity. }
  assert (forall row, row ∈ _rows (rows family_P) -> is_Some (number_at family_heap row "id")) as Hyp4.
  { intros row [->|[->|[]%elem_of_nil]%elem_of_cons]%elem_of_cons; vm_compute; by eexists. }
  exact (conj Hyp1 (conj Hyp2 (conj Hyp3 (conj Hyp4 (sort_number_column (H := simple_engine) family_heap 1%positive family_P ("id") ("desc") family_id Hyp1 Hyp2 Hyp3 Hyp4))))).
Defined.

Lemma sortMultiple_sortBy_witness :
  (ex2_heap !! 1%positive = Some (CTable ex2_table))
  /\ (default "asc" None = "asc")
  /\ (DataTable.sortMultiple 1%positive [] ex2_heap = (ex2_heap, Ok tt)
       /\ DataTable.sortMultiple 1%positive [((KString "a"), None)] ex2_heap
          = DataTable.sortBy 1%positive (fun row => call_get row (KString "a")) ex2_heap).
Proof.
  assert (ex2_heap !! 1%positive = Some (CTable ex2_table)) as Hyp1.
  { vm_compute; reflexivity. }
  assert (default "asc" None = "asc") as Hyp2.
  { reflexivity. }
  exact (conj Hyp1 (conj Hyp2 (sortMultiple_sortBy ex2_heap 1%positive ex2_table ((KString "a")) None Hyp1 Hyp2))).
Defined.

Lemma loadFromQuery_new_columns_witness :
  (ex2_heap !! 1%positive = Some (CTable ex2_table))
  /\ (NoDup (Map_keys (_columns (columns ex2_table)) ++ [("b", VNum (Fin 1))].*1))
  /\ (assignable_columns (_columns (columns ex2_table)))
  /\ (Forall assignable [("b", VNum (Fin 1))].*1)
  /\ (DataTable.loadFromQuery 1%positive [] ex2_heap = (ex2_heap, Ok tt)
       /\ exists h' news,
            DataTable.loadFromQuery 1%positive ([("b", VNum (Fin 1))] :: (@nil (list (string * val)))) ex2_heap = (h', Ok tt)
            /\ h' !! 1%positive
               = Some (CTable {| tableName := tableName ex2_table;
                                 rows := {| _rows := news |};
                                 columns :=
                                   {| _columns := query_columns 1%positive (_columns (columns ex2_table))
                                                    [("b", VNum (Fin 1))] |};
                                 caseSensitive := caseSensitive ex2_table |})
            /\ Forall2 (fun l q =>
                          h' !! l
                          = Some (CRow (object_row 1%positive
                                          (query_columns 1%positive (_columns (columns ex2_table)) [("b", VNum (Fin 1))])
                                          (list_to_map q))))
                 news ([("b", VNum (Fin 1))] :: (@nil (list (string * val))))
            /\ (forall l c, l <> 1%positive -> ex2_heap !! l = Some c -> h' !! l = Some c)
            /\ (forall l, l ∈ news -> ex2_heap !! l = None)
            /\ query_columns 1%positive (_columns (columns ex2_table)) [("b", VNum (Fin 1))]
               = _columns (columns ex2_table)
                 ++ imap (fun i => query_column 1%positive (List.length (_columns (columns ex2_table)) + i))
                      [("b", VNum (Fin 1))]).
Proof.
  assert (ex2_heap !! 1%positive = Some (CTable ex2_table)) as Hyp1.
  { vm_compute; reflexivity. }
  assert (NoDup (Map_keys (_columns (columns ex2_table)) ++ [("b", VNum (Fin 1))].*1)) as Hyp2.
  { compute_done. }
  assert (assignable_columns (_columns (columns ex2_table))) as Hyp3.
  { unfold assignable_columns, assignable; compute_done. }
  assert (Forall assignable [("b", VNum (Fin 1))].*1) as Hyp4.
  { unfold assignable; compute_done. }
  exact (conj Hyp1 (conj Hyp2 (conj Hyp3 (conj Hyp4 (loadFromQuery_new_columns ex2_heap 1%positive ex2_table ([("b", VNum (Fin 1))]) ((@nil (list (string * val)))) Hyp1 Hyp2 Hyp3 Hyp4))))).
Defined.

Lemma loadFromQuery_existing_column_witness :
  (ex2_heap !! 1%positive = Some (CTable ex2_table))
  /\ (NoDup (Map_keys (_columns (columns ex2_table)) ++ (@nil (string * val)).*1))
  /\ (Map_has (_columns (columns ex2_table)) "a" = true)
  /\ (DataTable.loadFromQuery 1%positive (((@nil (string * val)) ++ ("a", (VStr "x")) :: (@nil (string * val))) :: (@nil (list (string * val)))) ex2_heap
       = (<[1%positive := CTable {| tableName := tableName ex2_table;
                               rows := {| _rows := [] |};
                               columns :=
                                 {| _columns := query_columns 1%positive (_columns (columns ex2_table))
                                                  (@nil (string * val)) |};
                               caseSensitive := caseSensitive ex2_table |}]> ex2_heap,
          Throw (ColumnAlreadyExists "a"))).
Proof.
  assert (ex2_heap !! 1%positive = Some (CTable ex2_table)) as Hyp1.
  { vm_compute; reflexivity. }
  assert (NoDup (Map_keys (_columns (columns ex2_table)) ++ (@nil (string * val)).*1)) as Hyp2.
  { compute_done. }
  assert (Map_has (_columns (columns ex2_table)) "a" = true) as Hyp3.
  { reflexivity. }
  exact (conj Hyp1 (conj Hyp2 (conj Hyp3 (loadFromQuery_existing_column ex2_heap 1%positive ex2_table ((@nil (string * val))) ((@nil (string * val))) ("a") ((VStr "x")) ((@nil (list (string * val)))) Hyp1 Hyp2 Hyp3)))).
Defined.

Lemma addTable_table_witness :
  (family_heap !! 1%positive = Some (CTable family_P))
  /\ ((DataSet.tables_has (tables family_dataset) "X" = true ->
        (DataSet.addTable family_dataset (DataSet.TableName "X") family_heap).2 = Throw (TableAlreadyExists "X"))
       /\ (DataSet.tables_has (tables family_dataset) (tableName family_P) = true ->
           DataSet.addTable family_dataset (DataSet.TableInstance 1%positive) family_heap
           = (family_heap, Throw (TableAlreadyExists (tableName family_P))))
       /\ (DataSet.tables_has (tables family_dataset) "X" = false ->
           exists ds',
             DataSet.addTable family_dataset (DataSet.TableName "X") family_heap
             = (<[fresh (dom family_heap) :=
                    CTable {| tableName := "X"; rows := {| _rows := [] |};
                              columns := {| _columns := [] |}; caseSensitive := false |}]> family_heap,
                Ok (ds', fresh (dom family_heap)))
             /\ DataSet.table ds' "X" = Ok (fresh (dom family_heap))
             /\ DataSet.hasTable ds' "X" = true
             /\ (forall other, other <> "X" ->
                   DataSet.table ds' other = DataSet.table family_dataset other)
             /\ relations ds' = relations family_dataset)
       /\ (DataSet.tables_has (tables family_dataset) (tableName family_P) = false ->
           exists ds',
             DataSet.addTable family_dataset (DataSet.TableInstance 1%positive) family_heap = (family_heap, Ok (ds', 1%positive))
             /\ DataSet.table ds' (tableName family_P) = Ok 1%positive
             /\ DataSet.hasTable ds' (tableName family_P) = true
             /\ (forall other, other <> tableName family_P ->
                   DataSet.table ds' other = DataSet.table family_dataset other)
             /\ relations ds' = relations family_dataset)).
Proof.
  assert (family_heap !! 1%positive = Some (CTable family_P)) as Hyp1.
  { exact (proj1 family_P_rows). }
  exact (conj Hyp1 (addTable_table family_heap family_dataset ("X") 1%positive family_P Hyp1)).
Defined.

Lemma removeTable_relations_witness :
  (relations_ok family_heap (relations family_dataset))
  /\ ((DataSet.tables_has (tables family_dataset) "P" = false ->
        DataSet.removeTable family_heap family_dataset "P" = Throw (TableDoesNotExist "P")
        /\ kind_of (TableDoesNotExist "P") = NotFound)
       /\ (DataSet.tables_has (tables family_dataset) "P" = true ->
           exists ds',
             DataSet.removeTable family_heap family_dataset "P" = Ok ds'
             /\ relations ds' = List.filter (fun rel => negb (involves family_heap "P" rel)) (relations family_dataset)
             /\ DataSet.hasTable ds' "P" = false
             /\ DataSet.table ds' "P" = Throw (TableDoesNotExist "P")
             /\ (forall other, other <> "P" ->
                   DataSet.table ds' other = DataSet.table family_dataset other)
             /\ DataSet.getRelations family_heap ds' "P" = Ok [])
       /\ DataSet.getRelations family_heap family_dataset "P" = Ok (List.filter (involves family_heap "P") (relations family_dataset))).
Proof.
  assert (relations_ok family_heap (relations family_dataset)) as Hyp1.
  { intros rel ->%list_elem_of_singleton; by vm_compute. }
  exact (conj Hyp1 (removeTable_relations family_heap family_dataset ("P") Hyp1)).
Defined.

Lemma dataset_clear_witness :
  (forall entry, entry ∈ tables family_dataset -> exists t, family_heap !! entry.2 = Some (CTable t))
  /\ (exists h',
         DataSet.clear family_dataset family_heap = (h', Ok tt)
         /\ (forall entry t, entry ∈ tables family_dataset -> family_heap !! entry.2 = Some (CTable t) ->
               h' !! entry.2 = Some (CTable (with_rows t [])))
         /\ (forall l, ~ l ∈ (tables family_dataset).*2 -> h' !! l = family_heap !! l)).
Proof.
  assert (forall entry, entry ∈ tables family_dataset -> exists t, family_heap !! entry.2 = Some (CTable t)) as Hyp1.
  { intros entry [->|[->|[]%elem_of_nil]%elem_of_cons]%elem_of_cons; [exists family_P; exact (proj1 family_P_rows)|exists family_C; exact (proj1 family_C_rows)]. }
  exact (conj Hyp1 (dataset_clear family_heap family_dataset Hyp1)).
Defined.

Lemma isValid_getChildRows_witness :
  (DataSet.find_relation family_dataset "P_C" = Some family_relation)
  /\ (parentTable family_relation = Some 1%positive)
  /\ (childTable family_relation = Some 2%positive)
  /\ (rows_have_column family_heap 1%positive family_P (columnName (parentColumn family_relation)))
  /\ (rows_have_column family_heap 2%positive family_C (columnName (childColumn family_relation)))
  /\ (3%positive ∈ _rows (rows family_P))
  /\ (exists children,
         DataSet.getChildRows2 (H := simple_engine) family_heap family_dataset 3%positive "P_C" = Ok children
         /\ forall childRow, childRow ∈ _rows (rows family_C) ->
              exists valid,
                DataRelation.isValid family_heap family_relation 3%positive childRow = Ok valid
                /\ (valid = true <-> childRow ∈ children)).
Proof.
  assert (DataSet.find_relation family_dataset "P_C" = Some family_relation) as Hyp1.
  { reflexivity. }
  assert (parentTable family_relation = Some 1%positive) as Hyp2.
  { reflexivity. }
  assert (childTable family_relation = Some 2%positive) as Hyp3.
  { reflexivity. }
  assert (rows_have_column family_heap 1%positive family_P (columnName (parentColumn family_relation))) as Hyp4.
  { exact family_P_rows. }
  assert (rows_have_column family_heap 2%positive family_C (columnName (childColumn family_relation))) as Hyp5.
  { exact family_C_rows. }
  assert (3%positive ∈ _rows (rows family_P)) as Hyp6.
  { by left. }
  exact (conj Hyp1 (conj Hyp2 (conj Hyp3 (conj Hyp4 (conj Hyp5 (conj Hyp6 (isValid_getChildRows (H := simple_engine) family_heap family_dataset ("P_C") family_relation 1%positive 2%positive 3%positive family_P family_C Hyp1 Hyp2 Hyp3 Hyp4 Hyp5 Hyp6))))))).
Defined.

Lemma view_row_by_index_witness :
  (DataView.getRows (H := simple_engine) ex2_plain_view ex2_heap = (ex2_heap, Ok [2%positive; 3%positive]))
  /\ ((forall i : nat,
           DataView.row (H := simple_engine) ex2_plain_view (number_of_Z (Z.of_nat i)) ex2_heap
           = (ex2_heap, match [2%positive; 3%positive] !! i with
                  | Some row => Ok (Some row)
                  | None => Throw (IndexOutOfRange (number_of_Z (Z.of_nat i)))
                  end))
       /\ (forall q, Qlt q 0 \/ Qle (inject_Z (Z.of_nat (List.length [2%positive; 3%positive]))) q ->
             DataView.row (H := simple_engine) ex2_plain_view (Fin q) ex2_heap = (ex2_heap, Throw (IndexOutOfRange (Fin q))))
       /\ DataView.row (H := simple_engine) ex2_plain_view NaN ex2_heap = (ex2_heap, Ok None)
       /\ (forall q, Qle 0 q -> Qlt q (inject_Z (Z.of_nat (List.length [2%positive; 3%positive]))) ->
             array_index (Fin q) = None ->
             DataView.row (H := simple_engine) ex2_plain_view (Fin q) ex2_heap = (ex2_heap, Ok None))
       /\ DataView.firstRow (H := simple_engine) ex2_plain_view ex2_heap = (ex2_heap, Ok (head [2%positive; 3%positive]))
       /\ DataView.count (H := simple_engine) ex2_plain_view ex2_heap = (ex2_heap, Ok (List.length [2%positive; 3%positive]))).
Proof.
  assert (DataView.getRows (H := simple_engine) ex2_plain_view ex2_heap = (ex2_heap, Ok [2%positive; 3%positive])) as Hyp1.
  { vm_compute; reflexivity. }
  exact (conj Hyp1 (view_row_by_index (H := simple_engine) ex2_plain_view ex2_heap ex2_heap ([2%positive; 3%positive]) Hyp1)).
Defined.



Lemma clone_copies_rows_witness :
  (table_ok ex2_heap 1%positive ex2_table)
  /\ (assignable_columns (_columns (columns ex2_table)))
  /\ (forall row, row ∈ _rows (rows ex2_table) ->
          _values (row_at ex2_heap row) !! "__proto__" = None
          /\ _originalValues (row_at ex2_heap row) !! "__proto__" = None)
  /\ (exists h' news,
         DataTable.clone 1%positive ex2_heap = (h', Ok (fresh (dom ex2_heap)))
         /\ h' !! fresh (dom ex2_heap)
            = Some (CTable {| tableName := tableName ex2_table;
                              rows := {| _rows := news |};
                              columns := {| _columns := cloned_columns (fresh (dom ex2_heap))
                                                          (_columns (columns ex2_table)) |};
                              caseSensitive := caseSensitive ex2_table |})
         /\ Forall2 (fun l src =>
                       h' !! l
                       = Some (CRow (cloned_row (fresh (dom ex2_heap))
                                       (cloned_columns (fresh (dom ex2_heap)) (_columns (columns ex2_table)))
                                       (row_at ex2_heap src))))
              news (_rows (rows ex2_table))
         /\ (forall l c, ex2_heap !! l = Some c -> h' !! l = Some c)
         /\ (forall l, l ∈ news -> ex2_heap !! l = None)).
Proof.
  assert (table_ok ex2_heap 1%positive ex2_table) as Hyp1.
  { exact ex2_table_ok. }
  assert (assignable_columns (_columns (columns ex2_table))) as Hyp2.
  { unfold assignable_columns, assignable; compute_done. }
  assert (forall row, row ∈ _rows (rows ex2_table) ->
              _values (row_at ex2_heap row) !! "__proto__" = None
              /\ _originalValues (row_at ex2_heap row) !! "__proto__" = None) as Hyp3.
  { intros row [->|[->|[]%elem_of_nil]%elem_of_cons]%elem_of_cons; split; reflexivity. }
  exact (conj Hyp1 (conj Hyp2 (conj Hyp3 (clone_copies_rows ex2_heap 1%positive ex2_table Hyp1 Hyp2 Hyp3)))).
Defined.

Lemma importSchema_exportSchema_witness :
  (ex2_heap !! 1%positive = Some (CTable ex2_table))
  /\ (columns_ok (_columns (columns ex2_table)))
  /\ (forall c, c ∈ _columns (columns ex2_table) -> caption c <> "")
  /\ (exists schema,
         DataTable2.exportSchema ex2_heap 1%positive = Ok schema
         /\ Schema.columns schema = map DataTable2.column_def (_columns (columns ex2_table))
         /\ DataTable2.importSchema schema ex2_heap
            = (<[fresh (dom ex2_heap) :=
                   CTable {| tableName := tableName ex2_table;
                             rows := {| _rows := [] |};
                             columns :=
                               {| _columns := map (fun c => with_table c (Some (fresh (dom ex2_heap))))
                                                (_columns (columns ex2_table)) |};
                             caseSensitive := caseSensitive ex2_table |}]> ex2_heap,
               Ok (fresh (dom ex2_heap)))).
Proof.
  assert (ex2_heap !! 1%positive = Some (CTable ex2_table)) as Hyp1.
  { vm_compute; reflexivity. }
  assert (columns_ok (_columns (columns ex2_table))) as Hyp2.
  { split; [reflexivity|apply NoDup_singleton]. }
  assert (forall c, c ∈ _columns (columns ex2_table) -> caption c <> "") as Hyp3.
  { intros c ->%list_elem_of_singleton; discriminate. }
  exact (conj Hyp1 (conj Hyp2 (conj Hyp3 (importSchema_exportSchema ex2_heap 1%positive ex2_table Hyp1 Hyp2 Hyp3)))).
Defined.

Lemma compareSchema_no_differences_witness :
  (family_heap !! 1%positive = Some (CTable family_P))
  /\ (family_heap !! 2%positive = Some (CTable family_C))
  /\ (DataTable2.compareSchema family_heap 1%positive 2%positive = Ok no_differences
       <-> (forall c, c ∈ _columns (columns family_P) ->
              exists c', Map_get (_columns (columns family_C)) (columnName c) = Some c'
                         /\ dataType c = dataType c' /\ allowNull c = allowNull c')
           /\ (forall c', c' ∈ _columns (columns family_C) ->
                 Map_has (_columns (columns family_P)) (columnName c') = true)).
Proof.
  assert (family_heap !! 1%positive = Some (CTable family_P)) as Hyp1.
  { exact (proj1 family_P_rows). }
  assert (family_heap !! 2%positive = Some (CTable family_C)) as Hyp2.
  { exact (proj1 family_C_rows). }
  exact (conj Hyp1 (conj Hyp2 (compareSchema_no_differences family_heap 1%positive 2%positive family_P family_C Hyp1 Hyp2))).
Defined.

Lemma compareSchema_swap_witness :
  (family_heap !! 1%positive = Some (CTable family_P))
  /\ (family_heap !! 2%positive = Some (CTable family_C))
  /\ (exists d d',
         DataTable2.compareSchema family_heap 1%positive 2%positive = Ok d
         /\ DataTable2.compareSchema family_heap 2%positive 1%positive = Ok d'
         /\ missingColumns d = extraColumns d'
         /\ extraColumns d = missingColumns d'
         /\ (NoDup (Map_keys (_columns (columns family_P))) ->
             DataTable2.compareSchema family_heap 1%positive 1%positive = Ok no_differences)).
Proof.
  assert (family_heap !! 1%positive = Some (CTable family_P)) as Hyp1.
  { exact (proj1 family_P_rows). }
  assert (family_heap !! 2%positive = Some (CTable family_C)) as Hyp2.
  { exact (proj1 family_C_rows). }
  exact (conj Hyp1 (conj Hyp2 (compareSchema_swap family_heap 1%positive 2%positive family_P family_C Hyp1 Hyp2))).
Defined.

Lemma updateSchema_throws_witness :
  (family_heap !! 1%positive = Some (CTable family_P))
  /\ (family_heap !! 2%positive = Some (CTable family_C))
  /\ (DataTable2.compareSchema family_heap 1%positive 2%positive = Ok family_differences)
  /\ ((forall x l, true = true -> missingColumns family_differences = x :: l ->
          DataTable2.updateSchema 1%positive 2%positive true false family_heap
          = (family_heap, Throw TypeError))
       /\ (forall x l, true = false \/ missingColumns family_differences = [] ->
             false = true -> extraColumns family_differences = x :: l ->
             DataTable2.updateSchema 1%positive 2%positive true false family_heap
             = (family_heap, Throw (ColumnDoesNotExist x)))).
Proof.
  assert (family_heap !! 1%positive = Some (CTable family_P)) as Hyp1.
  { exact (proj1 family_P_rows). }
  assert (family_heap !! 2%positive = Some (CTable family_C)) as Hyp2.
  { exact (proj1 family_C_rows). }
  assert (DataTable2.compareSchema family_heap 1%positive 2%positive = Ok family_differences) as Hyp3.
  { vm_compute; reflexivity. }
  exact (conj Hyp1 (conj Hyp2 (conj Hyp3 (updateSchema_throws family_heap 1%positive 2%positive family_P family_C family_differences true false Hyp1 Hyp2 Hyp3)))).
Defined.

Lemma updateSchema_aligns_witness :
  (ex1_source_heap !! 1%positive = Some (CTable ex1_table))
  /\ (ex1_source_heap !! 3%positive = Some (CTable ex1_source))
  /\ (NoDup (Map_keys (_columns (columns ex1_table))))
  /\ (DataTable2.compareSchema ex1_source_heap 1%positive 3%positive = Ok ex1_differences)
  /\ (true = true -> missingColumns ex1_differences = [])
  /\ (true = true -> extraColumns ex1_differences = [])
  /\ (exists h' d',
         DataTable2.updateSchema 1%positive 3%positive true true ex1_source_heap
         = (h', Ok {| addedColumns := []; removedColumns := [];
                      modifiedColumns :=
                        map type_change (typeMismatches ex1_differences)
                        ++ map nullability_change (nullabilityDifferences ex1_differences) |})
         /\ h' !! 1%positive
            = Some (CTable (with_columns ex1_table
                              (map (updated_column (_columns (columns ex1_source)))
                                   (_columns (columns ex1_table)))))
         /\ (1%positive <> 3%positive -> h' !! 3%positive = Some (CTable ex1_source))
         /\ (forall l r, ex1_source_heap !! l = Some (CRow r) -> h' !! l = Some (CRow r))
         /\ DataTable2.compareSchema h' 1%positive 3%positive = Ok d'
         /\ typeMismatches d' = [] /\ nullabilityDifferences d' = []
         /\ missingColumns d' = missingColumns ex1_differences /\ extraColumns d' = extraColumns ex1_differences).
Proof.
  assert (ex1_source_heap !! 1%positive = Some (CTable ex1_table)) as Hyp1.
  { vm_compute; reflexivity. }
  assert (ex1_source_heap !! 3%positive = Some (CTable ex1_source)) as Hyp2.
  { vm_compute; reflexivity. }
  assert (NoDup (Map_keys (_columns (columns ex1_table)))) as Hyp3.
  { apply NoDup_singleton. }
  assert (DataTable2.compareSchema ex1_source_heap 1%positive 3%positive = Ok ex1_differences) as Hyp4.
  { vm_compute; reflexivity. }
  assert (true = true -> missingColumns ex1_differences = []) as Hyp5.
  { intros _; reflexivity. }
  assert (true = true -> extraColumns ex1_differences = []) as Hyp6.
  { intros _; reflexivity. }
  exact (conj Hyp1 (conj Hyp2 (conj Hyp3 (conj Hyp4 (conj Hyp5 (conj Hyp6 (updateSchema_aligns ex1_source_heap 1%positive 3%positive ex1_table ex1_source ex1_differences true true Hyp1 Hyp2 Hyp3 Hyp4 Hyp5 Hyp6))))))).
Defined.
End OnTheExamples.
